(** * utm-toolkit: key conventions, capture, session storage and URL injection

    A shallow embedding of the core of the toolkit
    (core/keys.ts, core/capture.ts, core/storage.ts, core/appender.ts),
    of core/validator.ts, of the merge of configurations
    (config/defaults.ts, config/loader.ts) and of the callback
    [appendToUrl] of react/useUtmTracking.ts, together with the properties
    of its specification and further properties of the code.

    Conventions of the embedding.

    - A JavaScript string is a [string], a sequence of bytes standing for
      the UTF-8 form of the text.  The development reasons about ASCII
      text: [toLowerCase] and [toUpperCase] act on the ASCII letters only,
      percent-decoding gives bytes that are not checked for being UTF-8,
      and [encodeURIComponent] has no input on which it throws.  A
      property that holds of such text only says so: [plain_key] and
      [plain_keys] for the keys that are converted, [text_pairs] for the
      pairs that are read in a URL, [Js.is_ascii] for a string that is
      trimmed.
    - A parameter object ([UtmParameters]) is an association list from keys
      to optional values, in the insertion order that [Object.entries]
      enumerates ([None] is the value [undefined]); keys that look like
      array indices, which JavaScript enumerates first, are not told apart.
      An object built by [assign] has pairwise distinct keys.  The
      operator [in] on the two constant tables is a lookup of the table's
      own entries, which it is on every key but the names of the members
      inherited from [Object.prototype] ([inherited]).
    - The browser is a parameter: the parser behind the [URL] constructor,
      [JSON.parse], [window.location.href] and the failure of
      [sessionStorage.setItem] are supplied by the caller of the model.
      What the code calls on the objects they return ([searchParams],
      [hash], [toString], ...) is written out from the URL standard.
    - [console.warn] leaves no trace in the model.
    - The module variable [defaultProtocol] of the validator and the state
      [utmParameters] of the hook are arguments of the functions that read
      them; [trim] removes the white space of the ASCII range. *)

From Stdlib Require Import String Ascii List Bool Arith Lia.
From stdpp Require Import gmap strings.
Import ListNotations.
Open Scope string_scope.
Open Scope list_scope.
Open Scope nat_scope.

(** ** JavaScript values the code manipulates *)

(** The result of evaluating code that may throw. *)
Inductive completion (A : Type) : Type :=
| Normal (a : A)
| Throw (reason : string).
Arguments Normal {A} a.
Arguments Throw {A} reason.

(** [try { body } catch { handler }] *)
Definition try_catch {A} (body : completion A) (handler : string -> A) : A :=
  match body with
  | Normal a => a
  | Throw e => handler e
  end.

Definition bind {A B} (c : completion A) (k : A -> completion B) : completion B :=
  match c with
  | Normal a => k a
  | Throw e => Throw e
  end.

Notation "'let!' x ':=' c 'in' k" := (bind c (fun x => k))
  (at level 10, x name, c at level 100, k at level 200).

(** ** Characters and string primitives *)

Module Js.

Definition code (c : ascii) : nat := nat_of_ascii c.

Definition in_range (lo hi : nat) (c : ascii) : bool :=
  (lo <=? code c) && (code c <=? hi).

(** [/[A-Z]/], [/[a-z]/], [/[0-9]/] *)
Definition is_upper : ascii -> bool := in_range 65 90.
Definition is_lower : ascii -> bool := in_range 97 122.
Definition is_digit : ascii -> bool := in_range 48 57.

(** a character of the ASCII range *)
Definition is_ascii (c : ascii) : bool := code c <? 128.

Definition lower_char (c : ascii) : ascii :=
  if is_upper c then ascii_of_nat (code c + 32) else c.
Definition upper_char (c : ascii) : ascii :=
  if is_lower c then ascii_of_nat (code c - 32) else c.

Fixpoint map_chars (f : ascii -> ascii) (s : string) : string :=
  match s with
  | EmptyString => EmptyString
  | String c r => String (f c) (map_chars f r)
  end.

(** [s.toLowerCase()] and [s.toUpperCase()] on ASCII text *)
Definition toLowerCase : string -> string := map_chars lower_char.
Definition toUpperCase : string -> string := map_chars upper_char.

(** [s.startsWith(p)] *)
Definition startsWith (s p : string) : bool := String.prefix p s.

(** [s.slice(n)] for [0 <= n] *)
Fixpoint slice (n : nat) (s : string) : string :=
  match n, s with
  | O, _ => s
  | S n', String _ r => slice n' r
  | S _, EmptyString => EmptyString
  end.

(** [s.charAt(0)] *)
Definition charAt0 (s : string) : string :=
  match s with
  | EmptyString => EmptyString
  | String c _ => String c EmptyString
  end.

(** [s.includes(c)] for a one-character needle *)
Fixpoint includes (c : ascii) (s : string) : bool :=
  match s with
  | EmptyString => false
  | String d r => Ascii.eqb d c || includes c r
  end.

(** all characters of [s] satisfy [p] *)
Fixpoint all_chars (p : ascii -> bool) (s : string) : bool :=
  match s with
  | EmptyString => true
  | String c r => p c && all_chars p r
  end.

End Js.

(** ** core/keys.ts *)

Inductive KeyFormat : Type := snake_case | camelCase.

(** [UtmParameters]: entries in enumeration order; [None] is [undefined]. *)
Definition UtmParameters : Type := list (string * option string).

Definition keys {V} (o : list (string * V)) : list string := map fst o.

(** [o[k] = v] on an object: overwrite in place, or append a new property. *)
Fixpoint assign {V} (o : list (string * V)) (k : string) (v : V) : list (string * V) :=
  match o with
  | [] => [(k, v)]
  | (k', v') :: r => if String.eqb k' k then (k', v) :: r else (k', v') :: assign r k v
  end.

Fixpoint table_get (t : list (string * string)) (k : string) : option string :=
  match t with
  | [] => None
  | (k', v) :: r => if String.eqb k' k then Some v else table_get r k
  end.

Definition SNAKE_TO_CAMEL : list (string * string) :=
  [ ("utm_source", "utmSource"); ("utm_medium", "utmMedium");
    ("utm_campaign", "utmCampaign"); ("utm_term", "utmTerm");
    ("utm_content", "utmContent"); ("utm_id", "utmId") ].

Definition CAMEL_TO_SNAKE : list (string * string) :=
  [ ("utmSource", "utm_source"); ("utmMedium", "utm_medium");
    ("utmCampaign", "utm_campaign"); ("utmTerm", "utm_term");
    ("utmContent", "utm_content"); ("utmId", "utm_id") ].

(** [rest.replace(/([A-Z])/g, '_$1')] *)
Fixpoint underscore_uppers (s : string) : string :=
  match s with
  | EmptyString => EmptyString
  | String c r =>
      if Js.is_upper c then String "_" (String c (underscore_uppers r))
      else String c (underscore_uppers r)
  end.

(** [rest.replace(/_([a-z])/g, (_, char) => char.toUpperCase())] *)
Fixpoint capitalize_after_underscore (s : string) : string :=
  match s with
  | EmptyString => EmptyString
  | String c r =>
      match r with
      | String d r' =>
          if Ascii.eqb c "_" && Js.is_lower d
          then String (Js.upper_char d) (capitalize_after_underscore r')
          else String c (capitalize_after_underscore r)
      | EmptyString => String c EmptyString
      end
  end.

Definition toSnakeCase (key : string) : string :=
  match table_get CAMEL_TO_SNAKE key with
  | Some v => v
  | None =>
      if Js.startsWith key "utm" && (3 <? String.length key) then
        let rest := Js.slice 3 key in
        let snakeRest := Js.toLowerCase (underscore_uppers rest) in
        "utm" +:+ snakeRest
      else key
  end.

Definition toCamelCase (key : string) : string :=
  match table_get SNAKE_TO_CAMEL key with
  | Some v => v
  | None =>
      if Js.startsWith key "utm_" && (4 <? String.length key) then
        let rest := Js.slice 4 key in
        let camelRest := capitalize_after_underscore rest in
        "utm" +:+ Js.toUpperCase (Js.charAt0 camelRest) +:+ Js.slice 1 camelRest
      else key
  end.

Definition isSnakeCaseUtmKey (key : string) : bool := Js.startsWith key "utm_".

Definition isCamelCaseUtmKey (key : string) : bool :=
  if negb (Js.startsWith key "utm") || (String.length key <=? 3) then false
  else
    match String.get 3 key with
    | Some fourthChar => Js.is_upper fourthChar
    | None => false
    end.

Definition isUtmKey (key : string) : bool :=
  isSnakeCaseUtmKey key || isCamelCaseUtmKey key.

Fixpoint detectKeyFormat_loop (ks : list string) : KeyFormat :=
  match ks with
  | [] => snake_case
  | key :: r =>
      if isSnakeCaseUtmKey key then snake_case
      else if isCamelCaseUtmKey key then camelCase
      else detectKeyFormat_loop r
  end.

Definition detectKeyFormat (params : UtmParameters) : KeyFormat :=
  detectKeyFormat_loop (keys params).

Definition converter (targetFormat : KeyFormat) : string -> string :=
  match targetFormat with
  | snake_case => toSnakeCase
  | camelCase => toCamelCase
  end.

(** The loop of [convertParams], with the object built so far. *)
Fixpoint convertParams_loop (conv : string -> string)
    (entries : UtmParameters) (result : UtmParameters) : UtmParameters :=
  match entries with
  | [] => result
  | (key, value) :: r =>
      match value with
      | Some v => convertParams_loop conv r (assign result (conv key) (Some v))
      | None => convertParams_loop conv r result
      end
  end.

Definition convertParams (params : UtmParameters) (targetFormat : KeyFormat)
  : UtmParameters :=
  convertParams_loop (converter targetFormat) params [].

Definition toSnakeCaseParams (params : UtmParameters) : UtmParameters :=
  convertParams params snake_case.
Definition toCamelCaseParams (params : UtmParameters) : UtmParameters :=
  convertParams params camelCase.

Definition normalizeKey (key : string) (targetFormat : KeyFormat) : string :=
  match targetFormat with
  | snake_case => if isSnakeCaseUtmKey key then key else toSnakeCase key
  | camelCase => if isCamelCaseUtmKey key then key else toCamelCase key
  end.

Definition toUrlKey (key : string) : string :=
  if isSnakeCaseUtmKey key then key else toSnakeCase key.

(** [isValidUtmParameters] on a value that is already a plain object. *)
Definition key_ok (format : option KeyFormat) (key : string) : bool :=
  match format with
  | Some snake_case => isSnakeCaseUtmKey key
  | Some camelCase => isCamelCaseUtmKey key
  | None => isUtmKey key
  end.

Definition isValidUtmParameters (obj : UtmParameters) (format : option KeyFormat) : bool :=
  match obj with
  | [] => true
  | _ => forallb (fun '(key, _) => key_ok format key) obj
  end.

(** ** The URL standard: percent-encoding and application/x-www-form-urlencoded *)

Module Encoding.

Definition hex_digit (n : nat) : ascii :=
  if n <? 10 then ascii_of_nat (48 + n) else ascii_of_nat (55 + n).

Definition hex_value (c : ascii) : option nat :=
  if Js.is_digit c then Some (Js.code c - 48)
  else if Js.in_range 65 70 c then Some (Js.code c - 55)
  else if Js.in_range 97 102 c then Some (Js.code c - 87)
  else None.

(** [%XX], upper-case hexadecimal *)
Definition percent_byte (c : ascii) (rest : string) : string :=
  String "%" (String (hex_digit (Js.code c / 16))
                (String (hex_digit (Js.code c mod 16)) rest)).

Fixpoint percent_encode (keep : ascii -> bool) (s : string) : string :=
  match s with
  | EmptyString => EmptyString
  | String c r =>
      if keep c then String c (percent_encode keep r)
      else percent_byte c (percent_encode keep r)
  end.

(** percent-decode: a [%] not followed by two hexadecimal digits stays.
    The result is the decoded bytes; the platform reads them as UTF-8,
    which changes nothing when they are well-formed ([utf8]). *)
Fixpoint percent_decode (s : string) : string :=
  match s with
  | EmptyString => EmptyString
  | String c r =>
      match r with
      | String h (String l r') =>
          match Ascii.eqb c "%", hex_value h, hex_value l with
          | true, Some a, Some b =>
              String (ascii_of_nat (16 * a + b)) (percent_decode r')
          | _, _, _ => String c (percent_decode r)
          end
      | _ => String c (percent_decode r)
      end
  end.

Definition is_alnum (c : ascii) : bool :=
  Js.is_upper c || Js.is_lower c || Js.is_digit c.

Definition one_of (set : string) (c : ascii) : bool := Js.includes c set.

(** [encodeURIComponent]: letters, digits and the nine marks of
    [uri_unreserved] stay, every other character is escaped. *)
Definition uri_unreserved (c : ascii) : bool :=
  is_alnum c || one_of "-_.!~*'()" c.

Definition encodeURIComponent (s : string) : string :=
  percent_encode uri_unreserved s.

(** The application/x-www-form-urlencoded byte serializer: a space becomes
    [+], [A-Za-z0-9] and [*-._] stay, the rest is escaped. *)
Definition form_unreserved (c : ascii) : bool :=
  is_alnum c || one_of "*-._" c.

Fixpoint form_encode (s : string) : string :=
  match s with
  | EmptyString => EmptyString
  | String c r =>
      if Ascii.eqb c " " then String "+" (form_encode r)
      else if form_unreserved c then String c (form_encode r)
      else percent_byte c (form_encode r)
  end.

Definition plus_to_space (c : ascii) : ascii :=
  if Ascii.eqb c "+" then " "%char else c.

Definition form_decode (s : string) : string :=
  percent_decode (Js.map_chars plus_to_space s).

(** [s.split(sep)] for a one-character separator *)
Fixpoint split (sep : ascii) (s : string) : list string :=
  match s with
  | EmptyString => [EmptyString]
  | String c r =>
      if Ascii.eqb c sep then EmptyString :: split sep r
      else
        match split sep r with
        | h :: t => String c h :: t
        | [] => [String c EmptyString]
        end
  end.

(** [parts.join(sep)] *)
Fixpoint join (sep : string) (parts : list string) : string :=
  match parts with
  | [] => EmptyString
  | [x] => x
  | x :: r => x +:+ sep +:+ join sep r
  end.

(** The text before the first [sep], and the text after it (empty when
    there is no [sep]). *)
Fixpoint cut (sep : ascii) (s : string) : string * string :=
  match s with
  | EmptyString => (EmptyString, EmptyString)
  | String c r =>
      if Ascii.eqb c sep then (EmptyString, r)
      else let '(a, b) := cut sep r in (String c a, b)
  end.

(** The application/x-www-form-urlencoded parser. *)
Definition parse_pair (seq : string) : string * string :=
  let '(name, value) := cut "=" seq in
  (form_decode name, form_decode value).

Definition nonempty (s : string) : bool :=
  match s with EmptyString => false | _ => true end.

Definition parse_urlencoded (input : string) : list (string * string) :=
  map parse_pair (List.filter nonempty (split "&" input)).

(** The application/x-www-form-urlencoded serializer. *)
Definition serialize_pair (p : string * string) : string :=
  form_encode (fst p) +:+ "=" +:+ form_encode (snd p).

Definition serialize_urlencoded (l : list (string * string)) : string :=
  join "&" (map serialize_pair l).

End Encoding.

(** ** URLSearchParams *)

Module URLSearchParams.

Definition t : Type := list (string * string).

(** [new URLSearchParams(init)] for a string: one leading [?] is dropped. *)
Definition new (init : string) : t :=
  match init with
  | String "?" r => Encoding.parse_urlencoded r
  | _ => Encoding.parse_urlencoded init
  end.

Definition delete (l : t) (name : string) : t :=
  List.filter (fun p => negb (String.eqb (fst p) name)) l.

Definition has (l : t) (name : string) : bool :=
  existsb (fun p => String.eqb (fst p) name) l.

(** [set]: the first pair named [name] takes the value and the others go;
    without such a pair, a new one is appended. *)
Fixpoint set (l : t) (name value : string) : t :=
  match l with
  | [] => [(name, value)]
  | (n, v) :: r =>
      if String.eqb n name then (n, value) :: delete r name
      else (n, v) :: set r name value
  end.

Definition entries (l : t) : list (string * string) := l.
Definition names (l : t) : list string := map fst l.
Definition toString (l : t) : string := Encoding.serialize_urlencoded l.

End URLSearchParams.

(** ** URL objects *)

Module URL.

(** What the URL parser returns.  [host] is the serialized host together
    with the port, [None] when the URL has no host; [pathname] is the
    serialized path; [query] and [fragment] are [None] when absent. *)
Record record : Type := {
  scheme : string;
  username : string;
  password : string;
  host : option string;
  pathname : string;
  query : option string;
  fragment : option string
}.

(** A URL object: the record and the list of its [searchParams] object. *)
Record t : Type := {
  url : record;
  searchParams : URLSearchParams.t
}.

(** [new URL(input)], given the parser. *)
Definition new (parser : string -> option record) (input : string) : completion t :=
  match parser input with
  | Some r =>
      Normal {| url := r;
                searchParams := Encoding.parse_urlencoded (default "" (query r)) |}
  | None => Throw "TypeError"
  end.

Definition get_protocol (u : t) : string := scheme (url u) +:+ ":".
Definition get_host (u : t) : string := default "" (host (url u)).
Definition get_pathname (u : t) : string := pathname (url u).

Definition get_hash (u : t) : string :=
  match fragment (url u) with
  | None | Some EmptyString => ""
  | Some f => "#" +:+ f
  end.

Definition with_fragment (r : record) (f : option string) : record :=
  {| scheme := scheme r; username := username r; password := password r;
     host := host r; pathname := pathname r; query := query r; fragment := f |}.

Definition with_query (r : record) (q : option string) : record :=
  {| scheme := scheme r; username := username r; password := password r;
     host := host r; pathname := pathname r; query := q; fragment := fragment r |}.

(** The fragment percent-encode set: C0 controls, everything above the
    tilde, space, double quote, less-than, greater-than and backquote. *)
Definition fragment_keep (c : ascii) : bool :=
  (32 <? Js.code c) && (Js.code c <? 127)
  && negb (Js.code c =? 34) && negb (Js.code c =? 60)
  && negb (Js.code c =? 62) && negb (Js.code c =? 96).

Definition is_tab_or_newline (c : ascii) : bool :=
  (Js.code c =? 9) || (Js.code c =? 10) || (Js.code c =? 13).

Fixpoint remove_chars (p : ascii -> bool) (s : string) : string :=
  match s with
  | EmptyString => EmptyString
  | String c r => if p c then remove_chars p r else String c (remove_chars p r)
  end.

(** [urlObj.hash = value] *)
Definition set_hash (u : t) (value : string) : t :=
  match value with
  | EmptyString => {| url := with_fragment (url u) None; searchParams := searchParams u |}
  | _ =>
      let input := match value with String "#" r => r | _ => value end in
      let encoded :=
        Encoding.percent_encode fragment_keep (remove_chars is_tab_or_newline input) in
      {| url := with_fragment (url u) (Some encoded); searchParams := searchParams u |}
  end.

(** The update steps of a [searchParams] object: the query of the URL
    becomes the serialization of the list, or null when that is empty. *)
Definition update (r : record) (l : URLSearchParams.t) : t :=
  let serializedQuery := URLSearchParams.toString l in
  {| url := with_query r (if Encoding.nonempty serializedQuery
                          then Some serializedQuery else None);
     searchParams := l |}.

(** [urlObj.searchParams.delete(name)] *)
Definition searchParams_delete (u : t) (name : string) : t :=
  update (url u) (URLSearchParams.delete (searchParams u) name).

(** [urlObj.searchParams.set(name, value)] *)
Definition searchParams_set (u : t) (name value : string) : t :=
  update (url u) (URLSearchParams.set (searchParams u) name value).

(** The URL serializer. *)
Definition credentials (r : record) : string :=
  if Encoding.nonempty (username r) || Encoding.nonempty (password r)
  then username r
       +:+ (if Encoding.nonempty (password r) then ":" +:+ password r else "")
       +:+ "@"
  else "".

Definition authority (r : record) : string :=
  match host r with
  | Some h => "//" +:+ credentials r +:+ h
  | None => if Js.startsWith (pathname r) "//" then "/." else ""
  end.

Definition optional (mark : string) (component : option string) : string :=
  match component with
  | Some c => mark +:+ c
  | None => ""
  end.

Definition serialize (r : record) : string :=
  scheme r +:+ ":" +:+ authority r +:+ pathname r
  +:+ optional "?" (query r) +:+ optional "#" (fragment r).

(** [urlObj.toString()] *)
Definition toString (u : t) : string := serialize (url u).

(** What the URL parser guarantees of the serialized components: the
    delimiters [?] and [#] occur in none of them but the query, which has
    no [#]. *)
Definition no_delimiter (s : string) : bool :=
  negb (Js.includes "#" s) && negb (Js.includes "?" s).

Definition well_formed (r : record) : bool :=
  no_delimiter (scheme r) && no_delimiter (username r) && no_delimiter (password r)
  && no_delimiter (default "" (host r)) && no_delimiter (pathname r)
  && negb (Js.includes "#" (default "" (query r))).

End URL.

(** ** core/appender.ts *)

Record AppendOptions : Type := {
  toFragment : option bool;
  preserveExisting : option bool
}.

Definition no_options : AppendOptions :=
  {| toFragment := None; preserveExisting := None |}.

Module Appender.

Definition buildQueryString_pair (p : string * string) : string :=
  let '(key, value) := p in
  if String.eqb value "" then Encoding.encodeURIComponent key
  else Encoding.encodeURIComponent key +:+ "=" +:+ Encoding.encodeURIComponent value.

Definition buildQueryString (params : URLSearchParams.t) : string :=
  Encoding.join "&" (map buildQueryString_pair (URLSearchParams.entries params)).

Definition isAnyUtmKey (key : string) : bool :=
  isSnakeCaseUtmKey key || isCamelCaseUtmKey key.

Definition hasValidUtmEntries (params : UtmParameters) : bool :=
  existsb (fun '(key, value) =>
             match value with
             | Some v => isAnyUtmKey key && negb (String.eqb v "")
             | None => false
             end) params.

(** The body of the loop that writes the parameters into the query. *)
Definition query_step (preserveExisting : bool) (urlObj : URL.t)
    (entry : string * option string) : URL.t :=
  let '(key, value) := entry in
  match value with
  | None => urlObj
  | Some v =>
      if preserveExisting && URLSearchParams.has (URL.searchParams urlObj) key
      then urlObj
      else URL.searchParams_set (URL.searchParams_delete urlObj key) key v
  end.

Definition appendToQuery (urlObj : URL.t) (params : UtmParameters)
    (preserveExisting : bool) : string :=
  (* conflicting parameters in the fragment *)
  let urlObj :=
    if Encoding.nonempty (URL.get_hash urlObj) then
      let originalFragment := Js.slice 1 (URL.get_hash urlObj) in
      if Js.includes "=" originalFragment then
        let fragmentParams := URLSearchParams.new originalFragment in
        let fragmentParams :=
          fold_left URLSearchParams.delete (keys params) fragmentParams in
        URL.set_hash urlObj (URLSearchParams.toString fragmentParams)
      else urlObj
    else urlObj in
  (* query parameters *)
  let urlObj := fold_left (query_step preserveExisting) params urlObj in
  let queryString := buildQueryString (URL.searchParams urlObj) in
  let baseUrl :=
    URL.get_protocol urlObj +:+ "//" +:+ URL.get_host urlObj
    +:+ URL.get_pathname urlObj in
  let hash := URL.get_hash urlObj in
  baseUrl
  +:+ (if Encoding.nonempty queryString then "?" +:+ queryString else "")
  +:+ (if Encoding.nonempty hash
       then (if Js.startsWith hash "#" then hash else "#" +:+ hash)
       else "").

(** The body of the loop that writes the parameters into the fragment. *)
Definition fragment_step (preserveExisting : bool) (fragmentParams : URLSearchParams.t)
    (entry : string * option string) : URLSearchParams.t :=
  let '(key, value) := entry in
  match value with
  | None => fragmentParams
  | Some v =>
      if preserveExisting && URLSearchParams.has fragmentParams key
      then fragmentParams
      else URLSearchParams.set (URLSearchParams.delete fragmentParams key) key v
  end.

Definition appendToFragment (urlObj : URL.t) (params : UtmParameters)
    (preserveExisting : bool) : string :=
  (* conflicting parameters in the query string *)
  let urlObj := fold_left URL.searchParams_delete (keys params) urlObj in
  let fragmentParams := URLSearchParams.new (Js.slice 1 (URL.get_hash urlObj)) in
  let fragmentParams :=
    fold_left (fragment_step preserveExisting) params fragmentParams in
  let urlObj := URL.set_hash urlObj (buildQueryString fragmentParams) in
  URL.toString urlObj.

Section WithURL.

(** The global [URL]: [None] when [typeof URL === 'undefined'], else the
    parser behind the constructor. *)
Variable URL_global : option (string -> option URL.record).

Definition appendUtmParameters (url : string) (utmParams : UtmParameters)
    (options : AppendOptions) : string :=
  let toFragment := default false (toFragment options) in
  let preserveExisting := default false (preserveExisting options) in
  if negb (hasValidUtmEntries utmParams) then url
  else
    match URL_global with
    | None => url
    | Some parser =>
        try_catch
          (let snakeParams := toSnakeCaseParams utmParams in
           let! urlObj := URL.new parser url in
           Normal (if toFragment
                   then appendToFragment urlObj snakeParams preserveExisting
                   else appendToQuery urlObj snakeParams preserveExisting))
          (fun _ => url)
    end.

End WithURL.

End Appender.

(** ** core/capture.ts *)

Record CaptureOptions : Type := {
  capture_keyFormat : option KeyFormat;
  allowedParameters : option (list string)
}.

Module Capture.

(** [new Set(allowed).has(key)] *)
Definition set_has (allowed : list string) (key : string) : bool :=
  existsb (String.eqb key) allowed.

(** The body of the loop over [urlObj.searchParams.entries()]. *)
Definition capture_step (allowedSet : option (list string))
    (params : UtmParameters) (entry : string * string) : UtmParameters :=
  let '(key, value) := entry in
  if isSnakeCaseUtmKey key then
    if match allowedSet with
       | None => true
       | Some allowed => set_has allowed key
       end
    then assign params key (Some value)
    else params
  else params.

Definition capture_loop (allowedSet : option (list string))
    (entries : list (string * string)) : UtmParameters :=
  fold_left (capture_step allowedSet) entries [].

Section WithBrowser.

Variable URL_global : option (string -> option URL.record).

(** [window.location.href], [None] outside a browser. *)
Variable window_location_href : option string.

Definition captureUtmParameters (url : option string) (options : CaptureOptions)
  : UtmParameters :=
  let keyFormat := default snake_case (capture_keyFormat options) in
  let urlString :=
    match url with
    | Some u => u
    | None => default "" window_location_href
    end in
  if negb (Encoding.nonempty urlString) then []
  else
    try_catch
      (let! urlObj :=
         match URL_global with
         | Some parser => URL.new parser urlString
         | None => Throw "ReferenceError"
         end in
       let allowedSet :=
         match allowedParameters options with
         | Some ((_ :: _) as allowed) => Some allowed
         | _ => None
         end in
       let params :=
         capture_loop allowedSet (URLSearchParams.entries (URL.searchParams urlObj)) in
       Normal (match keyFormat with
               | camelCase => convertParams params camelCase
               | snake_case => params
               end))
      (fun _ => []).

End WithBrowser.

End Capture.

(** ** core/storage.ts *)

(** A value produced by [JSON.parse]; a number keeps its literal. *)
#[local] Set Warnings "-register-all".
Inductive json : Type :=
| JNull
| JBool (b : bool)
| JNumber (literal : string)
| JString (s : string)
| JArray (items : list json)
| JObject (members : list (string * json)).

Record StorageOptions : Type := {
  storageKey : option string;
  keyFormat : option KeyFormat
}.

Module Storage.

Definition DEFAULT_STORAGE_KEY : string := "utm_parameters".

(** [JSON.stringify] of a parameter object: members whose value is
    [undefined] are left out, strings are quoted. *)
Definition lower_hex_digit (n : nat) : ascii :=
  if n <? 10 then ascii_of_nat (48 + n) else ascii_of_nat (87 + n).

Fixpoint quote_chars (s : string) : string :=
  match s with
  | EmptyString => EmptyString
  | String c r =>
      let n := Js.code c in
      if n =? 34 then String "\" (String c (quote_chars r))
      else if n =? 92 then "\\" +:+ quote_chars r
      else if n =? 8 then "\b" +:+ quote_chars r
      else if n =? 9 then "\t" +:+ quote_chars r
      else if n =? 10 then "\n" +:+ quote_chars r
      else if n =? 12 then "\f" +:+ quote_chars r
      else if n =? 13 then "\r" +:+ quote_chars r
      else if n <? 32 then
        "\u00" +:+ String (lower_hex_digit (n / 16))
                     (String (lower_hex_digit (n mod 16)) (quote_chars r))
      else String c (quote_chars r)
  end.

Definition quote (s : string) : string :=
  String (ascii_of_nat 34) (quote_chars s) +:+ String (ascii_of_nat 34) EmptyString.

Fixpoint stringify_members (o : UtmParameters) : list string :=
  match o with
  | [] => []
  | (k, Some v) :: r => (quote k +:+ ":" +:+ quote v) :: stringify_members r
  | (_, None) :: r => stringify_members r
  end.

Definition JSON_stringify (o : UtmParameters) : string :=
  "{" +:+ Encoding.join "," (stringify_members o) +:+ "}".

(** [typeof value !== 'string'] on a parsed member *)
Definition is_string (v : json) : bool :=
  match v with JString _ => true | _ => false end.

Definition isValidStoredData (data : json) (keyFormat : option KeyFormat) : bool :=
  match data with
  | JObject entries =>
      match entries with
      | [] => true
      | _ => forallb (fun '(key, value) => is_string value && key_ok keyFormat key) entries
      end
  | _ => false
  end.

(** The parameter object that validated data is; validation has excluded
    every member that is not a string. *)
Definition as_params (data : json) : UtmParameters :=
  match data with
  | JObject entries =>
      map (fun '(key, value) =>
             (key, match value with JString s => Some s | _ => None end)) entries
  | _ => []
  end.

(** [sessionStorage]: [None] when it is undefined or access to it throws. *)
Definition sessionStorage : Type := option (gmap string string).

Section WithBrowser.

(** [setItem(key, value)] throws on these contents (quota, policy). *)
Variable setItem_throws : gmap string string -> string -> string -> bool.

Variable JSON_parse : string -> option json.

Definition setItem (items : gmap string string) (key value : string)
  : completion (gmap string string) :=
  if setItem_throws items key value then Throw "QuotaExceededError"
  else Normal (<[key := value]> items).

Definition testKey : string := "__utm_test__".

Definition isStorageAvailable (st : sessionStorage) : bool * sessionStorage :=
  match st with
  | None => (false, None)
  | Some items =>
      match setItem items testKey "test" with
      | Normal items' => (true, Some (base.delete testKey items'))
      | Throw _ => (false, Some items)
      end
  end.

Definition storeUtmParameters (params : UtmParameters) (options : StorageOptions)
    (st : sessionStorage) : sessionStorage :=
  let storageKey := default DEFAULT_STORAGE_KEY (storageKey options) in
  let keyFormat := default snake_case (keyFormat options) in
  match isStorageAvailable st with
  | (true, Some items) =>
      try_catch
        (if length (keys params) =? 0 then Normal (Some items)
         else
           let paramsToStore := convertParams params keyFormat in
           let serialized := JSON_stringify paramsToStore in
           let! items' := setItem items storageKey serialized in
           Normal (Some items'))
        (fun _ => Some items)
  | (_, st') => st'
  end.

Definition getStoredUtmParameters (options : StorageOptions) (st : sessionStorage)
  : completion (option UtmParameters) * sessionStorage :=
  let storageKey := default DEFAULT_STORAGE_KEY (storageKey options) in
  let keyFormat := keyFormat options in
  match isStorageAvailable st with
  | (true, Some items) =>
      (Normal
         (try_catch
            (match items !! storageKey with
             | None => Normal None
             | Some stored =>
                 let! parsed :=
                   match JSON_parse stored with
                   | Some v => Normal v
                   | None => Throw "SyntaxError"
                   end in
                 if negb (isValidStoredData parsed None) then Normal None
                 else
                   match keyFormat with
                   | Some f => Normal (Some (convertParams (as_params parsed) f))
                   | None => Normal (Some (as_params parsed))
                   end
             end)
            (fun _ => None)),
       Some items)
  | (_, st') => (Normal None, st')
  end.

End WithBrowser.

End Storage.

(** ** core/capture.ts: the helpers around the capture *)

(** [hasUtmParameters]; [None] is a [null] or [undefined] argument. *)
Definition hasUtmParameters (params : option UtmParameters) : bool :=
  match params with
  | None => false
  | Some p =>
      existsb (fun '(_, value) =>
                 match value with
                 | Some v => negb (String.eqb v "")
                 | None => false
                 end) p
  end.

Section CaptureHelpers.

Variable URL_global : option (string -> option URL.record).
Variable window_location_href : option string.

Definition captureFromCurrentUrl (options : CaptureOptions) : UtmParameters :=
  Capture.captureUtmParameters URL_global window_location_href None options.

End CaptureHelpers.

(** ** core/storage.ts: clearing and inspecting the slot *)

Section StorageHelpers.

Variable setItem_throws : gmap string string -> string -> string -> bool.
Variable JSON_parse : string -> option json.

(** [removeItem] does not throw, as in the probe of [isStorageAvailable]. *)
Definition clearStoredUtmParameters (storageKey : option string)
    (st : Storage.sessionStorage) : Storage.sessionStorage :=
  let storageKey := default Storage.DEFAULT_STORAGE_KEY storageKey in
  match Storage.isStorageAvailable setItem_throws st with
  | (true, Some items) => Some (base.delete storageKey items)
  | (_, st') => st'
  end.

Definition hasStoredUtmParameters (storageKey : option string)
    (st : Storage.sessionStorage) : bool * Storage.sessionStorage :=
  let storageKey := default Storage.DEFAULT_STORAGE_KEY storageKey in
  let '(params, st') :=
    Storage.getStoredUtmParameters setItem_throws JSON_parse
      {| storageKey := Some storageKey; keyFormat := None |} st in
  (match params with
   | Normal (Some p) => 0 <? length (keys p)
   | _ => false
   end, st').

Definition isSessionStorageAvailable (st : Storage.sessionStorage)
  : bool * Storage.sessionStorage :=
  Storage.isStorageAvailable setItem_throws st.

Definition getRawStoredValue (storageKey : option string)
    (st : Storage.sessionStorage) : option string * Storage.sessionStorage :=
  let storageKey := default Storage.DEFAULT_STORAGE_KEY storageKey in
  match Storage.isStorageAvailable setItem_throws st with
  | (true, Some items) => (items !! storageKey, Some items)
  | (_, st') => (None, st')
  end.

End StorageHelpers.

(** ** core/appender.ts: removing and extracting *)

(** The test of the two loops of [removeUtmParameters] that collect the
    keys to delete; an array, even an empty one, is truthy. *)
Definition to_delete (keysToRemove : option (list string)) (key : string) : bool :=
  match keysToRemove with
  | Some ks => existsb (String.eqb key) ks
  | None => isSnakeCaseUtmKey key
  end.

(** The body of the two loops of [extractUtmParameters]. *)
Definition extract_step (params : UtmParameters) (entry : string * string)
  : UtmParameters :=
  let '(key, value) := entry in
  if isSnakeCaseUtmKey key then assign params key (Some value) else params.

Section AppenderHelpers.

Variable URL_global : option (string -> option URL.record).

Definition removeUtmParameters (url : string) (keysToRemove : option (list string))
  : string :=
  match URL_global with
  | None => url
  | Some parser =>
      try_catch
        (let! urlObj := URL.new parser url in
         (* the query string *)
         let queryKeysToDelete :=
           List.filter (to_delete keysToRemove)
             (URLSearchParams.names (URL.searchParams urlObj)) in
         let urlObj := fold_left URL.searchParams_delete queryKeysToDelete urlObj in
         (* the fragment, if it contains parameters *)
         let urlObj :=
           if Encoding.nonempty (URL.get_hash urlObj)
              && Js.includes "=" (URL.get_hash urlObj)
           then
             let fragmentParams := URLSearchParams.new (Js.slice 1 (URL.get_hash urlObj)) in
             let fragmentKeysToDelete :=
               List.filter (to_delete keysToRemove) (URLSearchParams.names fragmentParams) in
             let fragmentParams :=
               fold_left URLSearchParams.delete fragmentKeysToDelete fragmentParams in
             URL.set_hash urlObj (URLSearchParams.toString fragmentParams)
           else urlObj in
         Normal (URL.toString urlObj))
        (fun _ => url)
  end.

Definition extractUtmParameters (url : string) : UtmParameters :=
  match URL_global with
  | None => []
  | Some parser =>
      try_catch
        (let! urlObj := URL.new parser url in
         let params :=
           fold_left extract_step (URLSearchParams.entries (URL.searchParams urlObj)) [] in
         let params :=
           if Encoding.nonempty (URL.get_hash urlObj)
              && Js.includes "=" (URL.get_hash urlObj)
           then
             let fragmentParams := URLSearchParams.new (Js.slice 1 (URL.get_hash urlObj)) in
             fold_left extract_step (URLSearchParams.entries fragmentParams) params
           else params in
         Normal params)
        (fun _ => [])
  end.

End AppenderHelpers.

(** ** core/validator.ts *)

Module Validator.

(** [/\s/] on ASCII text: tab, line feed, vertical tab, form feed,
    carriage return and space. *)
Definition is_space (c : ascii) : bool :=
  Js.in_range 9 13 c || (Js.code c =? 32).

Fixpoint trimStart (s : string) : string :=
  match s with
  | EmptyString => EmptyString
  | String c r => if is_space c then trimStart r else s
  end.

Fixpoint trimEnd (s : string) : string :=
  match s with
  | EmptyString => EmptyString
  | String c r =>
      match trimEnd r with
      | EmptyString => if is_space c then EmptyString else String c EmptyString
      | r' => String c r'
      end
  end.

(** [s.trim()] on ASCII text *)
Definition trim (s : string) : string := trimEnd (trimStart s).

(** [s.includes(needle)] *)
Fixpoint includes (needle s : string) : bool :=
  String.prefix needle s
  || match s with
     | EmptyString => false
     | String _ r => includes needle r
     end.

(** [s.endsWith(suffix)] *)
Definition endsWith (s suffix : string) : bool :=
  (String.length suffix <=? String.length s)
  && String.eqb (Js.slice (String.length s - String.length suffix) s) suffix.

Inductive ValidationError : Type :=
| invalid_protocol
| invalid_domain
| malformed_url
| empty_url.

Record ValidationResult : Type := {
  valid : bool;
  error : option ValidationError;
  message : option string
}.

Definition ERROR_MESSAGES (e : ValidationError) : string :=
  match e with
  | invalid_protocol => "Only HTTP and HTTPS URLs are supported"
  | invalid_domain => "URL must have a valid domain with a TLD (e.g., example.com)"
  | malformed_url => "URL is malformed or invalid"
  | empty_url => "URL cannot be empty"
  end.

Definition ALLOWED_PROTOCOLS : list string := ["http:"; "https:"].

(** The initial value of the module variable [defaultProtocol]. *)
Definition initial_defaultProtocol : string := "https://".

Definition validateProtocol (protocol : string) : ValidationResult :=
  if negb (existsb (String.eqb protocol) ALLOWED_PROTOCOLS) then
    {| valid := false; error := Some invalid_protocol;
       message := Some (ERROR_MESSAGES invalid_protocol) |}
  else {| valid := true; error := None; message := None |}.

Definition validateDomain (hostname : string) : ValidationResult :=
  if negb (Encoding.nonempty hostname) || String.eqb hostname "." then
    {| valid := false; error := Some invalid_domain;
       message := Some (ERROR_MESSAGES invalid_domain) |}
  else if negb (Js.includes "." hostname) then
    {| valid := false; error := Some invalid_domain;
       message := Some (ERROR_MESSAGES invalid_domain) |}
  else if String.eqb (URL.remove_chars (fun c => Ascii.eqb c ".") hostname) "" then
    {| valid := false; error := Some invalid_domain;
       message := Some (ERROR_MESSAGES invalid_domain) |}
  else {| valid := true; error := None; message := None |}.

Definition hasProtocol (url : string) : bool := includes "://" url.

(** [normalizeUrl], reading the module variable [defaultProtocol]. *)
Definition normalizeUrl (defaultProtocol : string) (url : string) : string :=
  let trimmedUrl := trim url in
  if hasProtocol trimmedUrl then trimmedUrl
  else defaultProtocol +:+ trimmedUrl.

Definition needsNormalization (url : string) : bool :=
  negb (hasProtocol (trim url)).

(** [setDefaultProtocol]: the new value of the module variable, or the
    thrown error. *)
Definition setDefaultProtocol (protocol : string) : completion string :=
  if negb (endsWith protocol "://")
  then Throw "Error"
  else Normal protocol.

Definition isProtocolAllowed (protocol : string) : bool :=
  existsb (String.eqb protocol) ALLOWED_PROTOCOLS.

Definition getErrorMessage (error : ValidationError) : string :=
  if Encoding.nonempty (ERROR_MESSAGES error) then ERROR_MESSAGES error
  else "Unknown validation error".

Section WithURL.

Variable URL_global : option (string -> option URL.record).

(** The getter [hostname] of a parsed URL: the host without the port. *)
Variable hostname : URL.record -> string.

Definition validateUrl (url : string) : ValidationResult :=
  if negb (Encoding.nonempty (trim url)) then
    {| valid := false; error := Some empty_url;
       message := Some (ERROR_MESSAGES empty_url) |}
  else
    try_catch
      (let! urlObj :=
         match URL_global with
         | Some parser => URL.new parser url
         | None => Throw "ReferenceError"
         end in
       let protocolResult := validateProtocol (URL.get_protocol urlObj) in
       if negb (valid protocolResult) then Normal protocolResult
       else
         let domainResult := validateDomain (hostname (URL.url urlObj)) in
         if negb (valid domainResult) then Normal domainResult
         else Normal {| valid := true; error := None; message := None |})
      (fun _ =>
         {| valid := false; error := Some malformed_url;
            message := Some (ERROR_MESSAGES malformed_url) |}).

(** [validateAndNormalize]: the result of the validation, and the member
    [normalizedUrl] added to it. *)
Definition validateAndNormalize (defaultProtocol : string) (url : string)
  : ValidationResult * string :=
  let normalizedUrl := normalizeUrl defaultProtocol url in
  let result := validateUrl normalizedUrl in
  (result, normalizedUrl).

End WithURL.

End Validator.

(** ** config/defaults.ts and config/loader.ts *)

(** Object spread.  The properties of the source are assigned to the
    object under construction in their order. *)
Definition assign_entry {V} (o : list (string * V)) (e : string * V)
  : list (string * V) :=
  assign o (fst e) (snd e).

Definition assign_all {V} (target source : list (string * V)) : list (string * V) :=
  fold_left assign_entry source target.

(** [{ ...a }] *)
Definition copy {V} (a : list (string * V)) : list (string * V) :=
  assign_all [] a.

(** [{ ...a, ...b }] *)
Definition spread {V} (a b : list (string * V)) : list (string * V) :=
  assign_all (copy a) b.

(** [o[k]] for an object whose values may be [undefined]. *)
Fixpoint property {V} (o : list (string * option V)) (k : string) : option V :=
  match o with
  | [] => None
  | (k', v) :: r => if String.eqb k' k then v else property r k
  end.

Module Config.

(** [ShareContextParams]: a parameter object per platform. *)
Definition ShareContextParams : Type := list (string * option UtmParameters).

Module Partial.

(** [Partial<UtmConfig>]: every member may be absent. *)
Record UtmConfig : Type := {
  enabled : option bool;
  keyFormat : option KeyFormat;
  storageKey : option string;
  captureOnMount : option bool;
  appendToShares : option bool;
  allowedParameters : option (list string);
  defaultParams : option UtmParameters;
  shareContextParams : option ShareContextParams;
  excludeFromShares : option (list string)
}.

End Partial.

Record ResolvedUtmConfig : Type := {
  enabled : bool;
  keyFormat : KeyFormat;
  storageKey : string;
  captureOnMount : bool;
  appendToShares : bool;
  allowedParameters : list string;
  defaultParams : UtmParameters;
  shareContextParams : ShareContextParams;
  excludeFromShares : list string
}.

Definition STANDARD_UTM_PARAMETERS : list string :=
  ["utm_source"; "utm_medium"; "utm_campaign"; "utm_term"; "utm_content"; "utm_id"].

Definition DEFAULT_CONFIG : ResolvedUtmConfig :=
  {| enabled := true;
     keyFormat := snake_case;
     storageKey := "utm_parameters";
     captureOnMount := true;
     appendToShares := true;
     allowedParameters := STANDARD_UTM_PARAMETERS;
     defaultParams := [];
     shareContextParams := [];
     excludeFromShares := [] |}.

Definition getDefaultConfig : ResolvedUtmConfig :=
  {| enabled := enabled DEFAULT_CONFIG;
     keyFormat := keyFormat DEFAULT_CONFIG;
     storageKey := storageKey DEFAULT_CONFIG;
     captureOnMount := captureOnMount DEFAULT_CONFIG;
     appendToShares := appendToShares DEFAULT_CONFIG;
     allowedParameters := allowedParameters DEFAULT_CONFIG;
     defaultParams := copy (defaultParams DEFAULT_CONFIG);
     shareContextParams := copy (shareContextParams DEFAULT_CONFIG);
     excludeFromShares := excludeFromShares DEFAULT_CONFIG |}.

(** The body of the loop of [mergeShareContextParams]. *)
Definition mergeShareContextParams_step (base : ShareContextParams)
    (result : ShareContextParams) (entry : string * option UtmParameters)
  : ShareContextParams :=
  let '(key, value) := entry in
  match value with
  | Some v => assign result key (Some (spread (default [] (property base key)) v))
  | None => result
  end.

Definition mergeShareContextParams (base : ShareContextParams)
    (override : option ShareContextParams) : ShareContextParams :=
  match override with
  | None => copy base
  | Some o => fold_left (mergeShareContextParams_step base) o (copy base)
  end.

Definition mergeUtmParams (base : UtmParameters) (override : option UtmParameters)
  : UtmParameters :=
  match override with
  | None => copy base
  | Some o => spread base o
  end.

Definition createConfig (userConfig : option Partial.UtmConfig) : ResolvedUtmConfig :=
  let defaults := getDefaultConfig in
  match userConfig with
  | None => defaults
  | Some userConfig =>
      {| enabled := default (enabled defaults) (Partial.enabled userConfig);
         keyFormat := default (keyFormat defaults) (Partial.keyFormat userConfig);
         storageKey := default (storageKey defaults) (Partial.storageKey userConfig);
         captureOnMount :=
           default (captureOnMount defaults) (Partial.captureOnMount userConfig);
         appendToShares :=
           default (appendToShares defaults) (Partial.appendToShares userConfig);
         allowedParameters :=
           match Partial.allowedParameters userConfig with
           | Some l => l
           | None => allowedParameters defaults
           end;
         defaultParams :=
           mergeUtmParams (defaultParams defaults) (Partial.defaultParams userConfig);
         shareContextParams :=
           mergeShareContextParams (shareContextParams defaults)
             (Partial.shareContextParams userConfig);
         excludeFromShares :=
           match Partial.excludeFromShares userConfig with
           | Some l => l
           | None => excludeFromShares defaults
           end |}
  end.

Definition mergeConfig (base : ResolvedUtmConfig) (override : Partial.UtmConfig)
  : ResolvedUtmConfig :=
  {| enabled := default (enabled base) (Partial.enabled override);
     keyFormat := default (keyFormat base) (Partial.keyFormat override);
     storageKey := default (storageKey base) (Partial.storageKey override);
     captureOnMount := default (captureOnMount base) (Partial.captureOnMount override);
     appendToShares := default (appendToShares base) (Partial.appendToShares override);
     allowedParameters :=
       match Partial.allowedParameters override with
       | Some l => l
       | None => allowedParameters base
       end;
     defaultParams := mergeUtmParams (defaultParams base) (Partial.defaultParams override);
     shareContextParams :=
       mergeShareContextParams (shareContextParams base)
         (Partial.shareContextParams override);
     excludeFromShares :=
       match Partial.excludeFromShares override with
       | Some l => l
       | None => excludeFromShares base
       end |}.

End Config.

(** ** react/useUtmTracking.ts: the callback [appendToUrl] *)

Module Hook.

(** The key that the exclusion filter compares with the excluded keys. *)
Definition snakeKey (key : string) : string :=
  if isSnakeCaseUtmKey key then key
  else "utm_" +:+ Js.toLowerCase (underscore_uppers (Js.slice 3 key)).

(** [mergedParams] before the exclusion filter: captured parameters, then
    the default share parameters, then those of the platform. *)
Definition mergedParams (config : Config.ResolvedUtmConfig)
    (utmParameters : option UtmParameters) (platform : option string) : UtmParameters :=
  let mergedParams : UtmParameters :=
    match utmParameters with
    | Some p => if hasUtmParameters (Some p) then copy p else []
    | None => []
    end in
  let mergedParams :=
    match property (Config.shareContextParams config) "default" with
    | Some d => spread mergedParams d
    | None => mergedParams
    end in
  match platform with
  | Some name =>
      if Encoding.nonempty name then
        match property (Config.shareContextParams config) name with
        | Some platformParams => spread mergedParams platformParams
        | None => mergedParams
        end
      else mergedParams
  | None => mergedParams
  end.

(** [mergedParams] after the exclusion filter. *)
Definition sharedParams (config : Config.ResolvedUtmConfig)
    (utmParameters : option UtmParameters) (platform : option string) : UtmParameters :=
  let merged := mergedParams config utmParameters platform in
  match Config.excludeFromShares config with
  | [] => merged
  | excluded =>
      List.filter
        (fun '(key, _) =>
           negb (Capture.set_has excluded (snakeKey key))
           && negb (Capture.set_has excluded key))
        merged
  end.

Section WithURL.

Variable URL_global : option (string -> option URL.record).

(** [appendToUrl], given the state [utmParameters] of the hook. *)
Definition appendToUrl (config : Config.ResolvedUtmConfig)
    (utmParameters : option UtmParameters) (url : string) (platform : option string)
  : string :=
  if negb (Config.enabled config) || negb (Config.appendToShares config) then url
  else
    let mergedParams := sharedParams config utmParameters platform in
    if negb (hasUtmParameters (Some mergedParams)) then url
    else Appender.appendUtmParameters URL_global url mergedParams no_options.

End WithURL.

End Hook.

(** * Vocabulary of the properties *)

(** ** Key conversion *)

(** The conversion without the lookup in the table of standard keys. *)
Definition snake_of (key : string) : string :=
  "utm" +:+ Js.toLowerCase (underscore_uppers (Js.slice 3 key)).

Definition camel_of (key : string) : string :=
  let camelRest := capitalize_after_underscore (Js.slice 4 key) in
  "utm" +:+ Js.toUpperCase (Js.charAt0 camelRest) +:+ Js.slice 1 camelRest.

(** Supported shapes of the suffix of an ASCII key. *)
Definition not_upper (c : ascii) : bool := negb (Js.is_upper c).

Definition ascii_not_upper (c : ascii) : bool := Js.is_ascii c && not_upper c.

Definition snake_shape (key : string) : bool :=
  match Js.slice 4 key with
  | EmptyString => true
  | String c r => Js.is_lower c && Js.all_chars ascii_not_upper r
  end.

Fixpoint no_underscore_lower (s : string) : bool :=
  match s with
  | EmptyString => true
  | String c r =>
      match r with
      | String d _ => negb (Ascii.eqb c "_" && Js.is_lower d) && no_underscore_lower r
      | EmptyString => true
      end
  end.

Definition camel_shape (key : string) : bool :=
  Js.all_chars Js.is_ascii (Js.slice 3 key) && no_underscore_lower (Js.slice 3 key).

(** ** Session storage *)

(** The slots left by the probe of [isStorageAvailable]. *)
Definition after_probe (items : gmap string string) : gmap string string :=
  base.delete Storage.testKey (<[Storage.testKey := "test"]> items).

(** Corrupt stored data: the stored string does not parse, or it parses
    to something that is not a plain object, or to an object with a key
    outside the UTM namespace or a value that is not a string. *)
Definition corrupt (parsed : option json) : Prop :=
  match parsed with
  | None => True
  | Some (JObject entries) =>
      exists k x, In (k, x) entries /\ (isUtmKey k = false \/ Storage.is_string x = false)
  | Some _ => True
  end.

(** ** Converting parameter objects *)

Definition rename (f : string -> string) (o : UtmParameters) : UtmParameters :=
  map (fun '(k, v) => (f k, v)) o.

Definition all_defined (o : UtmParameters) : Prop :=
  forall k v, In (k, v) o -> v <> None.

(** ** Keys under conversion *)

(** The keys on which the two conversions are inverse to each other. *)
Definition round_trip_key (key : string) : bool :=
  (isSnakeCaseUtmKey key && snake_shape key)
  || (isCamelCaseUtmKey key && camel_shape key).

(** ** Storing and reading back *)

(** The value [JSON.parse] gives for the string [JSON.stringify] wrote. *)
Fixpoint json_members (o : UtmParameters) : list (string * json) :=
  match o with
  | [] => []
  | (k, Some v) :: r => (k, JString v) :: json_members r
  | (_, None) :: r => json_members r
  end.

Definition json_of (o : UtmParameters) : json := JObject (json_members o).

(** [JSON.parse] on the one string it is asked about. *)
Definition parse_only (text : string) (value : json) (s : string) : option json :=
  if String.eqb s text then Some value else None.

(** ** Capture *)

(** The URL parser on the inputs listed in a table, for closed examples. *)
Definition parser_of (table : list (string * URL.record)) (input : string)
  : option URL.record :=
  match find (fun e => String.eqb (fst e) input) table with
  | Some e => Some (snd e)
  | None => None
  end.

Definition http_url (host path : string) (query fragment : option string)
  : URL.record :=
  {| URL.scheme := "https"; URL.username := ""; URL.password := "";
     URL.host := Some host; URL.pathname := path;
     URL.query := query; URL.fragment := fragment |}.

(** The allowlist test of the capture loop: no list, or an empty list,
    lets every key through. *)
Definition allowed_ok (allowed : option (list string)) (key : string) : Prop :=
  match allowed with
  | Some (a :: l) => In key (a :: l)
  | _ => True
  end.

Definition output_key (f : KeyFormat) (key : string) : string :=
  match f with
  | snake_case => key
  | camelCase => toCamelCase key
  end.

(** ** Encoders and decoders *)

(** The characters the two encoders produce. *)
Definition token_char (c : ascii) : bool :=
  Encoding.is_alnum c || Encoding.one_of "-_.!~*'()%+" c.

(** The characters of a rendered list of pairs. *)
Definition query_char (c : ascii) : bool :=
  token_char c || Ascii.eqb c "=" || Ascii.eqb c "&".

(** ** URL objects under the operations of the appender *)

(** Everything of a record but its query. *)
Definition outside_query (r : URL.record)
  : string * string * string * option string * string * option string :=
  (URL.scheme r, URL.username r, URL.password r, URL.host r, URL.pathname r,
   URL.fragment r).

(** The query after an update of the [searchParams] list. *)
Definition query_of_list (l : URLSearchParams.t) : option string :=
  if Encoding.nonempty (URLSearchParams.toString l)
  then Some (URLSearchParams.toString l) else None.

(** [urlObj.hash] for a given fragment. *)
Definition hash_string (fragment : option string) : string :=
  match fragment with
  | None | Some EmptyString => ""
  | Some f => "#" +:+ f
  end.

(** The fragment after the first step of [appendToQuery]. *)
Definition fragment_after_query (fragment : option string) (ks : list string)
  : option string :=
  match fragment with
  | None => None
  | Some f =>
      if Encoding.nonempty f && Js.includes "=" f
      then query_of_list (fold_left URLSearchParams.delete ks (URLSearchParams.new f))
      else Some f
  end.

(** ** Reading the components of a URL string *)

(** The text after the first [#]. *)
Definition fragment_of (s : string) : string := snd (Encoding.cut "#" s).

(** The text between the first [?] and the first [#]. *)
Definition query_of (s : string) : string :=
  snd (Encoding.cut "?" (fst (Encoding.cut "#" s))).

(** ** The appender on a parsed URL *)

(** The pairs a parameter object holds (entries with a value). *)
Fixpoint values_of (sp : UtmParameters) : list (string * string) :=
  match sp with
  | [] => []
  | (k, Some v) :: r => (k, v) :: values_of r
  | (_, None) :: r => values_of r
  end.

(** The URL object made from a record. *)
Definition object_of (r : URL.record) : URL.t :=
  {| URL.url := r;
     URL.searchParams := Encoding.parse_urlencoded (default "" (URL.query r)) |}.

(** ** Where a key stands in a URL string *)

(** [k] is a key of the query of [s]. *)
Definition in_query (k s : string) : Prop :=
  In k (URLSearchParams.names (Encoding.parse_urlencoded (query_of s))).

(** [k] is a key of the fragment of [s], for a fragment that holds
    key=value pairs (the code tells by the presence of [=]). *)
Definition in_fragment (k s : string) : Prop :=
  Js.includes "=" (fragment_of s) = true
  /\ In k (URLSearchParams.names (URLSearchParams.new (fragment_of s))).

(** ** Userinfo *)

Fixpoint take_until (stop : ascii -> bool) (s : string) : string :=
  match s with
  | EmptyString => EmptyString
  | String c r => if stop c then EmptyString else String c (take_until stop r)
  end.

(** The authority of a URL string: what stands between the two slashes
    after the scheme and the next slash, question mark or hash. *)
Definition authority_of (s : string) : string :=
  match snd (Encoding.cut ":" s) with
  | String "/" (String "/" rest) => take_until (Encoding.one_of "/?#") rest
  | _ => EmptyString
  end.

Definition without_credentials (r : URL.record) : URL.record :=
  {| URL.scheme := URL.scheme r; URL.username := ""; URL.password := "";
     URL.host := URL.host r; URL.pathname := URL.pathname r;
     URL.query := URL.query r; URL.fragment := URL.fragment r |}.

(** What the URL parser guarantees of a host and of the userinfo: none of
    the characters that end the authority, and no [@] in the host. *)
Definition host_char (c : ascii) : bool := negb (Encoding.one_of "/?#@" c).
Definition userinfo_char (c : ascii) : bool := negb (Encoding.one_of "/?#" c).

(** ** Injecting twice *)

(** The record whose serialization injection returns. *)
Definition written (toFragment : bool) (r : URL.record) (sp : UtmParameters)
  : URL.record :=
  if toFragment then
    {| URL.scheme := URL.scheme r; URL.username := URL.username r;
       URL.password := URL.password r; URL.host := URL.host r;
       URL.pathname := URL.pathname r;
       URL.query :=
         query_of_list
           (fold_left URLSearchParams.delete (keys sp)
              (Encoding.parse_urlencoded (default "" (URL.query r))));
       URL.fragment :=
         (let qs := Appender.buildQueryString
                      (fold_left (Appender.fragment_step false) sp
                         (URLSearchParams.new (default "" (URL.fragment r)))) in
          if Encoding.nonempty qs then Some qs else None) |}
  else
    {| URL.scheme := URL.scheme r; URL.username := ""; URL.password := "";
       URL.host := URL.host r; URL.pathname := URL.pathname r;
       URL.query :=
         (let qs := Appender.buildQueryString
                      (fold_left (Appender.fragment_step false) sp
                         (Encoding.parse_urlencoded (default "" (URL.query r)))) in
          if Encoding.nonempty qs then Some qs else None);
       URL.fragment := fragment_after_query (URL.fragment r) (keys sp) |}.

(** Two records with the same components, an absent query or fragment
    counting as an empty one. *)
Definition same_components (a b : URL.record) : Prop :=
  URL.scheme a = URL.scheme b /\ URL.username a = URL.username b
  /\ URL.password a = URL.password b /\ URL.host a = URL.host b
  /\ URL.pathname a = URL.pathname b
  /\ default "" (URL.query a) = default "" (URL.query b)
  /\ default "" (URL.fragment a) = default "" (URL.fragment b).

(** The pairs of the location that injection writes to. *)
Definition target_pairs (toFragment : bool) (r : URL.record) : URLSearchParams.t :=
  if toFragment then URLSearchParams.new (default "" (URL.fragment r))
  else Encoding.parse_urlencoded (default "" (URL.query r)).

(** ** The content of a slot *)

(** What [sessionStorage.getItem(key)] would give in a state, [None] also
    when there is no storage. *)
Definition slot_of (st : Storage.sessionStorage) (key : string) : option string :=
  match st with
  | Some items => items !! key
  | None => None
  end.
(** ** Pairs by name *)

(** The pair is named by one of [ks]. *)
Definition named_in (ks : list string) (e : string * string) : bool :=
  existsb (String.eqb (fst e)) ks.

(** The value of the last pair of [l] named [key]. *)
Fixpoint found (l : list (string * string)) (key : string) : option string :=
  match l with
  | [] => None
  | (k, v) :: r =>
      match found r key with
      | Some w => Some w
      | None => if String.eqb k key then Some v else None
      end
  end.

(** The pairs of the fragment that [extractUtmParameters] and
    [removeUtmParameters] look at: none unless the fragment has a [=]. *)
Definition fragment_pairs (r : URL.record) : URLSearchParams.t :=
  if Js.includes "=" (default "" (URL.fragment r))
  then URLSearchParams.new (default "" (URL.fragment r))
  else [].
(** ** Pairs that leave no trace *)

(** The pair whose name and value are both empty. *)
Definition empty_pair (p : string * string) : bool :=
  String.eqb (fst p) "" && String.eqb (snd p) "".
(** ** The share parameters of the hook *)

(** The captured parameters that [appendToUrl] starts from. *)
Definition captured_params (utmParameters : option UtmParameters) : UtmParameters :=
  match utmParameters with
  | Some p => if hasUtmParameters (Some p) then p else []
  | None => []
  end.

(** The share parameters configured under [default] and for a platform. *)
Definition default_params (config : Config.ResolvedUtmConfig) : UtmParameters :=
  default [] (property (Config.shareContextParams config) "default").

Definition platform_params (config : Config.ResolvedUtmConfig)
    (platform : option string) : UtmParameters :=
  match platform with
  | Some name =>
      if Encoding.nonempty name
      then default [] (property (Config.shareContextParams config) name)
      else []
  | None => []
  end.
(** ** The default protocol of the validator *)

(** The values that the module variable [defaultProtocol] can take: its
    initial value, and every value that [setDefaultProtocol] accepted. *)
Inductive protocol_state : string -> Prop :=
| protocol_initial : protocol_state Validator.initial_defaultProtocol
| protocol_set (old protocol new : string) :
    protocol_state old ->
    Validator.setDefaultProtocol protocol = Normal new ->
    protocol_state new.

Definition not_space (c : ascii) : bool := negb (Validator.is_space c).

Definition is_dot (c : ascii) : bool := Ascii.eqb c ".".
(** ** Configuration objects *)

(** The override without any member. *)
Definition no_override : Config.Partial.UtmConfig :=
  {| Config.Partial.enabled := None; Config.Partial.keyFormat := None;
     Config.Partial.storageKey := None; Config.Partial.captureOnMount := None;
     Config.Partial.appendToShares := None; Config.Partial.allowedParameters := None;
     Config.Partial.defaultParams := None; Config.Partial.shareContextParams := None;
     Config.Partial.excludeFromShares := None |}.

(** The properties of an object have pairwise distinct keys. *)
Definition distinct_keys {V} (o : list (string * V)) : Prop := List.NoDup (keys o).

(** The same for the objects of a [ShareContextParams]. *)
Definition distinct_share_keys (s : Config.ShareContextParams) : Prop :=
  distinct_keys s /\ forall name p, In (name, Some p) s -> distinct_keys p.

(** ** Where the model is the code *)

(** Well-formed UTF-8 (the byte sequences of table 3-7 of the Unicode
    standard).  The platform decodes the bytes of a percent-decoded name
    or value as UTF-8 and puts U+FFFD for what is not well formed; the
    model keeps the bytes.  The two agree on well-formed text. *)
Definition continuation (c : ascii) : bool := Js.in_range 128 191 c.

Fixpoint utf8 (s : string) : bool :=
  match s with
  | EmptyString => true
  | String a r =>
      if Js.code a <? 128 then utf8 r
      else
        match r with
        | EmptyString => false
        | String b r1 =>
            if Js.in_range 194 223 a then continuation b && utf8 r1
            else
              match r1 with
              | EmptyString => false
              | String c r2 =>
                  if Js.in_range 224 239 a then
                    (if Js.code a =? 224 then Js.in_range 160 191 b
                     else if Js.code a =? 237 then Js.in_range 128 159 b
                     else continuation b)
                    && continuation c && utf8 r2
                  else
                    match r2 with
                    | EmptyString => false
                    | String d r3 =>
                        Js.in_range 240 244 a
                        && (if Js.code a =? 240 then Js.in_range 144 191 b
                            else if Js.code a =? 244 then Js.in_range 128 143 b
                            else continuation b)
                        && continuation c && continuation d && utf8 r3
                    end
              end
        end
  end.

(** Pairs whose names and values are well-formed text. *)
Definition text_pairs (l : list (string * string)) : bool :=
  forallb (fun e => utf8 (fst e) && utf8 (snd e)) l.

(** The names that every object inherits from [Object.prototype]: the
    operator [in] finds them in the two tables of standard keys, where
    the model looks up the entries of the table only. *)
Definition Object_prototype_names : list string :=
  [ "constructor"; "hasOwnProperty"; "isPrototypeOf"; "propertyIsEnumerable";
    "toLocaleString"; "toString"; "valueOf"; "__proto__";
    "__defineGetter__"; "__defineSetter__"; "__lookupGetter__"; "__lookupSetter__" ].

Definition inherited (key : string) : bool :=
  existsb (String.eqb key) Object_prototype_names.

(** A key on which the converters of the model are those of the code:
    ASCII text, for the case mappings, that names no inherited member. *)
Definition plain_key (key : string) : bool :=
  Js.all_chars Js.is_ascii key && negb (inherited key).

(** A key made of digits: JavaScript enumerates such keys before the
    others, whatever the order of insertion. *)
Definition index_like (key : string) : bool :=
  Encoding.nonempty key && Js.all_chars Js.is_digit key.

(** A parameter object on which the model is the code: plain keys, none
    of them made of digits. *)
Definition plain_keys (p : UtmParameters) : Prop :=
  forall k, In k (keys p) -> plain_key k = true /\ index_like k = false.

(** ** Reading back what injection returned *)

(** The pairs of the location that injection does not write to: those of
    the query, or those of a fragment that holds a [=]. *)
Definition other_pairs (toFragment : bool) (r : URL.record) : URLSearchParams.t :=
  if toFragment then Encoding.parse_urlencoded (default "" (URL.query r))
  else fragment_pairs r.

(** [r1] is what the URL parser reads in the string [s] that injection
    returned for the record [r]: the scheme, the host and the path of [r]
    (and its userinfo, when the platform serialized the URL), the pairs
    of the query of [s], the fragment of [s].  The query is compared by
    its pairs: the parser of the platform percent-encodes some characters
    of a query that [encodeURIComponent] leaves as they are. *)
Definition reads_back (toFragment : bool) (r r1 : URL.record) (s : string) : Prop :=
  URL.scheme r1 = URL.scheme r /\ URL.host r1 = URL.host r
  /\ URL.pathname r1 = URL.pathname r
  /\ (toFragment = true ->
      URL.username r1 = URL.username r /\ URL.password r1 = URL.password r)
  /\ Encoding.parse_urlencoded (default "" (URL.query r1))
     = Encoding.parse_urlencoded (query_of s)
  /\ default "" (URL.fragment r1) = fragment_of s.

(** * Properties *)

(** ** Characters *)

Ltac each_char c := destruct c as [[] [] [] [] [] [] [] []].

Lemma lower_of_upper (c : ascii) :
  Js.is_lower c = true ->
  Js.is_upper (Js.upper_char c) = true /\ Js.lower_char (Js.upper_char c) = c.
Proof. each_char c; vm_compute; intros H; try discriminate H; split; reflexivity. Qed.

Lemma upper_of_lower (c : ascii) :
  Js.is_upper c = true ->
  Js.is_lower (Js.lower_char c) = true /\ Js.upper_char (Js.lower_char c) = c.
Proof. each_char c; vm_compute; intros H; try discriminate H; split; reflexivity. Qed.

Lemma lower_char_id (c : ascii) : Js.is_upper c = false -> Js.lower_char c = c.
Proof. unfold Js.lower_char. intros ->. reflexivity. Qed.

Lemma lower_not_underscore (c : ascii) :
  Js.is_lower c = true -> Ascii.eqb c "_" = false /\ Js.is_upper c = false.
Proof. each_char c; vm_compute; intros H; try discriminate H; split; reflexivity. Qed.

Lemma upper_not_underscore (c : ascii) :
  Js.is_upper c = true -> Ascii.eqb c "_" = false /\ Js.is_lower c = false.
Proof. each_char c; vm_compute; intros H; try discriminate H; split; reflexivity. Qed.

(** ** Strings: append, search, split *)

Lemma append_cons (c : ascii) (a b : string) : String c a +:+ b = String c (a +:+ b).
Proof. reflexivity. Qed.

Lemma append_nil_l (b : string) : "" +:+ b = b.
Proof. reflexivity. Qed.

Lemma append_nil_r (a : string) : a +:+ "" = a.
Proof. induction a as [| c a IH]; [reflexivity |]. rewrite append_cons, IH. reflexivity. Qed.

Lemma append_assoc (a b c : string) : (a +:+ b) +:+ c = a +:+ (b +:+ c).
Proof.
  induction a as [| x a IH]; [reflexivity |]. rewrite !append_cons, IH. reflexivity.
Qed.

Lemma nonempty_true (s : string) : Encoding.nonempty s = true <-> s <> "".
Proof. destruct s; cbn; split; congruence. Qed.

Lemma all_chars_app (P : ascii -> bool) (a b : string) :
  Js.all_chars P (a +:+ b) = Js.all_chars P a && Js.all_chars P b.
Proof.
  induction a as [| c a IH]; [reflexivity |].
  rewrite append_cons. cbn [Js.all_chars]. rewrite IH, andb_assoc. reflexivity.
Qed.

Lemma all_chars_weaken (P Q : ascii -> bool) (s : string) :
  (forall c, P c = true -> Q c = true) ->
  Js.all_chars P s = true -> Js.all_chars Q s = true.
Proof.
  intros HPQ. induction s as [| c s IH]; [reflexivity |]. cbn [Js.all_chars].
  intros H. apply andb_prop in H as [Hc Hs]. rewrite (HPQ _ Hc), (IH Hs). reflexivity.
Qed.

Lemma all_chars_excludes (P : ascii -> bool) (c : ascii) (s : string) :
  P c = false -> Js.all_chars P s = true -> Js.includes c s = false.
Proof.
  intros Hc. induction s as [| d s IH]; [reflexivity |]. cbn [Js.all_chars Js.includes].
  intros H. apply andb_prop in H as [Hd Hs]. rewrite (IH Hs), orb_false_r.
  destruct (Ascii.eqb_spec d c) as [-> | _]; [congruence | reflexivity].
Qed.

Lemma includes_app (c : ascii) (a b : string) :
  Js.includes c (a +:+ b) = Js.includes c a || Js.includes c b.
Proof.
  induction a as [| d a IH]; [reflexivity |].
  rewrite append_cons. cbn [Js.includes]. rewrite IH, orb_assoc. reflexivity.
Qed.

Lemma cut_at (sep : ascii) (a b : string) :
  Js.includes sep a = false -> Encoding.cut sep (a +:+ String sep b) = (a, b).
Proof.
  induction a as [| c a IH]; intros H.
  - rewrite append_nil_l. cbn [Encoding.cut]. rewrite Ascii.eqb_refl. reflexivity.
  - cbn [Js.includes] in H. apply orb_false_elim in H as [Hc Ha].
    rewrite append_cons. cbn [Encoding.cut]. rewrite Hc, (IH Ha). reflexivity.
Qed.

Lemma cut_absent (sep : ascii) (a : string) :
  Js.includes sep a = false -> Encoding.cut sep a = (a, "").
Proof.
  induction a as [| c a IH]; intros H; [reflexivity |].
  cbn [Js.includes] in H. apply orb_false_elim in H as [Hc Ha].
  cbn [Encoding.cut]. rewrite Hc, (IH Ha). reflexivity.
Qed.

Lemma split_absent (sep : ascii) (a : string) :
  Js.includes sep a = false -> Encoding.split sep a = [a].
Proof.
  induction a as [| c a IH]; intros H; [reflexivity |].
  cbn [Js.includes] in H. apply orb_false_elim in H as [Hc Ha].
  cbn [Encoding.split]. rewrite Hc, (IH Ha). reflexivity.
Qed.

Lemma split_at (sep : ascii) (a b : string) :
  Js.includes sep a = false ->
  Encoding.split sep (a +:+ String sep b) = a :: Encoding.split sep b.
Proof.
  induction a as [| c a IH]; intros H.
  - rewrite append_nil_l. cbn [Encoding.split]. rewrite Ascii.eqb_refl. reflexivity.
  - cbn [Js.includes] in H. apply orb_false_elim in H as [Hc Ha].
    rewrite append_cons. cbn [Encoding.split]. rewrite Hc, (IH Ha). reflexivity.
Qed.

Lemma join_cons2 (sep x y : string) (r : list string) :
  Encoding.join sep (x :: y :: r) = x +:+ sep +:+ Encoding.join sep (y :: r).
Proof. reflexivity. Qed.

(** Splitting what was joined gives the parts back. *)
Lemma split_join (sep : ascii) (parts : list string) :
  parts <> [] ->
  Forall (fun s => Js.includes sep s = false) parts ->
  Encoding.split sep (Encoding.join (String sep "") parts) = parts.
Proof.
  induction parts as [| x r IH]; intros Hne Hall; [contradiction Hne; reflexivity |].
  apply Forall_cons_iff in Hall as [Hx Hr]. destruct r as [| y r].
  - cbn [Encoding.join]. apply split_absent, Hx.
  - rewrite join_cons2. change (String sep "" +:+ ?t) with (String sep t).
    rewrite (split_at _ _ _ Hx), IH; [reflexivity | discriminate | exact Hr].
Qed.

Lemma all_chars_join (P : ascii -> bool) (sep : string) (parts : list string) :
  Js.all_chars P sep = true ->
  Forall (fun s => Js.all_chars P s = true) parts ->
  Js.all_chars P (Encoding.join sep parts) = true.
Proof.
  intros Hsep. induction parts as [| x r IH]; intros Hall; [reflexivity |].
  apply Forall_cons_iff in Hall as [Hx Hr]. destruct r as [| y r]; [exact Hx |].
  rewrite join_cons2, !all_chars_app, Hx, Hsep, (IH Hr). reflexivity.
Qed.

(** ** Key conversion *)

Lemma CAMEL_TO_SNAKE_generic (key v : string) :
  table_get CAMEL_TO_SNAKE key = Some v -> v = snake_of key.
Proof.
  unfold CAMEL_TO_SNAKE, table_get.
  repeat match goal with
         | |- context [String.eqb ?a key] =>
             destruct (String.eqb_spec a key) as [<- | _];
             [intros [= <-]; reflexivity |]
         end.
  discriminate.
Qed.

Lemma SNAKE_TO_CAMEL_generic (key v : string) :
  table_get SNAKE_TO_CAMEL key = Some v -> v = camel_of key.
Proof.
  unfold SNAKE_TO_CAMEL, table_get.
  repeat match goal with
         | |- context [String.eqb ?a key] =>
             destruct (String.eqb_spec a key) as [<- | _];
             [intros [= <-]; reflexivity |]
         end.
  discriminate.
Qed.

Lemma toSnakeCase_generic (key : string) :
  Js.startsWith key "utm" = true -> 3 < String.length key ->
  toSnakeCase key = snake_of key.
Proof.
  intros Hp Hl. unfold toSnakeCase.
  destruct (table_get CAMEL_TO_SNAKE key) eqn:E.
  - apply CAMEL_TO_SNAKE_generic, E.
  - rewrite Hp. apply Nat.ltb_lt in Hl. rewrite Hl. reflexivity.
Qed.

Lemma toCamelCase_generic (key : string) :
  Js.startsWith key "utm_" = true -> 4 < String.length key ->
  toCamelCase key = camel_of key.
Proof.
  intros Hp Hl. unfold toCamelCase.
  destruct (table_get SNAKE_TO_CAMEL key) eqn:E.
  - apply SNAKE_TO_CAMEL_generic, E.
  - rewrite Hp. apply Nat.ltb_lt in Hl. rewrite Hl. reflexivity.
Qed.

Lemma prefix_cons (a b : ascii) (p s : string) :
  String.prefix (String a p) (String b s) = true ->
  a = b /\ String.prefix p s = true.
Proof.
  cbn [String.prefix]. destruct (ascii_dec a b); [auto | discriminate].
Qed.

Ltac peel_prefix H key :=
  destruct key as [| ? key]; [discriminate H |];
  apply prefix_cons in H; destruct H as [<- H].

Lemma startsWith_append (p s : string) : Js.startsWith (p +:+ s) p = true.
Proof.
  unfold Js.startsWith. induction p as [| c p IH]; [destruct s; reflexivity |].
  cbn [String.prefix]. change (String c p +:+ s) with (String c (p +:+ s)).
  cbn [String.prefix]. destruct (ascii_dec c c); [exact IH | contradiction].
Qed.

Ltac long_enough := cbv [String.append String.length]; lia.

Lemma startsWith_utm_ (key : string) :
  Js.startsWith key "utm_" = true -> key = "utm_" +:+ Js.slice 4 key.
Proof.
  unfold Js.startsWith. intros H. do 4 peel_prefix H key. reflexivity.
Qed.

Lemma startsWith_utm (key : string) :
  Js.startsWith key "utm" = true -> key = "utm" +:+ Js.slice 3 key.
Proof.
  unfold Js.startsWith. intros H. do 3 peel_prefix H key. reflexivity.
Qed.

(** An underscore before each capital, then lower case: the suffix of
    [toSnakeCase], character by character. *)
Lemma snake_suffix_cons (c : ascii) (r : string) :
  Js.toLowerCase (underscore_uppers (String c r)) =
  if Js.is_upper c
  then String "_" (String (Js.lower_char c) (Js.toLowerCase (underscore_uppers r)))
  else String c (Js.toLowerCase (underscore_uppers r)).
Proof.
  cbn [underscore_uppers]. destruct (Js.is_upper c) eqn:E.
  - reflexivity.
  - cbn. rewrite (lower_char_id _ E). reflexivity.
Qed.

Lemma capitalize_cons_plain (c : ascii) (r : string) :
  Ascii.eqb c "_" = false ->
  capitalize_after_underscore (String c r) = String c (capitalize_after_underscore r).
Proof. intros H. cbn. rewrite H. destruct r; reflexivity. Qed.

Lemma capitalize_cons2 (c d : ascii) (r : string) :
  capitalize_after_underscore (String c (String d r)) =
  if Ascii.eqb c "_" && Js.is_lower d
  then String (Js.upper_char d) (capitalize_after_underscore r)
  else String c (capitalize_after_underscore (String d r)).
Proof. reflexivity. Qed.

Lemma snake_of_capitalized (n : nat) (r : string) :
  String.length r <= n -> Js.all_chars not_upper r = true ->
  Js.toLowerCase (underscore_uppers (capitalize_after_underscore r)) = r.
Proof.
  revert r. induction n as [| n IH]; intros r Hn Hr.
  - destruct r; [reflexivity | cbn in Hn; lia].
  - destruct r as [| c [| d r']]; [reflexivity | |].
    + cbn in Hr. apply andb_prop in Hr as [Hc _]. apply negb_true_iff in Hc.
      cbn [capitalize_after_underscore]. rewrite snake_suffix_cons, Hc. reflexivity.
    + cbn [Js.all_chars] in Hr.
      apply andb_prop in Hr as [Hc Hr]. apply negb_true_iff in Hc.
      rewrite capitalize_cons2.
      destruct (Ascii.eqb c "_" && Js.is_lower d) eqn:E.
      * apply andb_prop in E as [Ec Ed]. apply Ascii.eqb_eq in Ec. subst c.
        destruct (lower_of_upper _ Ed) as [Hu Hl].
        rewrite snake_suffix_cons, Hu, Hl. f_equal. f_equal.
        apply IH; [cbn in Hn; lia |].
        cbn [Js.all_chars] in Hr. apply andb_prop in Hr as [_ Hr]. exact Hr.
      * rewrite snake_suffix_cons, Hc. f_equal.
        apply IH; [cbn in Hn |- *; lia | exact Hr].
Qed.

Lemma camel_of_snaked (r : string) :
  no_underscore_lower r = true ->
  capitalize_after_underscore (Js.toLowerCase (underscore_uppers r)) = r.
Proof.
  induction r as [| c r IH]; intros Hr; [reflexivity |].
  assert (Hr' : no_underscore_lower r = true).
  { destruct r as [| d r']; [reflexivity |].
    cbn [no_underscore_lower] in Hr. apply andb_prop in Hr as [_ Hr]. exact Hr. }
  specialize (IH Hr'). rewrite snake_suffix_cons.
  destruct (Js.is_upper c) eqn:Ec.
  - destruct (upper_of_lower _ Ec) as [Hl Hu].
    rewrite capitalize_cons2, Hl, Hu, IH. reflexivity.
  - destruct r as [| d r']; [reflexivity |].
    rewrite snake_suffix_cons in IH |- *.
    cbn [no_underscore_lower] in Hr. apply andb_prop in Hr as [Hcd _].
    apply negb_true_iff in Hcd.
    destruct (Js.is_upper d) eqn:Ed.
    + rewrite capitalize_cons2.
      replace (Js.is_lower "_") with false by reflexivity.
      rewrite andb_false_r, IH. reflexivity.
    + rewrite capitalize_cons2, Hcd, IH. reflexivity.
Qed.

Lemma ascii_not_upper_weaken (s : string) :
  Js.all_chars ascii_not_upper s = true -> Js.all_chars not_upper s = true.
Proof.
  apply all_chars_weaken. intros c H. apply andb_prop in H as [_ H]. exact H.
Qed.

Lemma snake_round_trip (ks : string) :
  isSnakeCaseUtmKey ks = true -> snake_shape ks = true ->
  toSnakeCase (toCamelCase ks) = ks.
Proof.
  intros Hs Hshape. unfold isSnakeCaseUtmKey in Hs.
  pose proof (startsWith_utm_ _ Hs) as Hk. unfold snake_shape in Hshape.
  destruct (Js.slice 4 ks) as [| c r]; subst ks; [reflexivity |].
  apply andb_prop in Hshape as [Hc Hr]. apply ascii_not_upper_weaken in Hr.
  destruct (lower_not_underscore _ Hc) as [Hc_ _].
  destruct (lower_of_upper _ Hc) as [Hu Hl].
  assert (Hcamel : toCamelCase ("utm_" +:+ String c r)
                   = "utm" +:+ String (Js.upper_char c) (capitalize_after_underscore r)).
  { rewrite toCamelCase_generic; [| exact Hs | long_enough].
    unfold camel_of.
    change (Js.slice 4 ("utm_" +:+ String c r)) with (String c r).
    rewrite (capitalize_cons_plain _ _ Hc_). reflexivity. }
  rewrite Hcamel, toSnakeCase_generic; [| reflexivity | long_enough].
  unfold snake_of.
  change (Js.slice 3 ("utm" +:+ String (Js.upper_char c) (capitalize_after_underscore r)))
    with (String (Js.upper_char c) (capitalize_after_underscore r)).
  rewrite snake_suffix_cons, Hu, Hl.
  rewrite (snake_of_capitalized (String.length r) r (le_n _) Hr).
  reflexivity.
Qed.

Lemma isCamelCaseUtmKey_inv (kc : string) :
  isCamelCaseUtmKey kc = true ->
  exists c r, kc = "utm" +:+ String c r /\ Js.is_upper c = true.
Proof.
  unfold isCamelCaseUtmKey. intros H.
  destruct (Js.startsWith kc "utm") eqn:Hp; [| discriminate H].
  pose proof (startsWith_utm _ Hp) as Hk.
  destruct (Js.slice 3 kc) as [| c r]; subst kc; [discriminate H |].
  exists c, r. split; [reflexivity | exact H].
Qed.

Lemma camel_round_trip (kc : string) :
  isCamelCaseUtmKey kc = true -> camel_shape kc = true ->
  toCamelCase (toSnakeCase kc) = kc.
Proof.
  intros Hc Hshape. destruct (isCamelCaseUtmKey_inv _ Hc) as (c & r & -> & Hup).
  unfold camel_shape in Hshape.
  change (Js.slice 3 ("utm" +:+ String c r)) with (String c r) in Hshape.
  apply andb_prop in Hshape as [_ Hshape].
  destruct (upper_of_lower _ Hup) as [Hl Hu].
  destruct (lower_not_underscore _ Hl) as [Hl_ _].
  destruct (upper_not_underscore _ Hup) as [Hc_ _].
  assert (Hr : no_underscore_lower r = true).
  { destruct r as [| d r']; [reflexivity |].
    cbn [no_underscore_lower] in Hshape.
    apply andb_prop in Hshape as [_ Hshape]. exact Hshape. }
  assert (Hsnake : toSnakeCase ("utm" +:+ String c r)
                   = "utm_" +:+ String (Js.lower_char c)
                                  (Js.toLowerCase (underscore_uppers r))).
  { rewrite toSnakeCase_generic; [| reflexivity | long_enough].
    unfold snake_of.
    change (Js.slice 3 ("utm" +:+ String c r)) with (String c r).
    rewrite snake_suffix_cons, Hup. reflexivity. }
  rewrite Hsnake, toCamelCase_generic; [| reflexivity | long_enough].
  unfold camel_of.
  change (Js.slice 4 ("utm_" +:+ ?x)) with x.
  rewrite (capitalize_cons_plain _ _ Hl_), (camel_of_snaked _ Hr).
  cbv [Js.charAt0 Js.toUpperCase Js.map_chars Js.slice]. rewrite Hu. reflexivity.
Qed.

(** C1 (as amended).  Converting a key to the other convention and back
    gives the key again for every ASCII underscore-convention key whose
    suffix is empty or starts with a lower-case letter and has no
    upper-case letter, and for every ASCII compact-convention key whose
    suffix has no underscore directly followed by a lower-case letter. *)
Theorem key_round_trip (ks kc : string)
    (Hs : isSnakeCaseUtmKey ks = true) (Hss : snake_shape ks = true)
    (Hc : isCamelCaseUtmKey kc = true) (Hcs : camel_shape kc = true) :
  toSnakeCase (toCamelCase ks) = ks /\ toCamelCase (toSnakeCase kc) = kc.
Proof.
  split; [apply snake_round_trip | apply camel_round_trip]; assumption.
Qed.

Lemma key_round_trip_witness :
  toSnakeCase (toCamelCase "utm_team_id") = "utm_team_id"
  /\ toCamelCase (toSnakeCase "utmTeamId") = "utmTeamId".
Proof.
  apply (key_round_trip "utm_team_id" "utmTeamId"); reflexivity.
Defined.

(** C1 (as stated) fails: [utm_2024] starts with [utm_] and comes back as
    [utm2024]; [utmA_b] is [utm] followed by a capital and comes back as
    [utmAB]. *)
Lemma key_round_trip_counterexample :
  (isSnakeCaseUtmKey "utm_2024" = true
   /\ toSnakeCase (toCamelCase "utm_2024") <> "utm_2024")
  /\ (isCamelCaseUtmKey "utmA_b" = true
      /\ toCamelCase (toSnakeCase "utmA_b") <> "utmA_b").
Proof. repeat split; discriminate. Qed.

(** ** Session storage *)

Lemma isStorageAvailable_ok throws (items : gmap string string) :
  throws items Storage.testKey "test" = false ->
  Storage.isStorageAvailable throws (Some items) = (true, Some (after_probe items)).
Proof.
  intros H. unfold Storage.isStorageAvailable, Storage.setItem. rewrite H. reflexivity.
Qed.

Lemma isStorageAvailable_cases throws (st : Storage.sessionStorage) :
  (exists items, st = Some items
                 /\ Storage.isStorageAvailable throws st = (true, Some (after_probe items)))
  \/ (exists st', Storage.isStorageAvailable throws st = (false, st')).
Proof.
  destruct st as [items |]; [| right; eexists; reflexivity].
  unfold Storage.isStorageAvailable, Storage.setItem.
  destruct (throws items Storage.testKey "test").
  - right. eexists. reflexivity.
  - left. exists items. split; reflexivity.
Qed.

Lemma after_probe_lookup (items : gmap string string) (key : string) :
  key <> Storage.testKey -> after_probe items !! key = items !! key.
Proof.
  intros H. unfold after_probe.
  rewrite lookup_delete_ne by congruence. rewrite lookup_insert_ne by congruence.
  reflexivity.
Qed.

Lemma after_probe_testKey (items : gmap string string) :
  after_probe items !! Storage.testKey = None.
Proof. unfold after_probe. apply lookup_delete_eq. Qed.

Lemma convertParams_loop_undefined conv (params acc : UtmParameters) :
  (forall k v, In (k, v) params -> v = None) ->
  convertParams_loop conv params acc = acc.
Proof.
  induction params as [| [k v] r IH]; intros H; [reflexivity |].
  cbn [convertParams_loop]. rewrite (H k v (or_introl eq_refl)).
  apply IH. intros k' v' Hin. apply (H k' v'). right. exact Hin.
Qed.

(** C10.  A parameter object with at least one key, all of whose values
    are undefined, is not taken for empty: with storage available and the
    write accepted, [storeUtmParameters] puts the string of the empty
    object into the slot, whatever the slot held before. *)
Theorem store_all_undefined_writes_empty_object
    throws (params : UtmParameters) (options : StorageOptions)
    (items : gmap string string)
    (Hkeys : params <> [])
    (Hundef : forall k v, In (k, v) params -> v = None)
    (Havailable : throws items Storage.testKey "test" = false)
    (Haccepted : throws (after_probe items)
                   (default Storage.DEFAULT_STORAGE_KEY (storageKey options)) "{}" = false) :
  let slot := default Storage.DEFAULT_STORAGE_KEY (storageKey options) in
  Storage.storeUtmParameters throws params options (Some items)
  = Some (<[slot := "{}"]> (after_probe items))
  /\ (<[slot := "{}"]> (after_probe items)) !! slot = Some "{}".
Proof.
  intros slot. split; [| apply lookup_insert_eq].
  unfold Storage.storeUtmParameters.
  rewrite (isStorageAvailable_ok _ _ Havailable).
  destruct params as [| e r]; [contradiction Hkeys; reflexivity |].
  cbn [keys map length Nat.eqb].
  unfold convertParams. rewrite (convertParams_loop_undefined _ _ _ Hundef).
  change (Storage.JSON_stringify []) with "{}".
  unfold Storage.setItem. fold slot in Haccepted |- *. rewrite Haccepted.
  reflexivity.
Qed.

Lemma store_all_undefined_writes_empty_object_witness :
  Storage.storeUtmParameters (fun _ _ _ => false)
    [("utm_source", None)] {| storageKey := None; keyFormat := None |}
    (Some (<["utm_parameters" := "old"]> ∅))
  = Some (<["utm_parameters" := "{}"]> (after_probe (<["utm_parameters" := "old"]> ∅)))
  /\ (<["utm_parameters" := "{}"]> (after_probe (<["utm_parameters" := "old"]> ∅)))
     !! "utm_parameters" = Some "{}".
Proof.
  apply (store_all_undefined_writes_empty_object (fun _ _ _ => false)
           [("utm_source", None)] {| storageKey := None; keyFormat := None |}
           (<["utm_parameters" := "old"]> ∅)).
  - discriminate.
  - intros k v [[= <- <-] | []]. reflexivity.
  - reflexivity.
  - reflexivity.
Defined.

Lemma corrupt_invalid (parsed : json) :
  corrupt (Some parsed) -> Storage.isValidStoredData parsed None = false.
Proof.
  destruct parsed as [| | | | | entries]; try reflexivity.
  intros (k & x & Hin & Hbad). cbn [Storage.isValidStoredData].
  destruct entries as [| e r]; [destruct Hin |].
  apply not_true_is_false. intros Hall.
  rewrite forallb_forall in Hall. specialize (Hall _ Hin). cbn in Hall.
  apply andb_prop in Hall as [Hs Hk]. destruct Hbad; congruence.
Qed.

(** C6.  When the string in the slot does not deserialize, or deserializes
    to a value that fails the structural validation, [getStoredUtmParameters]
    completes normally with null. *)
Theorem get_corrupt_is_null
    throws JSON_parse (options : StorageOptions)
    (items : gmap string string) (stored : string)
    (Hstored : items !! default Storage.DEFAULT_STORAGE_KEY (storageKey options)
               = Some stored)
    (Hcorrupt : corrupt (JSON_parse stored)) :
  fst (Storage.getStoredUtmParameters throws JSON_parse options (Some items))
  = Normal None.
Proof.
  unfold Storage.getStoredUtmParameters.
  destruct (isStorageAvailable_cases throws (Some items))
    as [(items' & [= <-] & ->) | (st' & ->)]; [| reflexivity].
  cbn [fst]. f_equal.
  set (slot := default Storage.DEFAULT_STORAGE_KEY (storageKey options)) in *.
  destruct (String.eqb_spec slot Storage.testKey) as [-> | Hne].
  - rewrite after_probe_testKey. reflexivity.
  - rewrite (after_probe_lookup _ _ Hne), Hstored.
    destruct (JSON_parse stored) as [parsed |]; [| reflexivity].
    cbn [bind try_catch]. rewrite (corrupt_invalid _ Hcorrupt). reflexivity.
Qed.

Lemma get_corrupt_is_null_witness :
  fst (Storage.getStoredUtmParameters (fun _ _ _ => false) (fun _ => None)
         {| storageKey := None; keyFormat := None |}
         (Some (<["utm_parameters" := "not valid json"]> ∅)))
  = Normal None.
Proof.
  apply (get_corrupt_is_null (fun _ _ _ => false) (fun _ => None)
           {| storageKey := None; keyFormat := None |}
           (<["utm_parameters" := "not valid json"]> ∅) "not valid json").
  - reflexivity.
  - exact I.
Defined.

(** ** Converting parameter objects *)

Lemma keys_assign {V} (o : list (string * V)) (k : string) (v : V) (x : string) :
  In x (keys (assign o k v)) <-> In x (keys o) \/ x = k.
Proof.
  induction o as [| [k' v'] r IH]; cbn.
  - intuition congruence.
  - destruct (String.eqb_spec k' k) as [-> | Hne]; cbn.
    + intuition congruence.
    + fold (keys (assign r k v)). fold (keys r). rewrite IH. intuition.
Qed.

Lemma assign_fresh {V} (o : list (string * V)) (k : string) (v : V) :
  ~ In k (keys o) -> assign o k v = o ++ [(k, v)].
Proof.
  induction o as [| [k' v'] r IH]; intros Hk; [reflexivity |].
  cbn in Hk |- *. destruct (String.eqb_spec k' k) as [-> | Hne].
  - exfalso. apply Hk. left. reflexivity.
  - rewrite IH; [reflexivity |]. intros Hin. apply Hk. right. exact Hin.
Qed.

Lemma NoDup_keys_assign {V} (o : list (string * V)) (k : string) (v : V) :
  List.NoDup (keys o) -> List.NoDup (keys (assign o k v)).
Proof.
  induction o as [| [k' v'] r IH]; intros Hnd; cbn.
  - apply List.NoDup_cons; [intros [] | apply List.NoDup_nil].
  - cbn in Hnd. apply List.NoDup_cons_iff in Hnd as [Hk' Hr].
    destruct (String.eqb_spec k' k) as [-> | Hne]; cbn.
    + apply List.NoDup_cons; assumption.
    + apply List.NoDup_cons; [| apply IH, Hr].
      fold (keys (assign r k v)). rewrite keys_assign.
      intros [Hin | ->]; [apply Hk', Hin | apply Hne; reflexivity].
Qed.

Lemma all_defined_assign (o : UtmParameters) (k v : string) :
  all_defined o -> all_defined (assign o k (Some v)).
Proof.
  induction o as [| [k' v'] r IH]; intros Ho a b Hin; cbn in Hin.
  - destruct Hin as [[= <- <-] | []]. discriminate.
  - destruct (String.eqb k' k).
    + destruct Hin as [[= <- <-] | Hin]; [discriminate |].
      apply (Ho a b). right. exact Hin.
    + destruct Hin as [[= <- <-] | Hin].
      * apply (Ho k' v'). left. reflexivity.
      * apply (IH (fun a b H => Ho a b (or_intror H)) a b Hin).
Qed.

Lemma convertParams_loop_spec conv (p acc : UtmParameters) :
  (List.NoDup (keys acc) -> List.NoDup (keys (convertParams_loop conv p acc)))
  /\ (all_defined acc -> all_defined (convertParams_loop conv p acc))
  /\ (forall x, In x (keys (convertParams_loop conv p acc)) ->
                In x (keys acc) \/ exists k, In k (keys p) /\ x = conv k).
Proof.
  revert acc. induction p as [| [k [v |]] r IH]; intros acc; cbn [convertParams_loop].
  - cbn. intuition.
  - destruct (IH (assign acc (conv k) (Some v))) as (H1 & H2 & H3).
    split; [| split].
    + intros Hnd. apply H1, NoDup_keys_assign, Hnd.
    + intros Hd. apply H2, all_defined_assign, Hd.
    + intros x Hx. destruct (H3 x Hx) as [Hin | (k' & Hk' & ->)].
      * apply keys_assign in Hin as [Hin | ->]; [left; exact Hin |].
        right. exists k. split; [left; reflexivity | reflexivity].
      * right. exists k'. split; [right; exact Hk' | reflexivity].
  - destruct (IH acc) as (H1 & H2 & H3). split; [| split]; try assumption.
    intros x Hx. destruct (H3 x Hx) as [Hin | (k' & Hk' & ->)]; [left; exact Hin |].
    right. exists k'. split; [right; exact Hk' | reflexivity].
Qed.

Lemma assign_rename (f : string -> string) (acc : UtmParameters) (k : string)
    (v : option string) :
  (forall k', In k' (keys acc) -> f k' = f k -> k' = k) ->
  rename f (assign acc k v) = assign (rename f acc) (f k) v.
Proof.
  induction acc as [| [k' v'] r IH]; intros Hinj; [reflexivity |].
  cbn. destruct (String.eqb_spec k' k) as [-> | Hne].
  - rewrite String.eqb_refl. reflexivity.
  - destruct (String.eqb_spec (f k') (f k)) as [Heq | _].
    + exfalso. apply Hne, Hinj; [left; reflexivity | exact Heq].
    + cbn. f_equal. apply IH. intros k'' Hin. apply Hinj. right. exact Hin.
Qed.

(** Converting with [g] and then with [f] is converting with [f], when [f]
    does not see the difference on the keys and keeps the converted keys
    apart. *)
Lemma convertParams_loop_rename (f g : string -> string) (p acc : UtmParameters) :
  (forall k, In k (keys p) -> f (g k) = f k) ->
  (forall a b, In a (keys acc ++ map g (keys p)) ->
               In b (keys acc ++ map g (keys p)) -> f a = f b -> a = b) ->
  convertParams_loop f p (rename f acc) = rename f (convertParams_loop g p acc).
Proof.
  revert acc. induction p as [| [k [v |]] r IH]; intros acc Hfg Hinj;
    cbn [convertParams_loop]; [reflexivity | |].
  - rewrite <- (Hfg k (or_introl eq_refl)), <- assign_rename.
    + apply IH.
      * intros k' Hk'. apply Hfg. right. exact Hk'.
      * assert (Hsub : forall x, In x (keys (assign acc (g k) (Some v)) ++ map g (keys r)) ->
                                 In x (keys acc ++ map g (keys ((k, Some v) :: r)))).
        { intros x Hx. apply in_app_iff in Hx as [Hx | Hx].
          - apply keys_assign in Hx as [Hx | ->];
              apply in_app_iff; [left; exact Hx | right; left; reflexivity].
          - apply in_app_iff. right. right. exact Hx. }
        intros a b Ha Hb. apply Hinj; apply Hsub; assumption.
    + intros k' Hk'. apply Hinj; apply in_app_iff;
        [left; exact Hk' | right; left; reflexivity].
  - apply IH.
    + intros k' Hk'. apply Hfg. right. exact Hk'.
    + intros a b Ha Hb. apply Hinj; apply in_app_iff;
        [apply in_app_iff in Ha as [Ha | Ha] | apply in_app_iff in Hb as [Hb | Hb]];
        auto; right; right; assumption.
Qed.

Lemma convertParams_loop_id (q acc : UtmParameters) :
  all_defined q -> List.NoDup (keys acc ++ keys q) ->
  convertParams_loop (fun k => k) q acc = acc ++ q.
Proof.
  revert acc. induction q as [| [k v] r IH]; intros acc Hd Hnd; cbn [convertParams_loop].
  - symmetry. apply app_nil_r.
  - destruct v as [v |]; [| exfalso; apply (Hd k None); [left |]; reflexivity].
    rewrite assign_fresh.
    + rewrite IH.
      * rewrite <- app_assoc. reflexivity.
      * intros a b Hin. apply (Hd a b). right. exact Hin.
      * unfold keys in *. rewrite map_app, <- app_assoc. exact Hnd.
    + apply List.NoDup_remove_2 in Hnd. intros Hin. apply Hnd, in_app_iff. left. exact Hin.
Qed.

Lemma convertParams_compose (f g : string -> string) (p : UtmParameters) :
  (forall k, In k (keys p) -> f (g k) = f k) ->
  (forall a b, In a (keys p) -> In b (keys p) -> f (g a) = f (g b) -> g a = g b) ->
  convertParams_loop f (convertParams_loop g p []) [] = convertParams_loop f p [].
Proof.
  intros Hfg Hinj.
  destruct (convertParams_loop_spec g p []) as (Hnd & Hdef & Hkeys).
  specialize (Hnd (List.NoDup_nil _)).
  assert (Hdef' : all_defined (convertParams_loop g p [])).
  { apply Hdef. intros k v []. }
  set (q := convertParams_loop g p []) in *.
  assert (Hq : forall x, In x (keys q) -> exists k, In k (keys p) /\ x = g k).
  { intros x Hx. destruct (Hkeys x Hx) as [[] | H]. exact H. }
  change (convertParams_loop f q []) with (convertParams_loop f q (rename f [])).
  rewrite (convertParams_loop_rename f (fun k => k) q []).
  - rewrite convertParams_loop_id; [| exact Hdef' | exact Hnd].
    cbn [app]. unfold q.
    change (convertParams_loop f p []) with (convertParams_loop f p (rename f [])).
    symmetry. apply convertParams_loop_rename; [exact Hfg |].
    cbn [keys map app]. intros a b Ha Hb.
    apply in_map_iff in Ha as (a' & <- & Ha'). apply in_map_iff in Hb as (b' & <- & Hb').
    apply Hinj; assumption.
  - reflexivity.
  - cbn [keys map app]. rewrite map_id. intros a b Ha Hb.
    destruct (Hq a Ha) as (a' & Ha' & ->). destruct (Hq b Hb) as (b' & Hb' & ->).
    apply Hinj; assumption.
Qed.

(** ** Keys under conversion *)

Lemma table_get_In (t : list (string * string)) (k v : string) :
  table_get t k = Some v -> In (k, v) t.
Proof.
  induction t as [| [k' v'] r IH]; cbn; [discriminate |].
  destruct (String.eqb_spec k' k) as [-> | _].
  - intros [= ->]. left. reflexivity.
  - intros H. right. apply IH, H.
Qed.

Lemma snake_suffix_no_upper (s : string) :
  Js.all_chars not_upper (Js.toLowerCase (underscore_uppers s)) = true.
Proof.
  induction s as [| c r IH]; [reflexivity |].
  rewrite snake_suffix_cons. destruct (Js.is_upper c) eqn:E.
  - destruct (upper_of_lower _ E) as [Hl _].
    destruct (lower_not_underscore _ Hl) as [_ Hu].
    cbn [Js.all_chars]. unfold not_upper at 2. rewrite Hu, IH. reflexivity.
  - cbn [Js.all_chars]. unfold not_upper at 1. rewrite E, IH. reflexivity.
Qed.

Lemma lower_char_ascii (c : ascii) :
  Js.is_ascii c = true -> ascii_not_upper (Js.lower_char c) = true.
Proof. each_char c; vm_compute; intros H; try discriminate H; reflexivity. Qed.

Lemma snake_suffix_shape (s : string) :
  Js.all_chars Js.is_ascii s = true ->
  Js.all_chars ascii_not_upper (Js.toLowerCase (underscore_uppers s)) = true.
Proof.
  induction s as [| c r IH]; intros H; [reflexivity |].
  cbn [Js.all_chars] in H. apply andb_prop in H as [Hc Hr].
  rewrite snake_suffix_cons. destruct (Js.is_upper c) eqn:E.
  - cbn [Js.all_chars]. rewrite (lower_char_ascii _ Hc), (IH Hr). reflexivity.
  - cbn [Js.all_chars]. unfold ascii_not_upper at 1, not_upper.
    rewrite Hc, E, (IH Hr). reflexivity.
Qed.

Lemma snake_suffix_fixed (t : string) :
  Js.all_chars not_upper t = true -> Js.toLowerCase (underscore_uppers t) = t.
Proof.
  induction t as [| c r IH]; intros H; [reflexivity |].
  cbn [Js.all_chars] in H. apply andb_prop in H as [Hc Hr].
  apply negb_true_iff in Hc. rewrite snake_suffix_cons, Hc, (IH Hr). reflexivity.
Qed.

Lemma snake_suffix_nonempty (c : ascii) (r : string) :
  exists d t, Js.toLowerCase (underscore_uppers (String c r)) = String d t.
Proof. rewrite snake_suffix_cons. destruct (Js.is_upper c); eauto. Qed.

Lemma toSnakeCase_idempotent (key : string) :
  toSnakeCase (toSnakeCase key) = toSnakeCase key.
Proof.
  destruct (table_get CAMEL_TO_SNAKE key) as [v |] eqn:E.
  - assert (Hv : toSnakeCase key = v) by (unfold toSnakeCase; rewrite E; reflexivity).
    rewrite Hv. apply table_get_In in E. cbn in E.
    repeat (destruct E as [[= <- <-] | E]; [reflexivity |]). destruct E.
  - destruct (Js.startsWith key "utm" && (3 <? String.length key)) eqn:E2.
    + apply andb_prop in E2 as [Hp Hl]. apply Nat.ltb_lt in Hl.
      rewrite (toSnakeCase_generic _ Hp Hl).
      pose proof (startsWith_utm _ Hp) as Hk. unfold snake_of.
      destruct (Js.slice 3 key) as [| c r].
      { rewrite Hk in Hl. cbv [String.append String.length] in Hl. lia. }
      destruct (snake_suffix_nonempty c r) as (d & t & Ht).
      pose proof (snake_suffix_no_upper (String c r)) as Hno. rewrite Ht in Hno |- *.
      rewrite toSnakeCase_generic; [| reflexivity | long_enough].
      unfold snake_of. change (Js.slice 3 ("utm" +:+ String d t)) with (String d t).
      rewrite (snake_suffix_fixed _ Hno). reflexivity.
    + assert (Hv : toSnakeCase key = key)
        by (unfold toSnakeCase; rewrite E, E2; reflexivity).
      rewrite Hv. exact Hv.
Qed.

Lemma toSnakeCase_camel (c : ascii) (r : string) :
  Js.is_upper c = true ->
  toSnakeCase ("utm" +:+ String c r)
  = "utm_" +:+ String (Js.lower_char c) (Js.toLowerCase (underscore_uppers r)).
Proof.
  intros Hup. rewrite toSnakeCase_generic; [| reflexivity | long_enough].
  unfold snake_of. change (Js.slice 3 ("utm" +:+ String c r)) with (String c r).
  rewrite snake_suffix_cons, Hup. reflexivity.
Qed.

Lemma isUtmKey_toSnakeCase (key : string) :
  isUtmKey key = true -> isSnakeCaseUtmKey (toSnakeCase key) = true.
Proof.
  unfold isUtmKey. intros H. apply orb_prop in H as [H | H].
  - pose proof (startsWith_utm_ _ H) as Hk. rewrite Hk.
    rewrite toSnakeCase_generic; [| reflexivity | long_enough].
    unfold snake_of.
    change (Js.slice 3 ("utm_" +:+ Js.slice 4 key)) with (String "_" (Js.slice 4 key)).
    rewrite snake_suffix_cons.
    replace (Js.is_upper "_") with false by reflexivity.
    apply (startsWith_append "utm_").
  - destruct (isCamelCaseUtmKey_inv _ H) as (c & r & -> & Hup).
    rewrite (toSnakeCase_camel _ _ Hup). apply (startsWith_append "utm_").
Qed.

Lemma toSnakeCase_snake_shape (key : string) :
  isSnakeCaseUtmKey key = true -> snake_shape key = true -> toSnakeCase key = key.
Proof.
  intros Hs Hshape. pose proof (startsWith_utm_ _ Hs) as Hk.
  unfold snake_shape in Hshape.
  destruct (Js.slice 4 key) as [| c r]; subst key; [reflexivity |].
  apply andb_prop in Hshape as [Hc Hr]. apply ascii_not_upper_weaken in Hr.
  destruct (lower_not_underscore _ Hc) as [_ Hcu].
  rewrite toSnakeCase_generic; [| reflexivity | long_enough].
  unfold snake_of.
  change (Js.slice 3 ("utm_" +:+ String c r)) with (String "_" (String c r)).
  rewrite snake_suffix_fixed; [reflexivity |].
  cbn [Js.all_chars]. unfold not_upper at 2. rewrite Hcu, Hr. reflexivity.
Qed.

Lemma toCamelCase_camel (key : string) :
  isCamelCaseUtmKey key = true -> toCamelCase key = key.
Proof.
  intros Hc. unfold toCamelCase.
  destruct (table_get SNAKE_TO_CAMEL key) as [v |] eqn:E.
  - apply table_get_In in E. cbn in E.
    repeat (destruct E as [[= <- <-] | E]; [discriminate Hc |]). destruct E.
  - destruct (isCamelCaseUtmKey_inv _ Hc) as (c & r & -> & Hup).
    destruct (upper_not_underscore _ Hup) as [Hc_ _].
    assert (Hp : Js.startsWith ("utm" +:+ String c r) "utm_" = false).
    { apply not_true_is_false. intros Hp. unfold Js.startsWith in Hp.
      cbv [String.append] in Hp.
      do 3 (apply prefix_cons in Hp; destruct Hp as [_ Hp]).
      apply prefix_cons in Hp. destruct Hp as [<- _]. discriminate Hc_. }
    rewrite Hp. reflexivity.
Qed.

Lemma round_trip_key_snake (key : string) :
  round_trip_key key = true ->
  isSnakeCaseUtmKey (toSnakeCase key) = true
  /\ snake_shape (toSnakeCase key) = true
  /\ toCamelCase (toSnakeCase key) = toCamelCase key.
Proof.
  unfold round_trip_key. intros H.
  apply orb_prop in H as [H | H]; apply andb_prop in H as [Hk Hshape].
  - rewrite (toSnakeCase_snake_shape _ Hk Hshape). auto.
  - rewrite (camel_round_trip _ Hk Hshape), (toCamelCase_camel _ Hk).
    destruct (isCamelCaseUtmKey_inv _ Hk) as (c & r & -> & Hup).
    rewrite (toSnakeCase_camel _ _ Hup).
    destruct (upper_of_lower _ Hup) as [Hl _].
    unfold camel_shape in Hshape.
    change (Js.slice 3 ("utm" +:+ String c r)) with (String c r) in Hshape.
    apply andb_prop in Hshape as [Hascii _]. cbn [Js.all_chars] in Hascii.
    apply andb_prop in Hascii as [_ Hascii].
    split; [apply (startsWith_append "utm_") |]. split; [| reflexivity].
    unfold snake_shape.
    change (Js.slice 4 ("utm_" +:+ String (Js.lower_char c)
                                      (Js.toLowerCase (underscore_uppers r))))
      with (String (Js.lower_char c) (Js.toLowerCase (underscore_uppers r))).
    cbv beta iota. rewrite Hl, (snake_suffix_shape _ Hascii). reflexivity.
Qed.

Lemma convertParams_via_snake (p : UtmParameters) (f : KeyFormat) :
  f = snake_case \/ (forall k, In k (keys p) -> round_trip_key k = true) ->
  convertParams (convertParams p snake_case) f = convertParams p f.
Proof.
  intros H. unfold convertParams. apply convertParams_compose.
  - intros k Hk. destruct H as [-> | H]; [apply toSnakeCase_idempotent |].
    destruct f; [apply toSnakeCase_idempotent |].
    apply round_trip_key_snake, H, Hk.
  - intros a b Ha Hb Hab. cbn [converter] in Hab |- *.
    destruct f; cbn [converter] in Hab.
    + rewrite !toSnakeCase_idempotent in Hab. exact Hab.
    + destruct H as [[=] | H].
      destruct (round_trip_key_snake _ (H a Ha)) as (Ha1 & Ha2 & _).
      destruct (round_trip_key_snake _ (H b Hb)) as (Hb1 & Hb2 & _).
      rewrite <- (snake_round_trip _ Ha1 Ha2), <- (snake_round_trip _ Hb1 Hb2), Hab.
      reflexivity.
Qed.

(** ** Storing and reading back *)

Lemma as_params_json_of (q : UtmParameters) :
  all_defined q -> Storage.as_params (json_of q) = q.
Proof.
  induction q as [| [k [v |]] r IH]; intros Hd; cbn.
  - reflexivity.
  - f_equal. apply IH. intros a b Hin. apply (Hd a b). right. exact Hin.
  - exfalso. apply (Hd k None); [left |]; reflexivity.
Qed.

Lemma isValidStoredData_json_of (q : UtmParameters) :
  (forall k, In k (keys q) -> isUtmKey k = true) ->
  Storage.isValidStoredData (json_of q) None = true.
Proof.
  intros Hk. unfold json_of, Storage.isValidStoredData.
  assert (H : forallb (fun '(key, value) => Storage.is_string value && key_ok None key)
                (json_members q) = true).
  { induction q as [| [k [v |]] r IH]; cbn.
    - reflexivity.
    - rewrite (Hk k (or_introl eq_refl)). apply IH.
      intros k' Hin. apply Hk. right. exact Hin.
    - apply IH. intros k' Hin. apply Hk. right. exact Hin. }
  destruct (json_members q); [reflexivity | exact H].
Qed.

Lemma isValidUtmParameters_keys (p : UtmParameters) :
  isValidUtmParameters p None = true -> forall k, In k (keys p) -> isUtmKey k = true.
Proof.
  unfold isValidUtmParameters. intros H k Hk.
  destruct p as [| e r]; [destruct Hk |].
  rewrite forallb_forall in H. apply in_map_iff in Hk as ([k' v] & <- & Hin).
  apply (H _ Hin).
Qed.

Lemma stored_keys_valid (p : UtmParameters) :
  isValidUtmParameters p None = true ->
  forall k, In k (keys (convertParams p snake_case)) -> isUtmKey k = true.
Proof.
  intros Hvalid k Hk. unfold convertParams in Hk.
  destruct (convertParams_loop_spec toSnakeCase p []) as (_ & _ & Hkeys).
  destruct (Hkeys k Hk) as [[] | (k' & Hk' & ->)].
  unfold isUtmKey.
  rewrite (isUtmKey_toSnakeCase _ (isValidUtmParameters_keys _ Hvalid _ Hk')).
  reflexivity.
Qed.

(** What [getStoredUtmParameters] returns after [storeUtmParameters]: the
    parameters in the form they were stored in, converted to the requested
    format. *)
Lemma get_after_store
    throws JSON_parse (p : UtmParameters) (slot : string) (f : KeyFormat)
    (items : gmap string string) :
  let serialized := Storage.JSON_stringify (convertParams p snake_case) in
  let stored := <[slot := serialized]> (after_probe items) in
  p <> [] ->
  isValidUtmParameters p None = true ->
  slot <> Storage.testKey ->
  throws items Storage.testKey "test" = false ->
  throws (after_probe items) slot serialized = false ->
  throws stored Storage.testKey "test" = false ->
  JSON_parse serialized = Some (json_of (convertParams p snake_case)) ->
  fst (Storage.getStoredUtmParameters throws JSON_parse
         {| storageKey := Some slot; keyFormat := Some f |}
         (Storage.storeUtmParameters throws p
            {| storageKey := Some slot; keyFormat := None |} (Some items)))
  = Normal (Some (convertParams (convertParams p snake_case) f)).
Proof.
  intros serialized stored Hne Hvalid Hslot Hprobe1 Hwrite Hprobe2 Hjson.
  assert (Hstore : Storage.storeUtmParameters throws p
                     {| storageKey := Some slot; keyFormat := None |} (Some items)
                   = Some stored).
  { unfold Storage.storeUtmParameters.
    rewrite (isStorageAvailable_ok _ _ Hprobe1).
    destruct p as [| e r]; [contradiction Hne; reflexivity |].
    cbn [keys map length Nat.eqb storageKey keyFormat default from_option id].
    unfold Storage.setItem. fold serialized. rewrite Hwrite. reflexivity. }
  rewrite Hstore. unfold Storage.getStoredUtmParameters.
  rewrite (isStorageAvailable_ok _ _ Hprobe2).
  cbn [fst storageKey keyFormat default from_option id]. f_equal.
  rewrite (after_probe_lookup _ _ Hslot). unfold stored.
  rewrite lookup_insert_eq, Hjson. cbn [bind].
  rewrite (isValidStoredData_json_of _ (stored_keys_valid _ Hvalid)).
  cbn [negb try_catch]. rewrite as_params_json_of; [reflexivity |].
  unfold convertParams.
  destruct (convertParams_loop_spec toSnakeCase p []) as (_ & Hd & _).
  apply Hd. intros k v [].
Qed.

(** C2 (as amended).  For a non-empty valid parameter set, a slot other
    than the key of the availability probe, storage that accepts the writes
    and [JSON.parse] reading back what was written: [getStoredUtmParameters]
    with format [f] after [storeUtmParameters] gives the set converted to
    [f], provided [f] is the underscore convention or every key of the set
    has the round-trip shape. *)
Theorem store_then_get
    throws JSON_parse (p : UtmParameters) (slot : string) (f : KeyFormat)
    (items : gmap string string)
    (Hnonempty : p <> [])
    (Hvalid : isValidUtmParameters p None = true)
    (Hslot : slot <> Storage.testKey)
    (Hprobe1 : throws items Storage.testKey "test" = false)
    (Hwrite : throws (after_probe items) slot
                (Storage.JSON_stringify (convertParams p snake_case)) = false)
    (Hprobe2 : throws (<[slot := Storage.JSON_stringify (convertParams p snake_case)]>
                         (after_probe items)) Storage.testKey "test" = false)
    (Hjson : JSON_parse (Storage.JSON_stringify (convertParams p snake_case))
             = Some (json_of (convertParams p snake_case)))
    (Hshape : f = snake_case \/ (forall k, In k (keys p) -> round_trip_key k = true)) :
  fst (Storage.getStoredUtmParameters throws JSON_parse
         {| storageKey := Some slot; keyFormat := Some f |}
         (Storage.storeUtmParameters throws p
            {| storageKey := Some slot; keyFormat := None |} (Some items)))
  = Normal (Some (convertParams p f)).
Proof.
  rewrite (get_after_store throws JSON_parse p slot f items) by assumption.
  rewrite (convertParams_via_snake p f Hshape). reflexivity.
Qed.

Lemma store_then_get_witness :
  fst (Storage.getStoredUtmParameters (fun _ _ _ => false)
         (parse_only (Storage.JSON_stringify [("utm_team_id", Some "a")])
                     (JObject [("utm_team_id", JString "a")]))
         {| storageKey := Some "slot"; keyFormat := Some camelCase |}
         (Storage.storeUtmParameters (fun _ _ _ => false) [("utmTeamId", Some "a")]
            {| storageKey := Some "slot"; keyFormat := None |} (Some ∅)))
  = Normal (Some [("utmTeamId", Some "a")]).
Proof.
  apply (store_then_get (fun _ _ _ => false)
           (parse_only (Storage.JSON_stringify [("utm_team_id", Some "a")])
                       (JObject [("utm_team_id", JString "a")]))
           [("utmTeamId", Some "a")] "slot" camelCase ∅).
  - discriminate.
  - reflexivity.
  - discriminate.
  - reflexivity.
  - reflexivity.
  - reflexivity.
  - reflexivity.
  - right. intros k [<- | []]. reflexivity.
Defined.

(** C2 (as stated) fails.  The set is stored in the underscore convention,
    so a compact key holding an underscore before a lower-case letter comes
    back as another key; and the slot named like the key of the probe is
    wiped by the probe that precedes the read. *)
Lemma store_then_get_counterexample :
  (isValidUtmParameters [("utmA_b", Some "x")] None = true
   /\ fst (Storage.getStoredUtmParameters (fun _ _ _ => false)
             (parse_only (Storage.JSON_stringify [("utm_a_b", Some "x")])
                         (JObject [("utm_a_b", JString "x")]))
             {| storageKey := Some "utm_parameters"; keyFormat := Some camelCase |}
             (Storage.storeUtmParameters (fun _ _ _ => false) [("utmA_b", Some "x")]
                {| storageKey := Some "utm_parameters"; keyFormat := None |} (Some ∅)))
      = Normal (Some [("utmAB", Some "x")])
   /\ convertParams [("utmA_b", Some "x")] camelCase = [("utmA_b", Some "x")])
  /\ fst (Storage.getStoredUtmParameters (fun _ _ _ => false)
            (parse_only (Storage.JSON_stringify [("utm_source", Some "x")])
                        (JObject [("utm_source", JString "x")]))
            {| storageKey := Some "__utm_test__"; keyFormat := Some snake_case |}
            (Storage.storeUtmParameters (fun _ _ _ => false) [("utm_source", Some "x")]
               {| storageKey := Some "__utm_test__"; keyFormat := None |} (Some ∅)))
     = Normal None.
Proof. repeat split; vm_compute; reflexivity. Qed.

(** ** Capture *)

Lemma set_has_In (allowed : list string) (key : string) :
  Capture.set_has allowed key = true <-> In key allowed.
Proof.
  unfold Capture.set_has. rewrite existsb_exists. split.
  - intros (x & Hin & Heq). apply String.eqb_eq in Heq. subst x. exact Hin.
  - intros Hin. exists key. split; [exact Hin | apply String.eqb_refl].
Qed.

Lemma capture_fold_keys (allowedSet : option (list string))
    (entries : list (string * string)) (acc : UtmParameters) (x : string) :
  In x (keys (fold_left (Capture.capture_step allowedSet) entries acc))
  <-> In x (keys acc)
      \/ (In x (map fst entries) /\ isSnakeCaseUtmKey x = true
          /\ match allowedSet with None => True | Some allowed => In x allowed end).
Proof.
  revert acc. induction entries as [| [k v] r IH]; intros acc; cbn [fold_left map].
  - cbn. intuition.
  - rewrite IH. clear IH. cbn [fst In Capture.capture_step].
    destruct (isSnakeCaseUtmKey k) eqn:Ek.
    + destruct allowedSet as [allowed |].
      * destruct (Capture.set_has allowed k) eqn:Ea.
        -- apply set_has_In in Ea. rewrite keys_assign. intuition (subst; auto).
        -- assert (~ In k allowed) by (rewrite <- set_has_In; congruence).
           intuition (subst; auto; contradiction).
      * rewrite keys_assign. intuition (subst; auto).
    + intuition (subst; auto; congruence).
Qed.

Lemma capture_loop_keys (allowedSet : option (list string))
    (entries : list (string * string)) (x : string) :
  In x (keys (Capture.capture_loop allowedSet entries))
  <-> In x (map fst entries) /\ isSnakeCaseUtmKey x = true
      /\ match allowedSet with None => True | Some allowed => In x allowed end.
Proof.
  unfold Capture.capture_loop.
  rewrite capture_fold_keys. cbn. intuition.
Qed.

Lemma capture_fold_defined (allowedSet : option (list string))
    (entries : list (string * string)) (acc : UtmParameters) :
  all_defined acc -> all_defined (fold_left (Capture.capture_step allowedSet) entries acc).
Proof.
  revert acc. induction entries as [| [k v] r IH]; intros acc Hd; [exact Hd |].
  cbn [fold_left]. apply IH. unfold Capture.capture_step.
  destruct (isSnakeCaseUtmKey k); [| exact Hd].
  destruct (match allowedSet with None => true | Some a => Capture.set_has a k end);
    [apply all_defined_assign, Hd | exact Hd].
Qed.

Lemma convertParams_loop_keys conv (p acc : UtmParameters) (x : string) :
  all_defined p ->
  In x (keys (convertParams_loop conv p acc))
  <-> In x (keys acc) \/ exists k, In k (keys p) /\ x = conv k.
Proof.
  revert acc. induction p as [| [k v] r IH]; intros acc Hd; cbn [convertParams_loop].
  - cbn. split; [auto | intros [H | (k & [] & _)]; exact H].
  - assert (Hr : all_defined r) by (intros a b Hin; apply (Hd a b); right; exact Hin).
    destruct v as [v |]; [| exfalso; apply (Hd k None); [left |]; reflexivity].
    rewrite (IH _ Hr), keys_assign. cbn [keys map fst In]. split.
    + intros [[H | ->] | (k' & Hk' & ->)]; eauto 6.
    + intros [H | (k' & [<- | Hk'] & ->)]; eauto 6.
Qed.

(** C4 (as amended).  For a URL that parses, [captureUtmParameters]
    includes a query key exactly when the key starts with [utm_] and,
    whenever a non-empty allowlist is given, the key is in that allowlist;
    an empty allowlist filters nothing.  With the compact format requested,
    the key appears converted. *)
Theorem capture_filter
    (parser : string -> option URL.record) (href url : option string)
    (options : CaptureOptions) (r : URL.record) (key' : string)
    (Hurl : Encoding.nonempty
              (match url with Some u => u | None => default "" href end) = true)
    (Hparse : parser (match url with Some u => u | None => default "" href end)
              = Some r) :
  In key' (keys (Capture.captureUtmParameters (Some parser) href url options))
  <-> exists key,
        In key (URLSearchParams.names
                  (Encoding.parse_urlencoded (default "" (URL.query r))))
        /\ isSnakeCaseUtmKey key = true
        /\ allowed_ok (allowedParameters options) key
        /\ key' = output_key (default snake_case (capture_keyFormat options)) key.
Proof.
  unfold Capture.captureUtmParameters. rewrite Hurl. cbn [negb].
  unfold URL.new. rewrite Hparse. cbn [bind try_catch URL.searchParams].
  unfold URLSearchParams.entries, URLSearchParams.names.
  set (entries := Encoding.parse_urlencoded (default "" (URL.query r))).
  set (allowedSet := match allowedParameters options with
                     | Some ((_ :: _) as allowed) => Some allowed
                     | _ => None
                     end).
  assert (Hallowed : forall key,
             match allowedSet with None => True | Some allowed => In key allowed end
             <-> allowed_ok (allowedParameters options) key).
  { intros key. unfold allowedSet, allowed_ok.
    destruct (allowedParameters options) as [[| a l] |]; reflexivity. }
  destruct (default snake_case (capture_keyFormat options)); cbn [output_key].
  - rewrite capture_loop_keys. split.
    + intros (H1 & H2 & H3). exists key'. rewrite <- Hallowed. auto.
    + intros (key & H1 & H2 & H3 & ->). rewrite Hallowed. auto.
  - unfold convertParams. rewrite convertParams_loop_keys.
    + cbn [keys map In converter]. split.
      * intros [[] | (key & Hk & ->)]. apply capture_loop_keys in Hk as (H1 & H2 & H3).
        exists key. rewrite <- Hallowed. auto.
      * intros (key & H1 & H2 & H3 & ->). right. exists key. split; [| reflexivity].
        apply capture_loop_keys. rewrite Hallowed. auto.
    + apply capture_fold_defined. intros k v [].
Qed.

Lemma capture_filter_witness :
  In "utm_source"
     (keys (Capture.captureUtmParameters
              (Some (parser_of
                       [("https://example.com/?utm_source=a&utm_term=b&ref=c",
                         http_url "example.com" "/"
                           (Some "utm_source=a&utm_term=b&ref=c") None)]))
              None (Some "https://example.com/?utm_source=a&utm_term=b&ref=c")
              {| capture_keyFormat := None;
                 allowedParameters := Some ["utm_source"] |}))
  <-> exists key,
        In key (URLSearchParams.names
                  (Encoding.parse_urlencoded "utm_source=a&utm_term=b&ref=c"))
        /\ isSnakeCaseUtmKey key = true
        /\ allowed_ok (Some ["utm_source"]) key
        /\ "utm_source" = output_key snake_case key.
Proof.
  apply (capture_filter
           (parser_of
              [("https://example.com/?utm_source=a&utm_term=b&ref=c",
                 http_url "example.com" "/" (Some "utm_source=a&utm_term=b&ref=c") None)])
           None (Some "https://example.com/?utm_source=a&utm_term=b&ref=c")
           {| capture_keyFormat := None; allowedParameters := Some ["utm_source"] |}
           (http_url "example.com" "/" (Some "utm_source=a&utm_term=b&ref=c") None)
           "utm_source").
  - reflexivity.
  - reflexivity.
Defined.

(** C4 (as stated) fails: with the empty allowlist no key is a member of
    the allowlist, and [utm_source] is captured all the same. *)
Lemma capture_filter_counterexample :
  Capture.captureUtmParameters
    (Some (parser_of [("https://example.com/?utm_source=a",
                        http_url "example.com" "/" (Some "utm_source=a") None)]))
    None (Some "https://example.com/?utm_source=a")
    {| capture_keyFormat := None; allowedParameters := Some [] |}
  = [("utm_source", Some "a")]
  /\ ~ In "utm_source" (@nil string).
Proof. split; [reflexivity | intros []]. Qed.

(** ** Encoders and decoders *)

Lemma percent_byte_token (c : ascii) (rest : string) :
  Js.all_chars token_char (Encoding.percent_byte c rest) = Js.all_chars token_char rest.
Proof. each_char c; reflexivity. Qed.

Lemma uri_unreserved_token (c : ascii) :
  Encoding.uri_unreserved c = true ->
  token_char c = true /\ Ascii.eqb c "%" = false /\ Ascii.eqb c "+" = false.
Proof. each_char c; vm_compute; intros H; try discriminate H; auto. Qed.

Lemma form_unreserved_token (c : ascii) :
  Encoding.form_unreserved c = true ->
  token_char c = true /\ Ascii.eqb c "%" = false /\ Ascii.eqb c "+" = false.
Proof. each_char c; vm_compute; intros H; try discriminate H; auto. Qed.

Lemma encodeURIComponent_token (s : string) :
  Js.all_chars token_char (Encoding.encodeURIComponent s) = true.
Proof.
  unfold Encoding.encodeURIComponent.
  induction s as [| c s IH]; [reflexivity |]. cbn [Encoding.percent_encode].
  destruct (Encoding.uri_unreserved c) eqn:E.
  - destruct (uri_unreserved_token _ E) as (Ht & _).
    cbn [Js.all_chars]. rewrite Ht, IH. reflexivity.
  - rewrite percent_byte_token. exact IH.
Qed.

Lemma form_encode_token (s : string) :
  Js.all_chars token_char (Encoding.form_encode s) = true.
Proof.
  induction s as [| c s IH]; [reflexivity |]. cbn [Encoding.form_encode].
  destruct (Ascii.eqb c " "); [exact IH |].
  destruct (Encoding.form_unreserved c) eqn:E.
  - destruct (form_unreserved_token _ E) as (Ht & _).
    cbn [Js.all_chars]. rewrite Ht, IH. reflexivity.
  - rewrite percent_byte_token. exact IH.
Qed.

Lemma percent_decode_plain (c : ascii) (r : string) :
  Ascii.eqb c "%" = false ->
  Encoding.percent_decode (String c r) = String c (Encoding.percent_decode r).
Proof.
  intros H. cbn [Encoding.percent_decode]. rewrite H.
  destruct r as [| h [| l r']]; reflexivity.
Qed.

Lemma form_decode_plain (c : ascii) (r : string) :
  Ascii.eqb c "%" = false -> Ascii.eqb c "+" = false ->
  Encoding.form_decode (String c r) = String c (Encoding.form_decode r).
Proof.
  intros H1 H2. unfold Encoding.form_decode. cbn [Js.map_chars].
  unfold Encoding.plus_to_space at 1. rewrite H2. apply percent_decode_plain, H1.
Qed.

Lemma form_decode_byte (c : ascii) (rest : string) :
  Encoding.form_decode (Encoding.percent_byte c rest)
  = String c (Encoding.form_decode rest).
Proof. each_char c; reflexivity. Qed.

Lemma form_decode_uri (s : string) :
  Encoding.form_decode (Encoding.encodeURIComponent s) = s.
Proof.
  unfold Encoding.encodeURIComponent.
  induction s as [| c s IH]; [reflexivity |]. cbn [Encoding.percent_encode].
  destruct (Encoding.uri_unreserved c) eqn:E.
  - destruct (uri_unreserved_token _ E) as (_ & H1 & H2).
    rewrite (form_decode_plain _ _ H1 H2), IH. reflexivity.
  - rewrite form_decode_byte, IH. reflexivity.
Qed.

Lemma form_decode_form (s : string) :
  Encoding.form_decode (Encoding.form_encode s) = s.
Proof.
  induction s as [| c s IH]; [reflexivity |]. cbn [Encoding.form_encode].
  destruct (Ascii.eqb_spec c " ") as [-> | _].
  - change (Encoding.form_decode (String "+" (Encoding.form_encode s)))
      with (Encoding.percent_decode
              (String " " (Js.map_chars Encoding.plus_to_space (Encoding.form_encode s)))).
    rewrite percent_decode_plain by reflexivity.
    fold (Encoding.form_decode (Encoding.form_encode s)). rewrite IH. reflexivity.
  - destruct (Encoding.form_unreserved c) eqn:E.
    + destruct (form_unreserved_token _ E) as (_ & H1 & H2).
      rewrite (form_decode_plain _ _ H1 H2), IH. reflexivity.
    + rewrite form_decode_byte, IH. reflexivity.
Qed.

Lemma token_excludes (c : ascii) (s : string) :
  token_char c = false -> Js.all_chars token_char s = true -> Js.includes c s = false.
Proof. apply all_chars_excludes. Qed.

Lemma encodeURIComponent_nonempty (s : string) :
  s <> "" -> Encoding.encodeURIComponent s <> "".
Proof.
  destruct s as [| c s]; [congruence |]. intros _.
  unfold Encoding.encodeURIComponent. cbn [Encoding.percent_encode].
  destruct (Encoding.uri_unreserved c); discriminate.
Qed.

(** One pair, rendered and parsed again. *)
Lemma parse_serialize_pair (p : string * string) :
  Encoding.parse_pair (Encoding.serialize_pair p) = p.
Proof.
  destruct p as [n v]. unfold Encoding.parse_pair, Encoding.serialize_pair. cbn [fst snd].
  change ("=" +:+ Encoding.form_encode v) with (String "=" (Encoding.form_encode v)).
  rewrite cut_at by (apply token_excludes; [reflexivity | apply form_encode_token]).
  rewrite !form_decode_form. reflexivity.
Qed.

Lemma parse_buildQueryString_pair (p : string * string) :
  Encoding.parse_pair (Appender.buildQueryString_pair p) = p.
Proof.
  destruct p as [k v]. unfold Encoding.parse_pair, Appender.buildQueryString_pair.
  destruct (String.eqb_spec v "") as [-> | _].
  - rewrite cut_absent by (apply token_excludes; [reflexivity | apply encodeURIComponent_token]).
    rewrite form_decode_uri. reflexivity.
  - change ("=" +:+ Encoding.encodeURIComponent v)
      with (String "=" (Encoding.encodeURIComponent v)).
    rewrite cut_at by (apply token_excludes; [reflexivity | apply encodeURIComponent_token]).
    rewrite !form_decode_uri. reflexivity.
Qed.

Lemma token_query_chars (s : string) :
  Js.all_chars token_char s = true -> Js.all_chars query_char s = true.
Proof.
  apply all_chars_weaken. intros c H. unfold query_char. rewrite H. reflexivity.
Qed.

Lemma serialize_pair_chars (p : string * string) :
  Js.all_chars query_char (Encoding.serialize_pair p) = true
  /\ Js.includes "&" (Encoding.serialize_pair p) = false
  /\ Encoding.nonempty (Encoding.serialize_pair p) = true.
Proof.
  destruct p as [n v]. unfold Encoding.serialize_pair. cbn [fst snd].
  pose proof (form_encode_token n) as Hn. pose proof (form_encode_token v) as Hv.
  split; [| split].
  - rewrite !all_chars_app, (token_query_chars _ Hn), (token_query_chars _ Hv).
    reflexivity.
  - rewrite !includes_app.
    rewrite (token_excludes "&" _ eq_refl Hn), (token_excludes "&" _ eq_refl Hv).
    reflexivity.
  - apply nonempty_true. destruct (Encoding.form_encode n); discriminate.
Qed.

Lemma buildQueryString_pair_chars (p : string * string) :
  Js.all_chars query_char (Appender.buildQueryString_pair p) = true
  /\ Js.includes "&" (Appender.buildQueryString_pair p) = false.
Proof.
  destruct p as [k v]. unfold Appender.buildQueryString_pair.
  pose proof (encodeURIComponent_token k) as Hk.
  pose proof (encodeURIComponent_token v) as Hv.
  pose proof token_query_chars as Hw.
  destruct (String.eqb v "").
  - split; [apply Hw, Hk | apply (token_excludes "&" _ eq_refl Hk)].
  - split.
    + rewrite !all_chars_app, (Hw _ Hk), (Hw _ Hv). reflexivity.
    + rewrite !includes_app.
      rewrite (token_excludes "&" _ eq_refl Hk), (token_excludes "&" _ eq_refl Hv).
      reflexivity.
Qed.

Lemma buildQueryString_pair_nonempty (p : string * string) :
  p <> ("", "") -> Encoding.nonempty (Appender.buildQueryString_pair p) = true.
Proof.
  destruct p as [k v]. intros Hp. unfold Appender.buildQueryString_pair.
  apply nonempty_true. destruct (String.eqb_spec v "") as [-> | Hv].
  - apply encodeURIComponent_nonempty. congruence.
  - intros H. apply (f_equal String.length) in H.
    assert (Hlen : forall a b, String.length (a +:+ b) = String.length a + String.length b).
    { intros a b. induction a as [| c a IH]; [reflexivity |].
      rewrite append_cons. cbn [String.length]. rewrite IH. reflexivity. }
    rewrite !Hlen in H. cbn in H. lia.
Qed.

(** ** Lists of pairs: parsing what was rendered *)

Lemma parse_rendered (render : string * string -> string) (l : list (string * string)) :
  (forall p, In p l ->
             Encoding.nonempty (render p) = true
             /\ Js.includes "&" (render p) = false
             /\ Encoding.parse_pair (render p) = p) ->
  Encoding.parse_urlencoded (Encoding.join "&" (map render l)) = l.
Proof.
  intros H. unfold Encoding.parse_urlencoded.
  destruct l as [| p r]; [reflexivity |].
  rewrite split_join.
  - remember (p :: r) as l eqn:El. clear El p r.
    induction l as [| p r IH]; [reflexivity |].
    destruct (H p (or_introl eq_refl)) as (H1 & _ & H3).
    cbn [map List.filter]. rewrite H1. cbn [map]. rewrite H3. f_equal.
    apply IH. intros q Hq. apply H. right. exact Hq.
  - discriminate.
  - apply List.Forall_forall. intros x Hx. apply in_map_iff in Hx as (q & <- & Hq).
    apply (H q Hq).
Qed.

Lemma parse_serialize (l : list (string * string)) :
  Encoding.parse_urlencoded (Encoding.serialize_urlencoded l) = l.
Proof.
  apply parse_rendered. intros p _.
  destruct (serialize_pair_chars p) as (_ & H2 & H3).
  split; [exact H3 | split; [exact H2 | apply parse_serialize_pair]].
Qed.

Lemma parse_buildQueryString (l : list (string * string)) :
  ~ In ("", "") l ->
  Encoding.parse_urlencoded (Appender.buildQueryString l) = l.
Proof.
  intros Hl. apply parse_rendered. intros p Hp.
  split; [| split].
  - apply buildQueryString_pair_nonempty. intros ->. exact (Hl Hp).
  - apply buildQueryString_pair_chars.
  - apply parse_buildQueryString_pair.
Qed.

Lemma serialize_chars (l : list (string * string)) :
  Js.all_chars query_char (Encoding.serialize_urlencoded l) = true.
Proof.
  apply all_chars_join; [reflexivity |].
  apply List.Forall_forall. intros x Hx. apply in_map_iff in Hx as (p & <- & _).
  apply serialize_pair_chars.
Qed.

Lemma buildQueryString_chars (l : list (string * string)) :
  Js.all_chars query_char (Appender.buildQueryString l) = true.
Proof.
  apply all_chars_join; [reflexivity |].
  apply List.Forall_forall. intros x Hx. apply in_map_iff in Hx as (p & <- & _).
  apply buildQueryString_pair_chars.
Qed.

Lemma serialize_nonempty (l : list (string * string)) :
  l <> [] -> Encoding.nonempty (Encoding.serialize_urlencoded l) = true.
Proof.
  destruct l as [| p r]; [congruence |]. intros _.
  unfold Encoding.serialize_urlencoded.
  destruct (serialize_pair_chars p) as (_ & _ & H). apply nonempty_true in H.
  apply nonempty_true. destruct r as [| q r]; cbn [map]; [exact H |].
  rewrite join_cons2. destruct (Encoding.serialize_pair p); [congruence | discriminate].
Qed.

(** A rendered list does not start with a question mark, so the
    constructor of [URLSearchParams] parses all of it. *)
Lemma new_rendered (s : string) :
  Js.all_chars query_char s = true ->
  URLSearchParams.new s = Encoding.parse_urlencoded s.
Proof.
  destruct s as [| c s]; [reflexivity |]. cbn [Js.all_chars]. intros H.
  apply andb_prop in H as [Hc _]. unfold URLSearchParams.new.
  destruct (Ascii.eqb_spec c "?") as [-> | Hne]; [discriminate Hc |].
  each_char c; try reflexivity. contradiction Hne. reflexivity.
Qed.

(** ** URLSearchParams *)

Lemma has_names (l : URLSearchParams.t) (name : string) :
  URLSearchParams.has l name = true <-> In name (URLSearchParams.names l).
Proof.
  unfold URLSearchParams.has, URLSearchParams.names. rewrite existsb_exists, in_map_iff.
  split.
  - intros (p & H1 & H2). apply String.eqb_eq in H2. eauto.
  - intros (p & H1 & H2). exists p. split; [exact H2 | apply String.eqb_eq, H1].
Qed.

Lemma names_delete (l : URLSearchParams.t) (name x : string) :
  In x (URLSearchParams.names (URLSearchParams.delete l name))
  <-> In x (URLSearchParams.names l) /\ x <> name.
Proof.
  unfold URLSearchParams.names, URLSearchParams.delete.
  rewrite !in_map_iff. split.
  - intros (p & <- & Hp). apply filter_In in Hp as [Hp Hne].
    apply negb_true_iff, String.eqb_neq in Hne. eauto.
  - intros ((p & <- & Hp) & Hne). exists p. split; [reflexivity |].
    apply filter_In. split; [exact Hp |]. apply negb_true_iff, String.eqb_neq, Hne.
Qed.

Lemma has_delete (l : URLSearchParams.t) (name : string) :
  URLSearchParams.has (URLSearchParams.delete l name) name = false.
Proof.
  apply not_true_is_false. rewrite has_names, names_delete. intros [_ H]. congruence.
Qed.

Lemma set_absent (l : URLSearchParams.t) (name value : string) :
  URLSearchParams.has l name = false ->
  URLSearchParams.set l name value = l ++ [(name, value)].
Proof.
  induction l as [| [n v] r IH]; intros H; [reflexivity |].
  cbn in H. apply orb_false_elim in H as [Hn Hr].
  cbn [URLSearchParams.set]. rewrite Hn, (IH Hr). reflexivity.
Qed.

Lemma delete_absent (l : URLSearchParams.t) (name : string) :
  ~ In name (URLSearchParams.names l) -> URLSearchParams.delete l name = l.
Proof.
  induction l as [| [n v] r IH]; intros H; [reflexivity |].
  cbn in H. cbn [URLSearchParams.delete List.filter fst].
  destruct (String.eqb_spec n name) as [-> | _]; [tauto |].
  cbn [negb]. f_equal. apply IH. tauto.
Qed.

Lemma delete_app (l1 l2 : URLSearchParams.t) (name : string) :
  URLSearchParams.delete (l1 ++ l2) name
  = URLSearchParams.delete l1 name ++ URLSearchParams.delete l2 name.
Proof. apply List.filter_app. Qed.

Lemma names_fold_delete (ks : list string) (l : URLSearchParams.t) (x : string) :
  In x (URLSearchParams.names (fold_left URLSearchParams.delete ks l))
  <-> In x (URLSearchParams.names l) /\ ~ In x ks.
Proof.
  revert l. induction ks as [| k ks IH]; intros l; cbn [fold_left].
  - cbn. tauto.
  - rewrite IH, names_delete. cbn. intuition congruence.
Qed.

Lemma fold_delete_absent (ks : list string) (l : URLSearchParams.t) :
  (forall k, In k ks -> ~ In k (URLSearchParams.names l)) ->
  fold_left URLSearchParams.delete ks l = l.
Proof.
  revert l. induction ks as [| k ks IH]; intros l H; [reflexivity |].
  cbn [fold_left]. rewrite delete_absent by (apply H; left; reflexivity).
  apply IH. intros k' Hk'. apply H. right. exact Hk'.
Qed.

Lemma fold_delete_app (ks : list string) (l1 l2 : URLSearchParams.t) :
  fold_left URLSearchParams.delete ks (l1 ++ l2)
  = fold_left URLSearchParams.delete ks l1 ++ fold_left URLSearchParams.delete ks l2.
Proof.
  revert l1 l2. induction ks as [| k ks IH]; intros l1 l2; [reflexivity |].
  cbn [fold_left]. rewrite delete_app. apply IH.
Qed.

(** ** URL objects under the operations of the appender *)

Lemma query_fold (pe : bool) (sp : UtmParameters) (u : URL.t) :
  URL.searchParams (fold_left (Appender.query_step pe) sp u)
  = fold_left (Appender.fragment_step pe) sp (URL.searchParams u)
  /\ outside_query (URL.url (fold_left (Appender.query_step pe) sp u))
     = outside_query (URL.url u).
Proof.
  revert u. induction sp as [| [k [v |]] r IH]; intros u; cbn [fold_left].
  - split; reflexivity.
  - destruct (IH (Appender.query_step pe u (k, Some v))) as [H1 H2].
    rewrite H1, H2. clear IH H1 H2.
    unfold Appender.query_step, Appender.fragment_step.
    destruct (pe && URLSearchParams.has (URL.searchParams u) k); split; reflexivity.
  - apply IH.
Qed.

Lemma delete_fold (ks : list string) (u : URL.t) :
  URL.searchParams (fold_left URL.searchParams_delete ks u)
  = fold_left URLSearchParams.delete ks (URL.searchParams u)
  /\ outside_query (URL.url (fold_left URL.searchParams_delete ks u))
     = outside_query (URL.url u)
  /\ (ks <> [] ->
      URL.query (URL.url (fold_left URL.searchParams_delete ks u))
      = query_of_list (fold_left URLSearchParams.delete ks (URL.searchParams u))).
Proof.
  revert u. induction ks as [| k ks IH]; intros u; cbn [fold_left].
  - repeat split. congruence.
  - destruct (IH (URL.searchParams_delete u k)) as (H1 & H2 & H3).
    rewrite H1, H2. repeat split. intros _.
    destruct ks as [| k' ks]; [reflexivity |].
    apply H3. discriminate.
Qed.

Lemma query_char_fragment (c : ascii) :
  query_char c = true ->
  URL.fragment_keep c = true /\ URL.is_tab_or_newline c = false
  /\ Ascii.eqb c "#" = false /\ Ascii.eqb c "?" = false.
Proof. each_char c; vm_compute; intros H; try discriminate H; auto. Qed.

Lemma percent_encode_kept (keep : ascii -> bool) (s : string) :
  Js.all_chars keep s = true -> Encoding.percent_encode keep s = s.
Proof.
  induction s as [| c s IH]; [reflexivity |]. cbn [Js.all_chars Encoding.percent_encode].
  intros H. apply andb_prop in H as [Hc Hs]. rewrite Hc, (IH Hs). reflexivity.
Qed.

Lemma remove_chars_none (p : ascii -> bool) (s : string) :
  Js.all_chars (fun c => negb (p c)) s = true -> URL.remove_chars p s = s.
Proof.
  induction s as [| c s IH]; [reflexivity |]. cbn [Js.all_chars URL.remove_chars].
  intros H. apply andb_prop in H as [Hc Hs]. apply negb_true_iff in Hc.
  rewrite Hc, (IH Hs). reflexivity.
Qed.

Lemma query_chars_no_delimiter (s : string) :
  Js.all_chars query_char s = true ->
  Js.includes "#" s = false /\ Js.includes "?" s = false.
Proof.
  intros H. split; apply (all_chars_excludes query_char); auto.
Qed.

(** Setting the hash to a rendered list stores it as it is. *)
Lemma set_hash_rendered (u : URL.t) (s : string) :
  Js.all_chars query_char s = true ->
  URL.set_hash u s
  = {| URL.url := URL.with_fragment (URL.url u)
                    (if Encoding.nonempty s then Some s else None);
       URL.searchParams := URL.searchParams u |}.
Proof.
  intros H. destruct s as [| c s]; [reflexivity |].
  unfold URL.set_hash. cbn [Encoding.nonempty].
  assert (Hin : match String c s with String "#" r => r | _ => String c s end = String c s).
  { cbn [Js.all_chars] in H. apply andb_prop in H as [Hc _].
    destruct (query_char_fragment _ Hc) as (_ & _ & Hh & _).
    each_char c; try reflexivity. discriminate Hh. }
  rewrite Hin, remove_chars_none, percent_encode_kept; [reflexivity | |].
  - revert H. apply all_chars_weaken. intros d Hd. apply (query_char_fragment _ Hd).
  - revert H. apply all_chars_weaken. intros d Hd.
    destruct (query_char_fragment _ Hd) as (_ & -> & _). reflexivity.
Qed.

Lemma slice_hash_string (f : option string) :
  Js.slice 1 (hash_string f) = match f with Some x => x | None => "" end.
Proof. destruct f as [[| c x] |]; reflexivity. Qed.

Lemma get_hash_string (u : URL.t) : URL.get_hash u = hash_string (URL.fragment (URL.url u)).
Proof. reflexivity. Qed.

(** [appendToQuery], as the string it builds. *)
Lemma appendToQuery_eq (u : URL.t) (sp : UtmParameters) (pe : bool) :
  Appender.appendToQuery u sp pe
  = URL.scheme (URL.url u) +:+ ":" +:+ "//" +:+ default "" (URL.host (URL.url u))
    +:+ URL.pathname (URL.url u)
    +:+ (let qs := Appender.buildQueryString
                     (fold_left (Appender.fragment_step pe) sp (URL.searchParams u)) in
         if Encoding.nonempty qs then "?" +:+ qs else "")
    +:+ hash_string (fragment_after_query (URL.fragment (URL.url u)) (keys sp)).
Proof.
  unfold Appender.appendToQuery.
  set (u1 := if Encoding.nonempty (URL.get_hash u) then _ else u).
  assert (Hu1 : URL.searchParams u1 = URL.searchParams u
                /\ outside_query (URL.url u1)
                   = (URL.scheme (URL.url u), URL.username (URL.url u),
                      URL.password (URL.url u), URL.host (URL.url u),
                      URL.pathname (URL.url u),
                      fragment_after_query (URL.fragment (URL.url u)) (keys sp))).
  { unfold u1. rewrite get_hash_string, slice_hash_string.
    unfold fragment_after_query.
    destruct (URL.fragment (URL.url u)) as [[| c f] |] eqn:Ef;
      cbn [hash_string Encoding.nonempty andb].
    - unfold outside_query. rewrite Ef. split; reflexivity.
    - change (Encoding.nonempty ("#" +:+ String c f)) with true. cbv iota.
      destruct (Js.includes "=" (String c f)).
      + rewrite set_hash_rendered by apply serialize_chars.
        split; reflexivity.
      + unfold outside_query. rewrite Ef. split; reflexivity.
    - unfold outside_query. rewrite Ef. split; reflexivity. }
  destruct Hu1 as [Hs Ho].
  destruct (query_fold pe sp u1) as [Hq1 Hq2]. rewrite Hs in Hq1. rewrite Ho in Hq2.
  unfold outside_query in Hq2. injection Hq2 as E1 _ _ E4 E5 E6.
  unfold URL.get_protocol, URL.get_host, URL.get_pathname.
  rewrite get_hash_string, Hq1, E1, E4, E5, E6.
  rewrite !append_assoc. do 5 f_equal.
  destruct (fragment_after_query (URL.fragment (URL.url u)) (keys sp)) as [[| c f] |];
    reflexivity.
Qed.

(** [appendToFragment], as the record it serializes. *)
Lemma appendToFragment_eq (u : URL.t) (sp : UtmParameters) (pe : bool) :
  sp <> [] ->
  Appender.appendToFragment u sp pe
  = URL.serialize
      {| URL.scheme := URL.scheme (URL.url u);
         URL.username := URL.username (URL.url u);
         URL.password := URL.password (URL.url u);
         URL.host := URL.host (URL.url u);
         URL.pathname := URL.pathname (URL.url u);
         URL.query :=
           query_of_list (fold_left URLSearchParams.delete (keys sp) (URL.searchParams u));
         URL.fragment :=
           (let qs := Appender.buildQueryString
                        (fold_left (Appender.fragment_step pe) sp
                           (URLSearchParams.new
                              (default "" (URL.fragment (URL.url u))))) in
            if Encoding.nonempty qs then Some qs else None) |}.
Proof.
  intros Hsp. unfold Appender.appendToFragment.
  destruct (delete_fold (keys sp) u) as (H1 & H2 & H3).
  assert (Hk : keys sp <> []) by (destruct sp; [congruence | discriminate]).
  specialize (H3 Hk).
  set (u1 := fold_left URL.searchParams_delete (keys sp) u) in *.
  unfold outside_query in H2. injection H2 as E1 E2 E3 E4 E5 E6.
  rewrite set_hash_rendered by apply buildQueryString_chars.
  unfold URL.toString, URL.url at 1.
  rewrite get_hash_string, slice_hash_string, E6.
  replace (match URL.fragment (URL.url u) with Some x => x | None => "" end)
    with (default "" (URL.fragment (URL.url u)))
    by (destruct (URL.fragment (URL.url u)); reflexivity).
  unfold URL.serialize, URL.authority, URL.credentials, URL.with_fragment.
  cbn [URL.scheme URL.username URL.password URL.host URL.pathname URL.query URL.fragment].
  rewrite E1, E2, E3, E4, E5, H3. reflexivity.
Qed.

(** ** Reading the components of a URL string *)

Lemma read_back (base : string) (qo fo : option string) :
  Js.includes "#" base = false -> Js.includes "?" base = false ->
  Js.includes "#" (default "" qo) = false ->
  query_of (base +:+ URL.optional "?" qo +:+ URL.optional "#" fo) = default "" qo
  /\ fragment_of (base +:+ URL.optional "?" qo +:+ URL.optional "#" fo) = default "" fo.
Proof.
  intros Hb1 Hb2 Hq. unfold query_of, fragment_of.
  assert (Hpre : Js.includes "#" (base +:+ URL.optional "?" qo) = false).
  { rewrite includes_app, Hb1. destruct qo as [q |]; [| reflexivity].
    unfold URL.optional. rewrite includes_app. exact Hq. }
  assert (Hquery : snd (Encoding.cut "?" (base +:+ URL.optional "?" qo)) = default "" qo).
  { destruct qo as [q |]; unfold URL.optional.
    - change ("?" +:+ q) with (String "?" q). rewrite (cut_at _ _ _ Hb2). reflexivity.
    - rewrite append_nil_r, (cut_absent _ _ Hb2). reflexivity. }
  destruct fo as [f |]; unfold URL.optional at 2 4.
  - change ("#" +:+ f) with (String "#" f).
    rewrite <- append_assoc, (cut_at _ _ _ Hpre). cbn [fst snd]. split; [exact Hquery | reflexivity].
  - rewrite append_nil_r, (cut_absent _ _ Hpre). cbn [fst snd]. split; [exact Hquery | reflexivity].
Qed.

Lemma well_formed_parts (r : URL.record) :
  URL.well_formed r = true ->
  URL.no_delimiter (URL.scheme r) = true /\ URL.no_delimiter (URL.username r) = true
  /\ URL.no_delimiter (URL.password r) = true
  /\ URL.no_delimiter (default "" (URL.host r)) = true
  /\ URL.no_delimiter (URL.pathname r) = true
  /\ Js.includes "#" (default "" (URL.query r)) = false.
Proof.
  unfold URL.well_formed. intros H.
  apply andb_prop in H as [H H6]. apply andb_prop in H as [H H5].
  apply andb_prop in H as [H H4]. apply andb_prop in H as [H H3].
  apply andb_prop in H as [H1 H2]. apply negb_true_iff in H6.
  repeat split; assumption.
Qed.

Lemma no_delimiter_app (a b : string) :
  URL.no_delimiter (a +:+ b) = URL.no_delimiter a && URL.no_delimiter b.
Proof.
  unfold URL.no_delimiter. rewrite !includes_app.
  destruct (Js.includes "#" a), (Js.includes "#" b), (Js.includes "?" a),
    (Js.includes "?" b); reflexivity.
Qed.

Lemma no_delimiter_inv (s : string) :
  URL.no_delimiter s = true -> Js.includes "#" s = false /\ Js.includes "?" s = false.
Proof.
  unfold URL.no_delimiter. intros H. apply andb_prop in H as [H1 H2].
  apply negb_true_iff in H1, H2. auto.
Qed.

(** ** The appender on a parsed URL *)

Lemma convertParams_loop_entries conv (p acc : UtmParameters) (x : string)
    (v : option string) :
  In (x, v) (convertParams_loop conv p acc) ->
  In (x, v) acc \/ exists k w, In (k, Some w) p /\ x = conv k /\ v = Some w.
Proof.
  revert acc. induction p as [| [k [w |]] r IH]; intros acc H; cbn [convertParams_loop] in H.
  - left. exact H.
  - destruct (IH _ H) as [Hin | (k' & w' & Hk' & -> & ->)].
    + assert (Hassign : In (x, v) acc \/ (x, v) = (conv k, Some w)).
      { clear - Hin. induction acc as [| [a b] acc IHacc]; cbn in Hin.
        - destruct Hin as [<- | []]. right. reflexivity.
        - destruct (String.eqb_spec a (conv k)) as [-> | _].
          + destruct Hin as [<- | Hin]; [right; reflexivity | left; right; exact Hin].
          + destruct Hin as [<- | Hin]; [left; left; reflexivity |].
            destruct (IHacc Hin) as [H | H]; [left; right; exact H | right; exact H]. }
      destruct Hassign as [Hacc | [= -> ->]]; [left; exact Hacc |].
      right. exists k, w. repeat split. left. reflexivity.
    + right. exists k', w'. repeat split. right. exact Hk'.
  - destruct (IH _ H) as [Hin | (k' & w' & Hk' & -> & ->)]; [left; exact Hin |].
    right. exists k', w'. repeat split. right. exact Hk'.
Qed.

Lemma convertParams_loop_grows conv (p acc : UtmParameters) :
  acc <> [] -> convertParams_loop conv p acc <> [].
Proof.
  revert acc. induction p as [| [k [w |]] r IH]; intros acc H; cbn [convertParams_loop].
  - exact H.
  - apply IH. destruct acc as [| [a b] acc]; cbn; [discriminate |].
    destruct (String.eqb a (conv k)); discriminate.
  - apply IH, H.
Qed.

Lemma hasValid_nonempty (p : UtmParameters) :
  Appender.hasValidUtmEntries p = true -> toSnakeCaseParams p <> [].
Proof.
  unfold toSnakeCaseParams, convertParams.
  assert (H : forall acc, Appender.hasValidUtmEntries p = true ->
                          convertParams_loop (converter snake_case) p acc <> []).
  { induction p as [| [k [w |]] r IH]; intros acc H; cbn in H.
    - discriminate H.
    - cbn [convertParams_loop]. apply convertParams_loop_grows.
      destruct acc as [| [a b] acc]; cbn; [discriminate |].
      destruct (String.eqb a (toSnakeCase k)); discriminate.
    - cbn [convertParams_loop]. apply IH, H. }
  apply H.
Qed.

Lemma snakeParams_facts (p : UtmParameters) :
  List.NoDup (keys (toSnakeCaseParams p)) /\ all_defined (toSnakeCaseParams p).
Proof.
  unfold toSnakeCaseParams, convertParams.
  destruct (convertParams_loop_spec (converter snake_case) p []) as (H1 & H2 & _).
  split; [apply H1, List.NoDup_nil | apply H2; intros k v []].
Qed.

Lemma appendUtmParameters_parsed
    (parser : string -> option URL.record) (url : string) (p : UtmParameters)
    (options : AppendOptions) (r : URL.record) :
  Appender.hasValidUtmEntries p = true -> parser url = Some r ->
  Appender.appendUtmParameters (Some parser) url p options
  = if default false (toFragment options)
    then Appender.appendToFragment (object_of r) (toSnakeCaseParams p)
           (default false (preserveExisting options))
    else Appender.appendToQuery (object_of r) (toSnakeCaseParams p)
           (default false (preserveExisting options)).
Proof.
  intros Hv Hp. unfold Appender.appendUtmParameters, URL.new.
  rewrite Hv, Hp. reflexivity.
Qed.

Lemma appendUtmParameters_unchanged
    (parser : string -> option URL.record) (url : string) (p : UtmParameters)
    (options : AppendOptions) :
  Appender.hasValidUtmEntries p = false \/ parser url = None ->
  Appender.appendUtmParameters (Some parser) url p options = url.
Proof.
  intros H. unfold Appender.appendUtmParameters, URL.new.
  destruct (Appender.hasValidUtmEntries p); [| reflexivity].
  destruct H as [H | ->]; [discriminate H | reflexivity].
Qed.

(** Without [preserveExisting], the loop moves the written keys to the
    end of the list. *)
Lemma values_of_names (sp : UtmParameters) (x : string) :
  In x (URLSearchParams.names (values_of sp)) -> In x (keys sp).
Proof.
  induction sp as [| [k [v |]] r IH]; cbn; [tauto | |]; intuition.
Qed.

Lemma write_all (sp : UtmParameters) (l : URLSearchParams.t) :
  all_defined sp -> List.NoDup (keys sp) ->
  fold_left (Appender.fragment_step false) sp l
  = fold_left URLSearchParams.delete (keys sp) l ++ values_of sp.
Proof.
  revert l. induction sp as [| [k v] r IH]; intros l Hd Hnd; cbn [fold_left keys map fst].
  - symmetry. apply app_nil_r.
  - destruct v as [v |]; [| exfalso; apply (Hd k None); [left |]; reflexivity].
    cbn in Hnd. apply List.NoDup_cons_iff in Hnd as [Hk Hr].
    unfold Appender.fragment_step at 2. cbn [andb].
    rewrite set_absent by apply has_delete.
    rewrite IH; [| intros a b Hin; apply (Hd a b); right; exact Hin | exact Hr].
    fold (keys r). rewrite fold_delete_app.
    rewrite (fold_delete_absent (keys r) [(k, v)]).
    + cbn [values_of]. rewrite <- app_assoc. reflexivity.
    + intros k' Hk' [<- | []]. exact (Hk Hk').
Qed.

Lemma fold_delete_values (sp : UtmParameters) :
  fold_left URLSearchParams.delete (keys sp) (values_of sp) = [].
Proof.
  assert (H : forall (l : URLSearchParams.t) ks,
             (forall x, In x (URLSearchParams.names l) -> In x ks) ->
             fold_left URLSearchParams.delete ks l = []).
  { intros l ks Hl.
    destruct (fold_left URLSearchParams.delete ks l) as [| [n v] t] eqn:E; [reflexivity |].
    assert (Hn : In n (URLSearchParams.names (fold_left URLSearchParams.delete ks l))).
    { rewrite E. left. reflexivity. }
    apply names_fold_delete in Hn as [Hn1 Hn2]. contradiction (Hn2 (Hl n Hn1)). }
  apply H, values_of_names.
Qed.

Lemma fold_delete_idempotent (ks : list string) (l : URLSearchParams.t) :
  fold_left URLSearchParams.delete ks (fold_left URLSearchParams.delete ks l)
  = fold_left URLSearchParams.delete ks l.
Proof.
  apply fold_delete_absent. intros k Hk Hin.
  apply names_fold_delete in Hin as [_ Hin]. exact (Hin Hk).
Qed.

Lemma write_all_idempotent (sp : UtmParameters) (l : URLSearchParams.t) :
  all_defined sp -> List.NoDup (keys sp) ->
  fold_left (Appender.fragment_step false) sp
    (fold_left (Appender.fragment_step false) sp l)
  = fold_left (Appender.fragment_step false) sp l.
Proof.
  intros Hd Hnd. rewrite !(write_all sp _ Hd Hnd).
  rewrite fold_delete_app, fold_delete_idempotent, fold_delete_values, app_nil_r.
  reflexivity.
Qed.

Lemma default_query_of_list (l : URLSearchParams.t) :
  default "" (query_of_list l) = URLSearchParams.toString l.
Proof.
  unfold query_of_list. destruct (URLSearchParams.toString l); reflexivity.
Qed.

Lemma optional_nonempty (mark s : string) :
  (if Encoding.nonempty s then mark +:+ s else "")
  = URL.optional mark (if Encoding.nonempty s then Some s else None).
Proof. destruct s; reflexivity. Qed.

Lemma default_nonempty (s : string) :
  default "" (if Encoding.nonempty s then Some s else None) = s.
Proof. destruct s; reflexivity. Qed.

Lemma hash_string_optional (f : option string) :
  hash_string f
  = URL.optional "#" (if Encoding.nonempty (default "" f) then Some (default "" f) else None).
Proof. destruct f as [[| c f] |]; reflexivity. Qed.

(** The query and the fragment of what [appendToQuery] returns. *)
Lemma appendToQuery_read (r : URL.record) (sp : UtmParameters) (pe : bool) :
  URL.well_formed r = true ->
  query_of (Appender.appendToQuery (object_of r) sp pe)
  = Appender.buildQueryString
      (fold_left (Appender.fragment_step pe) sp
         (Encoding.parse_urlencoded (default "" (URL.query r))))
  /\ fragment_of (Appender.appendToQuery (object_of r) sp pe)
     = default "" (fragment_after_query (URL.fragment r) (keys sp)).
Proof.
  intros Hwf. rewrite appendToQuery_eq. cbn [object_of URL.url URL.searchParams].
  destruct (well_formed_parts _ Hwf) as (H1 & _ & _ & H4 & H5 & _).
  cbv zeta. rewrite optional_nonempty, hash_string_optional.
  set (qs := Appender.buildQueryString _).
  set (base := URL.scheme r +:+ ":" +:+ "//" +:+ default "" (URL.host r) +:+ URL.pathname r).
  replace (URL.scheme r +:+ ":" +:+ "//" +:+ default "" (URL.host r) +:+ URL.pathname r
           +:+ URL.optional "?" (if Encoding.nonempty qs then Some qs else None)
           +:+ URL.optional "#"
                 (if Encoding.nonempty (default "" (fragment_after_query (URL.fragment r) (keys sp)))
                  then Some (default "" (fragment_after_query (URL.fragment r) (keys sp)))
                  else None))
    with (base
          +:+ URL.optional "?" (if Encoding.nonempty qs then Some qs else None)
          +:+ URL.optional "#"
                (if Encoding.nonempty (default "" (fragment_after_query (URL.fragment r) (keys sp)))
                 then Some (default "" (fragment_after_query (URL.fragment r) (keys sp)))
                 else None))
    by (unfold base; rewrite !append_assoc; reflexivity).
  assert (Hbase : URL.no_delimiter base = true).
  { unfold base. rewrite !no_delimiter_app, H1, H4, H5. reflexivity. }
  apply no_delimiter_inv in Hbase as [Hb1 Hb2].
  destruct (read_back base (if Encoding.nonempty qs then Some qs else None)
              (if Encoding.nonempty (default "" (fragment_after_query (URL.fragment r) (keys sp)))
               then Some (default "" (fragment_after_query (URL.fragment r) (keys sp)))
               else None) Hb1 Hb2) as [Hq Hf].
  - rewrite default_nonempty. apply query_chars_no_delimiter, buildQueryString_chars.
  - rewrite Hq, Hf, !default_nonempty. split; reflexivity.
Qed.

Lemma credentials_no_delimiter (r : URL.record) :
  URL.no_delimiter (URL.username r) = true -> URL.no_delimiter (URL.password r) = true ->
  URL.no_delimiter (URL.credentials r) = true.
Proof.
  intros Hu Hp. unfold URL.credentials.
  destruct (Encoding.nonempty (URL.username r) || Encoding.nonempty (URL.password r));
    [| reflexivity].
  destruct (Encoding.nonempty (URL.password r));
    rewrite !no_delimiter_app, Hu, ?Hp; reflexivity.
Qed.

(** The query and the fragment of what [appendToFragment] returns. *)
Lemma appendToFragment_read (r : URL.record) (sp : UtmParameters) (pe : bool) :
  URL.well_formed r = true -> sp <> [] ->
  query_of (Appender.appendToFragment (object_of r) sp pe)
  = URLSearchParams.toString
      (fold_left URLSearchParams.delete (keys sp)
         (Encoding.parse_urlencoded (default "" (URL.query r))))
  /\ fragment_of (Appender.appendToFragment (object_of r) sp pe)
     = Appender.buildQueryString
         (fold_left (Appender.fragment_step pe) sp
            (URLSearchParams.new (default "" (URL.fragment r)))).
Proof.
  intros Hwf Hsp. rewrite (appendToFragment_eq _ _ _ Hsp).
  cbn [object_of URL.url URL.searchParams]. unfold URL.serialize.
  cbn [URL.scheme URL.pathname URL.query URL.fragment]. cbv zeta.
  destruct (well_formed_parts _ Hwf) as (H1 & H2 & H3 & H4 & H5 & _).
  set (q := query_of_list _). set (qs := Appender.buildQueryString _).
  set (a := URL.authority _).
  assert (Ha : URL.no_delimiter a = true).
  { unfold a, URL.authority. cbn [URL.host URL.pathname].
    destruct (URL.host r) as [h |].
    - rewrite !no_delimiter_app. cbn [default from_option id] in H4. rewrite H4.
      change (URL.credentials _) with (URL.credentials r).
      rewrite (credentials_no_delimiter _ H2 H3). reflexivity.
    - destruct (Js.startsWith (URL.pathname r) "//"); reflexivity. }
  set (base := URL.scheme r +:+ ":" +:+ a +:+ URL.pathname r).
  replace (URL.scheme r +:+ ":" +:+ a +:+ URL.pathname r +:+ URL.optional "?" q
           +:+ URL.optional "#" (if Encoding.nonempty qs then Some qs else None))
    with (base +:+ URL.optional "?" q
          +:+ URL.optional "#" (if Encoding.nonempty qs then Some qs else None))
    by (unfold base; rewrite !append_assoc; reflexivity).
  assert (Hbase : URL.no_delimiter base = true).
  { unfold base. rewrite !no_delimiter_app, H1, Ha, H5. reflexivity. }
  apply no_delimiter_inv in Hbase as [Hb1 Hb2].
  destruct (read_back base q (if Encoding.nonempty qs then Some qs else None) Hb1 Hb2)
    as [Hq Hf].
  - unfold q. rewrite default_query_of_list.
    apply query_chars_no_delimiter, serialize_chars.
  - rewrite Hq, Hf, default_nonempty. unfold q. rewrite default_query_of_list.
    split; reflexivity.
Qed.

(** ** Where a key stands in a URL string *)

Lemma new_serialized (l : URLSearchParams.t) :
  URLSearchParams.new (URLSearchParams.toString l) = l.
Proof.
  unfold URLSearchParams.toString.
  rewrite new_rendered by apply serialize_chars. apply parse_serialize.
Qed.

Lemma includes_nonempty (c : ascii) (s : string) :
  Js.includes c s = true -> Encoding.nonempty s = true.
Proof. destruct s; [discriminate | reflexivity]. Qed.

Lemma fragment_after_query_pairs (fragment : option string) (ks : list string) :
  Js.includes "=" (default "" fragment) = true ->
  default "" (fragment_after_query fragment ks)
  = URLSearchParams.toString
      (fold_left URLSearchParams.delete ks (URLSearchParams.new (default "" fragment))).
Proof.
  intros H. destruct fragment as [f |]; [| discriminate H].
  cbn [default from_option id] in H |- *. unfold fragment_after_query.
  rewrite (includes_nonempty _ _ H), H. cbn [andb]. apply default_query_of_list.
Qed.

Lemma fragment_after_query_opaque (fragment : option string) (ks : list string) :
  Js.includes "=" (default "" fragment) = false ->
  fragment_after_query fragment ks = fragment.
Proof.
  intros H. destruct fragment as [f |]; [| reflexivity].
  cbn [default from_option id] in H. unfold fragment_after_query.
  rewrite H, andb_false_r. reflexivity.
Qed.

Lemma values_of_In (sp : UtmParameters) (k v : string) :
  In (k, v) (values_of sp) <-> In (k, Some v) sp.
Proof.
  induction sp as [| [k' [v' |]] r IH]; cbn; [tauto | |]; rewrite IH;
    intuition congruence.
Qed.

Lemma filter_filter {A} (f g : A -> bool) (l : list A) :
  List.filter g (List.filter f l) = List.filter (fun x => f x && g x) l.
Proof.
  induction l as [| a l IH]; [reflexivity |]. cbn [List.filter].
  destruct (f a); cbn [andb List.filter]; [destruct (g a) |]; rewrite IH; reflexivity.
Qed.

Lemma fold_delete_filter (ks : list string) (l : URLSearchParams.t) :
  fold_left URLSearchParams.delete ks l
  = List.filter (fun e => negb (named_in ks e)) l.
Proof.
  revert l. induction ks as [| k ks IH]; intros l; cbn [fold_left].
  - unfold named_in. cbn [existsb negb]. induction l as [| a l IHl]; [reflexivity |].
    cbn [List.filter]. rewrite <- IHl. reflexivity.
  - rewrite IH. unfold URLSearchParams.delete. rewrite filter_filter.
    apply List.filter_ext. intros e. unfold named_in. cbn [existsb].
    rewrite negb_orb. reflexivity.
Qed.

Lemma has_app (l1 l2 : URLSearchParams.t) (name : string) :
  URLSearchParams.has (l1 ++ l2) name
  = URLSearchParams.has l1 name || URLSearchParams.has l2 name.
Proof. unfold URLSearchParams.has. apply existsb_app. Qed.

(** The loop that preserves existing pairs appends the pairs whose key
    the list did not have. *)
Lemma write_absent (sp : UtmParameters) (l : URLSearchParams.t) :
  all_defined sp -> List.NoDup (keys sp) ->
  fold_left (Appender.fragment_step true) sp l
  = l ++ List.filter (fun e => negb (URLSearchParams.has l (fst e))) (values_of sp).
Proof.
  revert l. induction sp as [| [k [v |]] r IH]; intros l Hd Hn.
  - cbn. rewrite app_nil_r. reflexivity.
  - cbn [keys map fst] in Hn. apply List.NoDup_cons_iff in Hn as [Hk Hn].
    assert (Hd' : all_defined r) by (intros a b Hin; apply (Hd a b); right; exact Hin).
    cbn [fold_left values_of List.filter fst]. unfold Appender.fragment_step at 2.
    cbn [andb]. destruct (URLSearchParams.has l k) eqn:Hhas; cbn [negb].
    + apply (IH l Hd' Hn).
    + assert (Habs : ~ In k (URLSearchParams.names l)).
      { intros Hin. apply has_names in Hin. congruence. }
      rewrite (delete_absent _ _ Habs), (set_absent _ _ _ Hhas), (IH _ Hd' Hn).
      rewrite <- app_assoc. cbn [app]. f_equal. f_equal.
      apply List.filter_ext_in. intros [k' v'] Hin. cbn [fst].
      rewrite has_app. unfold URLSearchParams.has at 2. cbn [existsb fst].
      rewrite orb_false_r.
      destruct (String.eqb_spec k k') as [-> | _]; [| rewrite orb_false_r; reflexivity].
      exfalso. apply Hk. apply values_of_In in Hin. apply (in_map fst) in Hin. exact Hin.
  - exfalso. apply (Hd k None); [left |]; reflexivity.
Qed.

(** The target location of an injection, read from the returned string. *)
Lemma target_read
    (parser : string -> option URL.record) (url : string) (p : UtmParameters)
    (options : AppendOptions) (r : URL.record) :
  Appender.hasValidUtmEntries p = true -> parser url = Some r ->
  URL.well_formed r = true ->
  (if default false (toFragment options)
   then fragment_of (Appender.appendUtmParameters (Some parser) url p options)
   else query_of (Appender.appendUtmParameters (Some parser) url p options))
  = Appender.buildQueryString
      (fold_left (Appender.fragment_step (default false (preserveExisting options)))
         (toSnakeCaseParams p) (target_pairs (default false (toFragment options)) r)).
Proof.
  intros Hvalid Hparse Hwf.
  rewrite (appendUtmParameters_parsed _ _ _ _ _ Hvalid Hparse).
  unfold target_pairs. destruct (default false (toFragment options)).
  - apply appendToFragment_read; [exact Hwf | apply hasValid_nonempty, Hvalid].
  - apply appendToQuery_read, Hwf.
Qed.

Lemma buildQueryString_pair_empty (p : string * string) :
  Encoding.nonempty (Appender.buildQueryString_pair p) = negb (empty_pair p).
Proof.
  destruct (empty_pair p) eqn:E.
  - destruct p as [k v]. unfold empty_pair in E. cbn [fst snd] in E.
    apply andb_prop in E as [Hk Hv]. apply String.eqb_eq in Hk, Hv. subst. reflexivity.
  - apply buildQueryString_pair_nonempty. intros ->. discriminate E.
Qed.

(** What the parser of query strings reads in a string that
    [buildQueryString] rendered: the pairs, but those whose name and value
    are both empty. *)
Lemma parse_buildQueryString_all (l : URLSearchParams.t) :
  Encoding.parse_urlencoded (Appender.buildQueryString l)
  = List.filter (fun p => negb (empty_pair p)) l.
Proof.
  unfold Appender.buildQueryString, URLSearchParams.entries, Encoding.parse_urlencoded.
  destruct l as [| p r]; [reflexivity |].
  rewrite split_join.
  - remember (p :: r) as l eqn:El. clear El p r.
    induction l as [| p r IH]; [reflexivity |].
    cbn [map List.filter]. rewrite buildQueryString_pair_empty.
    destruct (negb (empty_pair p)); [| exact IH].
    cbn [map]. rewrite parse_buildQueryString_pair, IH. reflexivity.
  - discriminate.
  - apply List.Forall_forall. intros x Hx. apply in_map_iff in Hx as (q & <- & Hq).
    apply buildQueryString_pair_chars.
Qed.

Lemma names_values_of (sp : UtmParameters) :
  all_defined sp -> URLSearchParams.names (values_of sp) = keys sp.
Proof.
  induction sp as [| [k [v |]] r IH]; intros Hd; [reflexivity | |].
  - cbn. f_equal. apply IH. intros a b Hin. apply (Hd a b). right. exact Hin.
  - exfalso. apply (Hd k None); [left |]; reflexivity.
Qed.

(** Every key of the parameters is a name of the list after the loop. *)
Lemma written_names (pe : bool) (sp : UtmParameters) (l : URLSearchParams.t) (k : string) :
  all_defined sp -> List.NoDup (keys sp) -> In k (keys sp) ->
  In k (URLSearchParams.names (fold_left (Appender.fragment_step pe) sp l)).
Proof.
  intros Hd Hn Hk. rewrite <- (names_values_of sp Hd) in Hk.
  unfold URLSearchParams.names in *. destruct pe.
  - rewrite (write_absent _ _ Hd Hn), map_app, in_app_iff.
    destruct (URLSearchParams.has l k) eqn:Hhas.
    + left. apply has_names, Hhas.
    + right. apply in_map_iff in Hk as (e & <- & He). apply in_map, filter_In.
      split; [exact He | rewrite Hhas; reflexivity].
  - rewrite (write_all _ _ Hd Hn), map_app, in_app_iff. right. exact Hk.
Qed.

(** C3.  After injection into the query, a fragment holding key=value
    pairs has lost every injected key, and a fragment without [=] is as
    it was; after injection into the fragment, the query has lost every
    injected key; so no injected key stands in both places.  Nothing else
    is lost: the pairs of the other location are, in their order, the
    pairs it had that no injected key names (for pairs that are
    well-formed text), and every injected key stands in the location
    written to. *)
Theorem cross_location_conflict
    (parser : string -> option URL.record) (url : string) (p : UtmParameters)
    (options : AppendOptions) (r : URL.record)
    (Hvalid : Appender.hasValidUtmEntries p = true)
    (Hparse : parser url = Some r)
    (Hwf : URL.well_formed r = true) :
  let injected := keys (toSnakeCaseParams p) in
  let result := Appender.appendUtmParameters (Some parser) url p options in
  (default false (toFragment options) = false ->
   (Js.includes "=" (default "" (URL.fragment r)) = true ->
    forall k, In k injected ->
              ~ In k (URLSearchParams.names (URLSearchParams.new (fragment_of result))))
   /\ (Js.includes "=" (default "" (URL.fragment r)) = false ->
       fragment_of result = default "" (URL.fragment r)))
  /\ (default false (toFragment options) = true ->
      forall k, In k injected -> ~ in_query k result)
  /\ (forall k, In k injected -> ~ (in_query k result /\ in_fragment k result))
  /\ (default false (toFragment options) = false ->
      Js.includes "=" (default "" (URL.fragment r)) = true ->
      text_pairs (URLSearchParams.new (default "" (URL.fragment r))) = true ->
      URLSearchParams.new (fragment_of result)
      = List.filter (fun e => negb (named_in injected e))
          (URLSearchParams.new (default "" (URL.fragment r))))
  /\ (default false (toFragment options) = true ->
      text_pairs (Encoding.parse_urlencoded (default "" (URL.query r))) = true ->
      Encoding.parse_urlencoded (query_of result)
      = List.filter (fun e => negb (named_in injected e))
          (Encoding.parse_urlencoded (default "" (URL.query r))))
  /\ (forall k, In k injected -> k <> "" ->
      In k (URLSearchParams.names
              (URLSearchParams.new
                 (if default false (toFragment options)
                  then fragment_of result else query_of result)))).
Proof.
  intros injected result.
  assert (Hquery : default false (toFragment options) = false ->
                   (Js.includes "=" (default "" (URL.fragment r)) = true ->
                    forall k, In k injected ->
                      ~ In k (URLSearchParams.names
                                (URLSearchParams.new (fragment_of result))))
                   /\ (Js.includes "=" (default "" (URL.fragment r)) = false ->
                       fragment_of result = default "" (URL.fragment r))).
  { intros Hq. unfold result.
    rewrite (appendUtmParameters_parsed _ _ _ _ _ Hvalid Hparse), Hq.
    destruct (appendToQuery_read r (toSnakeCaseParams p)
                (default false (preserveExisting options)) Hwf) as [_ Hf].
    rewrite Hf. split.
    - intros Heq k Hk. rewrite (fragment_after_query_pairs _ _ Heq), new_serialized.
      rewrite names_fold_delete. intros [_ Hno]. exact (Hno Hk).
    - intros Hop. rewrite (fragment_after_query_opaque _ _ Hop). reflexivity. }
  assert (Hfragment : default false (toFragment options) = true ->
                      forall k, In k injected -> ~ in_query k result).
  { intros Hf k Hk. unfold in_query, result.
    rewrite (appendUtmParameters_parsed _ _ _ _ _ Hvalid Hparse), Hf.
    destruct (appendToFragment_read r (toSnakeCaseParams p)
                (default false (preserveExisting options)) Hwf
                (hasValid_nonempty _ Hvalid)) as [Hq _].
    rewrite Hq. unfold URLSearchParams.toString. rewrite parse_serialize.
    rewrite names_fold_delete. intros [_ Hno]. exact (Hno Hk). }
  split; [exact Hquery | split; [exact Hfragment |]].
  split; [| split; [| split]].
  - intros k Hk [Hinq [Heq Hinf]].
    destruct (default false (toFragment options)) eqn:Ef.
    + exact (Hfragment eq_refl k Hk Hinq).
    + destruct (Hquery eq_refl) as [Hpairs Hopaque].
      destruct (Js.includes "=" (default "" (URL.fragment r))) eqn:Efrag.
      * exact (Hpairs eq_refl k Hk Hinf).
      * rewrite (Hopaque eq_refl) in Heq. congruence.
  - intros Hq Heq _. unfold result.
    rewrite (appendUtmParameters_parsed _ _ _ _ _ Hvalid Hparse), Hq.
    destruct (appendToQuery_read r (toSnakeCaseParams p)
                (default false (preserveExisting options)) Hwf) as [_ ->].
    rewrite (fragment_after_query_pairs _ _ Heq), new_serialized.
    apply fold_delete_filter.
  - intros Hf _. unfold result.
    rewrite (appendUtmParameters_parsed _ _ _ _ _ Hvalid Hparse), Hf.
    destruct (appendToFragment_read r (toSnakeCaseParams p)
                (default false (preserveExisting options)) Hwf
                (hasValid_nonempty _ Hvalid)) as [-> _].
    unfold URLSearchParams.toString. rewrite parse_serialize.
    apply fold_delete_filter.
  - intros k Hk Hne. unfold result.
    rewrite (target_read _ _ _ _ _ Hvalid Hparse Hwf).
    rewrite (new_rendered _ (buildQueryString_chars _)), parse_buildQueryString_all.
    destruct (snakeParams_facts p) as [Hn Hd].
    assert (Hw := written_names (default false (preserveExisting options))
                    (toSnakeCaseParams p)
                    (target_pairs (default false (toFragment options)) r) k Hd Hn Hk).
    unfold URLSearchParams.names in *. apply in_map_iff in Hw as (e & He & Hin).
    apply in_map_iff. exists e. split; [exact He |]. apply filter_In.
    split; [exact Hin |]. destruct e as [n v]. cbn [fst] in He. subst n.
    unfold empty_pair. cbn [fst snd].
    destruct (String.eqb_spec k "") as [-> | _]; [congruence | reflexivity].
Qed.

Lemma cross_location_conflict_witness :
  let parser := parser_of
                  [("https://example.com/?utm_source=q#ref=abc&utm_source=old",
                    http_url "example.com" "/" (Some "utm_source=q")
                      (Some "ref=abc&utm_source=old"))] in
  let result := Appender.appendUtmParameters (Some parser)
                  "https://example.com/?utm_source=q#ref=abc&utm_source=old"
                  [("utmSource", Some "new")] no_options in
  result = "https://example.com/?utm_source=new#ref=abc"
  /\ (forall k, In k ["utm_source"] -> ~ (in_query k result /\ in_fragment k result))
  /\ URLSearchParams.new (fragment_of result) = [("ref", "abc")]
  /\ In "utm_source" (URLSearchParams.names (URLSearchParams.new (query_of result))).
Proof.
  split; [reflexivity |].
  pose proof (cross_location_conflict
           (parser_of
              [("https://example.com/?utm_source=q#ref=abc&utm_source=old",
                http_url "example.com" "/" (Some "utm_source=q")
                  (Some "ref=abc&utm_source=old"))])
           "https://example.com/?utm_source=q#ref=abc&utm_source=old"
           [("utmSource", Some "new")] no_options
           (http_url "example.com" "/" (Some "utm_source=q") (Some "ref=abc&utm_source=old"))
           eq_refl eq_refl eq_refl) as (_ & _ & Hboth & Hkept & _ & Hwritten).
  split; [exact Hboth | split].
  - exact (Hkept eq_refl eq_refl eq_refl).
  - apply (Hwritten "utm_source"); [left; reflexivity | discriminate].
Defined.

(** ** The location that is not written to *)

(** What injection makes of the other location when it holds none of the
    injected keys: a fragment without [=] stays, a fragment with pairs and
    the query are serialized anew from their pairs. *)
Lemma non_target_reserialized
    (r : URL.record) (sp : UtmParameters) (pe : bool) :
  URL.well_formed r = true -> sp <> [] ->
  (forall k, In k (keys sp) ->
             ~ In k (URLSearchParams.names
                       (URLSearchParams.new (default "" (URL.fragment r))))) ->
  (forall k, In k (keys sp) ->
             ~ In k (URLSearchParams.names
                       (Encoding.parse_urlencoded (default "" (URL.query r))))) ->
  fragment_of (Appender.appendToQuery (object_of r) sp pe)
  = (if Js.includes "=" (default "" (URL.fragment r))
     then URLSearchParams.toString (URLSearchParams.new (default "" (URL.fragment r)))
     else default "" (URL.fragment r))
  /\ query_of (Appender.appendToFragment (object_of r) sp pe)
     = URLSearchParams.toString (Encoding.parse_urlencoded (default "" (URL.query r))).
Proof.
  intros Hwf Hsp Hfrag Hquery. split.
  - destruct (appendToQuery_read r sp pe Hwf) as [_ ->].
    destruct (Js.includes "=" (default "" (URL.fragment r))) eqn:E.
    + rewrite (fragment_after_query_pairs _ _ E), (fold_delete_absent _ _ Hfrag).
      reflexivity.
    + rewrite (fragment_after_query_opaque _ _ E). reflexivity.
  - destruct (appendToFragment_read r sp pe Hwf Hsp) as [-> _].
    rewrite (fold_delete_absent _ _ Hquery). reflexivity.
Qed.

(** C8 (as amended).  When the location that is not written to holds none
    of the injected keys and its pairs are well-formed text, a fragment
    without [=] is in the result what it is in the parsed URL, and a
    fragment with pairs or the query is the serialization that
    [URLSearchParams] gives of its pairs: it is unchanged exactly when it
    already is in that form. *)
Theorem frame_condition
    (parser : string -> option URL.record) (url : string) (p : UtmParameters)
    (options : AppendOptions) (r : URL.record)
    (Hvalid : Appender.hasValidUtmEntries p = true)
    (Hparse : parser url = Some r)
    (Hwf : URL.well_formed r = true)
    (Habsent : forall k, In k (keys (toSnakeCaseParams p)) ->
                 ~ In k (URLSearchParams.names
                           (other_pairs (default false (toFragment options)) r)))
    (Htext : text_pairs (other_pairs (default false (toFragment options)) r) = true) :
  let result := Appender.appendUtmParameters (Some parser) url p options in
  let query := default "" (URL.query r) in
  let fragment := default "" (URL.fragment r) in
  if default false (toFragment options)
  then query_of result = URLSearchParams.toString (Encoding.parse_urlencoded query)
       /\ (query_of result = query
           <-> URLSearchParams.toString (Encoding.parse_urlencoded query) = query)
  else fragment_of result
       = (if Js.includes "=" fragment
          then URLSearchParams.toString (URLSearchParams.new fragment)
          else fragment)
       /\ (fragment_of result = fragment
           <-> Js.includes "=" fragment = false
               \/ URLSearchParams.toString (URLSearchParams.new fragment) = fragment).
Proof.
  cbv zeta. rewrite (appendUtmParameters_parsed _ _ _ _ _ Hvalid Hparse).
  unfold other_pairs, fragment_pairs in Habsent.
  destruct (default false (toFragment options)).
  - destruct (appendToFragment_read r (toSnakeCaseParams p)
                (default false (preserveExisting options)) Hwf
                (hasValid_nonempty _ Hvalid)) as [-> _].
    rewrite (fold_delete_absent _ _ Habsent). split; [reflexivity | tauto].
  - destruct (appendToQuery_read r (toSnakeCaseParams p)
                (default false (preserveExisting options)) Hwf) as [_ ->].
    destruct (Js.includes "=" (default "" (URL.fragment r))) eqn:E.
    + rewrite (fragment_after_query_pairs _ _ E), (fold_delete_absent _ _ Habsent).
      split; [reflexivity |]. split; [intros H; right; exact H |].
      intros [H | H]; [discriminate H | exact H].
    + rewrite (fragment_after_query_opaque _ _ E).
      split; [reflexivity |]. split; [intros _; left |]; reflexivity.
Qed.

Lemma frame_condition_witness :
  let parser := parser_of [("https://example.com/?ref=1#a=1&b",
                            http_url "example.com" "/" (Some "ref=1") (Some "a=1&b"))] in
  fragment_of
    (Appender.appendUtmParameters (Some parser) "https://example.com/?ref=1#a=1&b"
       [("utm_source", Some "x")] no_options)
  = "a=1&b=".
Proof.
  refine (proj1 (frame_condition
           (parser_of [("https://example.com/?ref=1#a=1&b",
                        http_url "example.com" "/" (Some "ref=1") (Some "a=1&b"))])
           "https://example.com/?ref=1#a=1&b" [("utm_source", Some "x")] no_options
           (http_url "example.com" "/" (Some "ref=1") (Some "a=1&b")) _ _ _ _ _)).
  - reflexivity.
  - reflexivity.
  - reflexivity.
  - intros k [<- | []] [H | [H | []]]; discriminate H.
  - reflexivity.
Defined.

(** C8 (as stated) fails in both placements: a fragment [x=1&y] that holds
    no injected key comes out as [x=1&y=], and so does a query [a] when
    the parameters go to the fragment. *)
Lemma frame_condition_counterexample :
  (let parser := parser_of [("https://example.com/#x=1&y",
                             http_url "example.com" "/" None (Some "x=1&y"))] in
   let result := Appender.appendUtmParameters (Some parser)
                   "https://example.com/#x=1&y" [("utm_source", Some "a")] no_options in
   ~ In "utm_source" (URLSearchParams.names (URLSearchParams.new "x=1&y"))
   /\ result = "https://example.com/?utm_source=a#x=1&y="
   /\ fragment_of result <> fragment_of "https://example.com/#x=1&y")
  /\ (let parser := parser_of [("https://example.com/?a",
                                http_url "example.com" "/" (Some "a") None)] in
      let result := Appender.appendUtmParameters (Some parser)
                      "https://example.com/?a" [("utm_source", Some "a")]
                      {| toFragment := Some true; preserveExisting := None |} in
      ~ In "utm_source" (URLSearchParams.names (Encoding.parse_urlencoded "a"))
      /\ result = "https://example.com/?a=#utm_source=a"
      /\ query_of result <> query_of "https://example.com/?a").
Proof.
  split; cbv zeta; (split; [intros H; cbn in H; intuition discriminate |]);
    (split; [reflexivity | discriminate]).
Qed.

(** ** Userinfo *)

Lemma take_until_app (stop : ascii -> bool) (a : string) (c : ascii) (t : string) :
  Js.all_chars (fun x => negb (stop x)) a = true -> stop c = true ->
  take_until stop (a +:+ String c t) = a.
Proof.
  intros Ha Hc. induction a as [| x a IH].
  - rewrite append_nil_l. cbn [take_until]. rewrite Hc. reflexivity.
  - cbn [Js.all_chars] in Ha. apply andb_prop in Ha as [Hx Ha].
    apply negb_true_iff in Hx. rewrite append_cons. cbn [take_until].
    rewrite Hx, (IH Ha). reflexivity.
Qed.

Lemma startsWith_slash (s : string) :
  Js.startsWith s "/" = true -> exists t, s = String "/" t.
Proof.
  unfold Js.startsWith. intros H. peel_prefix H s. eauto.
Qed.

Lemma authority_of_built (scheme a path rest : string) :
  Js.includes ":" scheme = false ->
  Js.all_chars (fun x => negb (Encoding.one_of "/?#" x)) a = true ->
  Js.startsWith path "/" = true ->
  authority_of (scheme +:+ ":" +:+ "//" +:+ a +:+ path +:+ rest) = a.
Proof.
  intros Hs Ha Hp. destruct (startsWith_slash _ Hp) as [t ->].
  unfold authority_of.
  change (scheme +:+ ":" +:+ "//" +:+ a +:+ String "/" t +:+ rest)
    with (scheme +:+ String ":" (String "/" (String "/" (a +:+ String "/" (t +:+ rest))))).
  rewrite (cut_at _ _ _ Hs). cbn [snd].
  apply take_until_app; [exact Ha | reflexivity].
Qed.

(** C9.  For an http(s) URL with userinfo, injection into the query
    returns a URL whose authority is the host alone: the result is built
    from protocol, host, path, query and fragment, and is the result for
    the same URL without userinfo. *)
Theorem userinfo_dropped
    (parser : string -> option URL.record) (url : string) (p : UtmParameters)
    (options : AppendOptions) (r : URL.record) (h : string)
    (Hvalid : Appender.hasValidUtmEntries p = true)
    (Hparse : parser url = Some r)
    (Hplacement : default false (toFragment options) = false)
    (Hscheme : URL.scheme r = "http" \/ URL.scheme r = "https")
    (Huserinfo : Encoding.nonempty (URL.username r)
                 || Encoding.nonempty (URL.password r) = true)
    (Huserchars : Js.all_chars userinfo_char (URL.credentials r) = true)
    (Hhost : URL.host r = Some h)
    (Hhostchars : Js.all_chars host_char h = true)
    (Hpath : Js.startsWith (URL.pathname r) "/" = true) :
  let result := Appender.appendUtmParameters (Some parser) url p options in
  authority_of result = h
  /\ Js.includes "@" (authority_of result) = false
  /\ result = Appender.appendToQuery (object_of (without_credentials r))
                (toSnakeCaseParams p) (default false (preserveExisting options))
  /\ authority_of (URL.serialize r) = URL.credentials r +:+ h
  /\ Js.includes "@" (authority_of (URL.serialize r)) = true.
Proof.
  intros result.
  assert (Hs : Js.includes ":" (URL.scheme r) = false)
    by (destruct Hscheme as [-> | ->]; reflexivity).
  assert (Hh : Js.all_chars (fun x => negb (Encoding.one_of "/?#" x)) h = true).
  { revert Hhostchars. apply all_chars_weaken. intros c. unfold host_char.
    each_char c; vm_compute; congruence. }
  assert (Hresult : authority_of result = h).
  { unfold result.
    rewrite (appendUtmParameters_parsed _ _ _ _ _ Hvalid Hparse), Hplacement.
    rewrite appendToQuery_eq. cbn [object_of URL.url URL.searchParams].
    rewrite Hhost. cbn [default from_option id].
    apply authority_of_built; assumption. }
  split; [exact Hresult | split; [| split; [| split]]].
  - rewrite Hresult. apply (all_chars_excludes host_char); [reflexivity | exact Hhostchars].
  - unfold result.
    rewrite (appendUtmParameters_parsed _ _ _ _ _ Hvalid Hparse), Hplacement.
    rewrite !appendToQuery_eq. reflexivity.
  - unfold URL.serialize, URL.authority. rewrite Hhost.
    rewrite (append_assoc "//").
    apply authority_of_built; [exact Hs | | exact Hpath].
    rewrite all_chars_app, Hh, andb_true_r. exact Huserchars.
  - unfold URL.serialize, URL.authority. rewrite Hhost.
    rewrite (append_assoc "//").
    rewrite authority_of_built; [| exact Hs | | exact Hpath].
    + rewrite includes_app. unfold URL.credentials. rewrite Huserinfo.
      rewrite !includes_app. cbn [Js.includes Ascii.eqb Bool.eqb orb].
      rewrite !orb_true_r. reflexivity.
    + rewrite all_chars_app, Hh, andb_true_r. exact Huserchars.
Qed.

Lemma userinfo_dropped_witness :
  let r := {| URL.scheme := "https"; URL.username := "user"; URL.password := "pw";
              URL.host := Some "example.com:8080"; URL.pathname := "/a";
              URL.query := Some "x=1"; URL.fragment := None |} in
  let result := Appender.appendUtmParameters
                  (Some (parser_of [("https://user:pw@example.com:8080/a?x=1", r)]))
                  "https://user:pw@example.com:8080/a?x=1"
                  [("utm_source", Some "n")] no_options in
  result = "https://example.com:8080/a?x=1&utm_source=n"
  /\ authority_of result = "example.com:8080"
  /\ authority_of (URL.serialize r) = "user:pw@example.com:8080".
Proof.
  cbv zeta. split; [reflexivity |].
  destruct (userinfo_dropped
              (parser_of [("https://user:pw@example.com:8080/a?x=1",
                           {| URL.scheme := "https"; URL.username := "user";
                              URL.password := "pw";
                              URL.host := Some "example.com:8080"; URL.pathname := "/a";
                              URL.query := Some "x=1"; URL.fragment := None |})])
              "https://user:pw@example.com:8080/a?x=1"
              [("utm_source", Some "n")] no_options
              {| URL.scheme := "https"; URL.username := "user"; URL.password := "pw";
                 URL.host := Some "example.com:8080"; URL.pathname := "/a";
                 URL.query := Some "x=1"; URL.fragment := None |}
              "example.com:8080"
              eq_refl eq_refl eq_refl (or_intror eq_refl) eq_refl eq_refl eq_refl
              eq_refl eq_refl) as (H1 & _ & _ & H4 & _).
  split; [exact H1 | exact H4].
Defined.

(** ** Empty values *)

Lemma startsWith_inv (s p : string) :
  Js.startsWith s p = true -> exists t, s = p +:+ t.
Proof.
  unfold Js.startsWith. revert s. induction p as [| c p IH]; intros s H.
  - exists s. reflexivity.
  - destruct s as [| d s]; [discriminate H |].
    apply prefix_cons in H as [<- H]. destruct (IH s H) as [t ->].
    exists t. reflexivity.
Qed.

Lemma keys_functional {V} (o : list (string * V)) (k : string) (a b : V) :
  List.NoDup (keys o) -> In (k, a) o -> In (k, b) o -> a = b.
Proof.
  induction o as [| [k' v'] r IH]; intros Hnd Ha Hb; [destruct Ha |].
  cbn in Hnd. apply List.NoDup_cons_iff in Hnd as [Hk' Hr].
  assert (Hin : forall x, In (k', x) r -> False).
  { intros x Hx. apply Hk'. apply in_map_iff. exists (k', x). auto. }
  destruct Ha as [Ha | Ha], Hb as [Hb | Hb].
  - congruence.
  - injection Ha as -> _. contradiction (Hin _ Hb).
  - injection Hb as -> _. contradiction (Hin _ Ha).
  - apply IH; assumption.
Qed.

Lemma encodeURIComponent_injective (a b : string) :
  Encoding.encodeURIComponent a = Encoding.encodeURIComponent b -> a = b.
Proof.
  intros H. rewrite <- (form_decode_uri a), <- (form_decode_uri b), H. reflexivity.
Qed.

(** The rendering of a list in which [k] is written with the empty value:
    [k] stands alone between the ampersands, and nothing starts with [k=]. *)
Lemma bare_key_rendered (sp : UtmParameters) (l : URLSearchParams.t) (k : string) :
  all_defined sp -> List.NoDup (keys sp) -> In (k, Some "") sp ->
  let target :=
    Appender.buildQueryString (fold_left (Appender.fragment_step false) sp l) in
  In (Encoding.encodeURIComponent k) (Encoding.split "&" target)
  /\ (forall seg, In seg (Encoding.split "&" target) ->
                  Js.startsWith seg (Encoding.encodeURIComponent k +:+ "=") = false).
Proof.
  intros Hd Hnd Hk target. unfold target. rewrite (write_all sp l Hd Hnd).
  set (l' := fold_left URLSearchParams.delete (keys sp) l ++ values_of sp).
  assert (Hin : In (k, "") l').
  { apply in_app_iff. right. apply values_of_In, Hk. }
  assert (Honly : forall v, In (k, v) l' -> v = "").
  { intros v Hv. apply in_app_iff in Hv as [Hv | Hv].
    - exfalso.
      assert (Hn : In k (URLSearchParams.names
                           (fold_left URLSearchParams.delete (keys sp) l))).
      { apply in_map_iff. exists (k, v). auto. }
      apply names_fold_delete in Hn as [_ Hn]. apply Hn.
      apply in_map_iff. exists (k, Some ""). auto.
    - apply values_of_In in Hv.
      assert (E : Some v = Some "") by (apply (keys_functional sp k); assumption).
      congruence. }
  unfold Appender.buildQueryString, URLSearchParams.entries.
  rewrite split_join.
  - split.
    + apply in_map_iff. exists (k, ""). split; [reflexivity | exact Hin].
    + intros seg Hseg. apply in_map_iff in Hseg as ([k' v'] & <- & Hq).
      apply not_true_is_false. intros Hstart.
      destruct (startsWith_inv _ _ Hstart) as [t Ht].
      assert (Hcut : fst (Encoding.cut "=" (Appender.buildQueryString_pair (k', v')))
                     = Encoding.encodeURIComponent k).
      { rewrite Ht, append_assoc.
        change ("=" +:+ t) with (String "=" t).
        rewrite cut_at; [reflexivity |].
        apply token_excludes; [reflexivity | apply encodeURIComponent_token]. }
      unfold Appender.buildQueryString_pair in Hcut, Ht.
      destruct (String.eqb_spec v' "") as [-> | Hv'].
      * assert (Hno : Js.includes "=" (Encoding.encodeURIComponent k') = false)
          by (apply token_excludes; [reflexivity | apply encodeURIComponent_token]).
        rewrite Ht, append_assoc, includes_app in Hno.
        change ("=" +:+ t) with (String "=" t) in Hno.
        cbn [Js.includes] in Hno. rewrite Ascii.eqb_refl, orb_true_r in Hno.
        discriminate Hno.
      * change ("=" +:+ Encoding.encodeURIComponent v')
          with (String "=" (Encoding.encodeURIComponent v')) in Hcut.
        rewrite cut_at in Hcut
          by (apply token_excludes; [reflexivity | apply encodeURIComponent_token]).
        cbn [fst] in Hcut. apply encodeURIComponent_injective in Hcut. subst k'.
        apply Hv', Honly, Hq.
  - destruct l'; [destruct Hin | discriminate].
  - apply List.Forall_forall. intros x Hx. apply in_map_iff in Hx as (q & <- & _).
    apply buildQueryString_pair_chars.
Qed.

(** C5 (as amended).  When the parameters hold at least one valid entry
    and existing values are not kept, a key that the converted set maps to
    the empty string shows in the target component as a bare key: it is
    one of the parts between ampersands, and no part starts with the key
    and an equals sign. *)
Theorem empty_value_is_bare_key
    (parser : string -> option URL.record) (url : string) (p : UtmParameters)
    (options : AppendOptions) (r : URL.record) (k : string)
    (Hvalid : Appender.hasValidUtmEntries p = true)
    (Hparse : parser url = Some r)
    (Hwf : URL.well_formed r = true)
    (Hreplace : default false (preserveExisting options) = false)
    (Hempty : In (k, Some "") (toSnakeCaseParams p)) :
  let result := Appender.appendUtmParameters (Some parser) url p options in
  let target := if default false (toFragment options)
                then fragment_of result else query_of result in
  In (Encoding.encodeURIComponent k) (Encoding.split "&" target)
  /\ (forall seg, In seg (Encoding.split "&" target) ->
                  Js.startsWith seg (Encoding.encodeURIComponent k +:+ "=") = false).
Proof.
  intros result target. unfold target, result.
  rewrite (appendUtmParameters_parsed _ _ _ _ _ Hvalid Hparse), Hreplace.
  destruct (snakeParams_facts p) as [Hnd Hd].
  destruct (default false (toFragment options)).
  - destruct (appendToFragment_read r (toSnakeCaseParams p) false Hwf
                (hasValid_nonempty _ Hvalid)) as [_ ->].
    apply bare_key_rendered; assumption.
  - destruct (appendToQuery_read r (toSnakeCaseParams p) false Hwf) as [-> _].
    apply bare_key_rendered; assumption.
Qed.

Lemma empty_value_is_bare_key_witness :
  let result := Appender.appendUtmParameters
                  (Some (parser_of [("https://example.com/?utm_campaign=old",
                                     http_url "example.com" "/"
                                       (Some "utm_campaign=old") None)]))
                  "https://example.com/?utm_campaign=old"
                  [("utm_source", Some "test"); ("utmCampaign", Some "")] no_options in
  result = "https://example.com/?utm_source=test&utm_campaign"
  /\ In "utm_campaign" (Encoding.split "&" (query_of result))
  /\ (forall seg, In seg (Encoding.split "&" (query_of result)) ->
                  Js.startsWith seg "utm_campaign=" = false).
Proof.
  cbv zeta. split; [reflexivity |].
  apply (empty_value_is_bare_key
           (parser_of [("https://example.com/?utm_campaign=old",
                        http_url "example.com" "/" (Some "utm_campaign=old") None)])
           "https://example.com/?utm_campaign=old"
           [("utm_source", Some "test"); ("utmCampaign", Some "")] no_options
           (http_url "example.com" "/" (Some "utm_campaign=old") None)
           "utm_campaign").
  - reflexivity.
  - reflexivity.
  - reflexivity.
  - reflexivity.
  - right. left. reflexivity.
Defined.

(** C5 (as stated) fails: a set whose only UTM value is the empty string
    has no valid entry, and the URL comes back as it was, without the
    key. *)
Lemma empty_value_is_bare_key_counterexample :
  let result := Appender.appendUtmParameters
                  (Some (parser_of [("https://example.com/",
                                     http_url "example.com" "/" None None)]))
                  "https://example.com/" [("utm_term", Some "")] no_options in
  isUtmKey "utm_term" = true
  /\ result = "https://example.com/"
  /\ ~ In "utm_term" (Encoding.split "&" (query_of result)).
Proof.
  cbv zeta. split; [reflexivity | split; [reflexivity |]].
  intros [H | []]. discriminate H.
Qed.

(** ** Injecting twice *)

Lemma hash_after_query_default (f : option string) (ks : list string) :
  hash_string (fragment_after_query f ks)
  = hash_string (fragment_after_query (Some (default "" f)) ks).
Proof. destruct f as [f |]; reflexivity. Qed.

Lemma In_fold_delete (ks : list string) (l : URLSearchParams.t) (q : string * string) :
  In q (fold_left URLSearchParams.delete ks l) -> In q l.
Proof.
  revert l. induction ks as [| k ks IH]; intros l H; [exact H |].
  cbn [fold_left] in H. apply IH in H. unfold URLSearchParams.delete in H.
  apply filter_In in H as [H _]. exact H.
Qed.

Lemma serialize_has_equals (l : URLSearchParams.t) :
  l <> [] -> Js.includes "=" (URLSearchParams.toString l) = true.
Proof.
  destruct l as [| [n v] r]; [congruence |]. intros _.
  unfold URLSearchParams.toString, Encoding.serialize_urlencoded.
  assert (H : Js.includes "=" (Encoding.serialize_pair (n, v)) = true).
  { unfold Encoding.serialize_pair. rewrite !includes_app.
    cbn [Js.includes Ascii.eqb Bool.eqb orb]. rewrite orb_true_r. reflexivity. }
  destruct r as [| q r]; cbn [map]; [exact H |].
  rewrite join_cons2, includes_app, H. reflexivity.
Qed.

Lemma fragment_after_query_idempotent (f : option string) (ks : list string) :
  fragment_after_query (fragment_after_query f ks) ks = fragment_after_query f ks.
Proof.
  destruct f as [f |]; [| reflexivity].
  destruct (Encoding.nonempty f && Js.includes "=" f) eqn:E.
  - set (l := fold_left URLSearchParams.delete ks (URLSearchParams.new f)).
    assert (Hg : fragment_after_query (Some f) ks = query_of_list l)
      by (unfold fragment_after_query; rewrite E; reflexivity).
    rewrite Hg. unfold query_of_list.
    destruct (Encoding.nonempty (URLSearchParams.toString l)) eqn:En; [| reflexivity].
    assert (Hl : l <> []) by (intros Hl; rewrite Hl in En; discriminate En).
    unfold fragment_after_query.
    rewrite En, (serialize_has_equals _ Hl). cbn [andb].
    rewrite new_serialized. unfold l at 1. rewrite fold_delete_idempotent. fold l.
    unfold query_of_list. rewrite En. reflexivity.
  - assert (Hg : fragment_after_query (Some f) ks = Some f)
      by (unfold fragment_after_query; rewrite E; reflexivity).
    rewrite Hg. exact Hg.
Qed.

Lemma toSnakeCase_empty (key : string) : toSnakeCase key = "" -> key = "".
Proof.
  unfold toSnakeCase. destruct (table_get CAMEL_TO_SNAKE key) as [v |] eqn:E.
  - intros ->. apply table_get_In in E. cbn in E.
    repeat (destruct E as [[=] | E]). destruct E.
  - destruct (Js.startsWith key "utm" && (3 <? String.length key)); [discriminate | auto].
Qed.

Lemma written_pairs (sp : UtmParameters) (l : URLSearchParams.t) :
  all_defined sp -> List.NoDup (keys sp) ->
  ~ In ("", Some "") sp -> ~ In ("", "") l ->
  ~ In ("", "") (fold_left (Appender.fragment_step false) sp l).
Proof.
  intros Hd Hnd Hsp Hl. rewrite (write_all sp l Hd Hnd). intros H.
  apply in_app_iff in H as [H | H].
  - apply Hl. apply (In_fold_delete _ _ _ H).
  - apply Hsp. apply values_of_In, H.
Qed.

Lemma snakeParams_no_empty_pair (p : UtmParameters) :
  ~ In ("", Some "") p -> ~ In ("", Some "") (toSnakeCaseParams p).
Proof.
  intros Hp H. unfold toSnakeCaseParams, convertParams in H.
  apply convertParams_loop_entries in H as [[] | (k & w & Hk & Hconv & Hw)].
  cbn [converter] in Hconv. symmetry in Hconv. apply toSnakeCase_empty in Hconv.
  subst k. injection Hw as <-. exact (Hp Hk).
Qed.

Lemma filter_all {A} (f : A -> bool) (l : list A) :
  (forall x, In x l -> f x = true) -> List.filter f l = l.
Proof.
  induction l as [| a l IH]; intros H; [reflexivity |]. cbn [List.filter].
  rewrite (H a (or_introl eq_refl)). f_equal. apply IH. intros x Hx. apply H. right. exact Hx.
Qed.

(** The loop gives the same list when it runs on what is read in the
    rendering of its result: a pair with empty name and empty value that
    the parameters hold leaves no trace in the rendering, and is written
    again. *)
Lemma write_again (sp : UtmParameters) (l : URLSearchParams.t) :
  all_defined sp -> List.NoDup (keys sp) -> ~ In ("", "") l ->
  fold_left (Appender.fragment_step false) sp
    (List.filter (fun e => negb (empty_pair e))
       (fold_left (Appender.fragment_step false) sp l))
  = fold_left (Appender.fragment_step false) sp l.
Proof.
  intros Hd Hnd Hl. rewrite !(write_all sp _ Hd Hnd). f_equal.
  rewrite List.filter_app, fold_delete_app.
  rewrite (filter_all _ (fold_left URLSearchParams.delete (keys sp) l)).
  - rewrite fold_delete_idempotent.
    rewrite (fold_delete_filter (keys sp) (List.filter _ (values_of sp))), filter_filter.
    rewrite (List.filter_ext _ (fun e => negb (named_in (keys sp) e) && negb (empty_pair e)))
      by (intros e; apply andb_comm).
    rewrite <- filter_filter, <- fold_delete_filter, fold_delete_values.
    apply app_nil_r.
  - intros [n v] Hin. apply In_fold_delete in Hin. unfold empty_pair. cbn [fst snd].
    destruct (String.eqb_spec n "") as [-> | _]; [| reflexivity].
    destruct (String.eqb_spec v "") as [-> | _]; [| reflexivity].
    contradiction (Hl Hin).
Qed.

(** Injecting once more into the record that injection wrote. *)
Lemma inject_written (tf : bool) (r : URL.record) (sp : UtmParameters) :
  sp <> [] -> all_defined sp -> List.NoDup (keys sp) ->
  ~ In ("", "") (target_pairs tf r) ->
  (if tf then Appender.appendToFragment (object_of (written tf r sp)) sp false
   else Appender.appendToQuery (object_of (written tf r sp)) sp false)
  = (if tf then Appender.appendToFragment (object_of r) sp false
     else Appender.appendToQuery (object_of r) sp false).
Proof.
  intros Hsp Hd Hnd Hl. unfold target_pairs in Hl. destruct tf.
  - rewrite !(appendToFragment_eq _ _ _ Hsp). unfold written.
    cbn [object_of URL.url URL.searchParams URL.scheme URL.username URL.password
         URL.host URL.pathname URL.query URL.fragment]. cbv zeta.
    rewrite default_query_of_list. unfold URLSearchParams.toString at 1.
    rewrite parse_serialize, fold_delete_idempotent.
    rewrite default_nonempty, new_rendered by apply buildQueryString_chars.
    rewrite parse_buildQueryString_all, (write_again _ _ Hd Hnd Hl). reflexivity.
  - rewrite !appendToQuery_eq. unfold written.
    cbn [object_of URL.url URL.searchParams URL.scheme URL.username URL.password
         URL.host URL.pathname URL.query URL.fragment]. cbv zeta.
    rewrite default_nonempty.
    rewrite parse_buildQueryString_all, (write_again _ _ Hd Hnd Hl).
    rewrite fragment_after_query_idempotent. reflexivity.
Qed.

(** Injection sees of a record its scheme, its host, its path, the pairs
    of its query and its fragment, and its userinfo when the platform
    serializes the URL. *)
Lemma appendToQuery_reading (a b : URL.record) (sp : UtmParameters) (pe : bool) :
  URL.scheme a = URL.scheme b -> URL.host a = URL.host b ->
  URL.pathname a = URL.pathname b ->
  Encoding.parse_urlencoded (default "" (URL.query a))
  = Encoding.parse_urlencoded (default "" (URL.query b)) ->
  default "" (URL.fragment a) = default "" (URL.fragment b) ->
  Appender.appendToQuery (object_of a) sp pe = Appender.appendToQuery (object_of b) sp pe.
Proof.
  intros H1 H2 H3 H4 H5. rewrite !appendToQuery_eq.
  cbn [object_of URL.url URL.searchParams].
  rewrite H1, H2, H3, H4.
  rewrite (hash_after_query_default (URL.fragment a)), H5,
    <- (hash_after_query_default (URL.fragment b)).
  reflexivity.
Qed.

Lemma appendToFragment_reading (a b : URL.record) (sp : UtmParameters) (pe : bool) :
  sp <> [] ->
  URL.scheme a = URL.scheme b -> URL.host a = URL.host b ->
  URL.pathname a = URL.pathname b ->
  URL.username a = URL.username b -> URL.password a = URL.password b ->
  Encoding.parse_urlencoded (default "" (URL.query a))
  = Encoding.parse_urlencoded (default "" (URL.query b)) ->
  default "" (URL.fragment a) = default "" (URL.fragment b) ->
  Appender.appendToFragment (object_of a) sp pe
  = Appender.appendToFragment (object_of b) sp pe.
Proof.
  intros Hsp H1 H2 H3 H4 H5 H6 H7.
  rewrite !(appendToFragment_eq _ _ _ Hsp).
  cbn [object_of URL.url URL.searchParams].
  rewrite H1, H2, H3, H4, H5, H6, H7. reflexivity.
Qed.

(** C7 (as amended).  With [preserveExisting] off, injecting the same
    parameters a second time changes nothing, for every URL whose first
    result the URL parser reads back (the scheme, host and path it was
    written with, the pairs of its query, its fragment), when the
    location written to holds no pair with empty name and empty value. *)
Theorem injection_idempotent
    (parser : string -> option URL.record) (url : string) (p : UtmParameters)
    (options : AppendOptions)
    (Hreplace : default false (preserveExisting options) = false)
    (Hread : forall r,
        parser url = Some r -> Appender.hasValidUtmEntries p = true ->
        URL.well_formed r = true
        /\ ~ In ("", "") (target_pairs (default false (toFragment options)) r)
        /\ exists r1,
             parser (Appender.appendUtmParameters (Some parser) url p options) = Some r1
             /\ reads_back (default false (toFragment options)) r r1
                  (Appender.appendUtmParameters (Some parser) url p options)) :
  Appender.appendUtmParameters (Some parser)
    (Appender.appendUtmParameters (Some parser) url p options) p options
  = Appender.appendUtmParameters (Some parser) url p options.
Proof.
  destruct (Appender.hasValidUtmEntries p) eqn:Hvalid.
  2: { rewrite !appendUtmParameters_unchanged by (left; exact Hvalid). reflexivity. }
  destruct (parser url) as [r |] eqn:Hparse.
  2: { rewrite (appendUtmParameters_unchanged parser url) by (right; exact Hparse).
       apply appendUtmParameters_unchanged. right. exact Hparse. }
  destruct (Hread r eq_refl eq_refl)
    as (Hwf & Hpairs & r1 & Hr1 & Hs & Hh & Hpath & Hcred & Hq & Hf).
  rewrite (appendUtmParameters_parsed parser _ p options r1 Hvalid Hr1).
  rewrite (appendUtmParameters_parsed parser url p options r Hvalid Hparse) in Hq, Hf |- *.
  rewrite Hreplace in Hq, Hf |- *.
  destruct (snakeParams_facts p) as [Hnd Hd].
  pose proof (hasValid_nonempty _ Hvalid) as Hsp.
  pose proof (inject_written (default false (toFragment options)) r
                (toSnakeCaseParams p) Hsp Hd Hnd Hpairs) as Hw.
  destruct (default false (toFragment options)).
  - destruct (appendToFragment_read r (toSnakeCaseParams p) false Hwf Hsp) as [Eq Ef].
    rewrite Eq in Hq. rewrite Ef in Hf. destruct (Hcred eq_refl) as [Hu Hpw].
    rewrite <- Hw. apply (appendToFragment_reading _ _ _ _ Hsp);
      unfold written;
      cbn [URL.scheme URL.username URL.password URL.host URL.pathname URL.query
           URL.fragment]; try assumption.
    + rewrite default_query_of_list. exact Hq.
    + cbv zeta. rewrite default_nonempty. exact Hf.
  - destruct (appendToQuery_read r (toSnakeCaseParams p) false Hwf) as [Eq Ef].
    rewrite Eq in Hq. rewrite Ef in Hf.
    rewrite <- Hw. apply appendToQuery_reading;
      unfold written;
      cbn [URL.scheme URL.username URL.password URL.host URL.pathname URL.query
           URL.fragment]; try assumption.
    cbv zeta. rewrite default_nonempty. exact Hq.
Qed.

Lemma injection_idempotent_witness :
  let parser :=
    parser_of
      [("https://example.com/?ref=abc&utm_source=old#section",
        http_url "example.com" "/" (Some "ref=abc&utm_source=old") (Some "section"));
       ("https://example.com/?ref=abc&utm_source=it's#section",
        http_url "example.com" "/" (Some "ref=abc&utm_source=it%27s") (Some "section"))] in
  Appender.appendUtmParameters (Some parser)
    "https://example.com/?ref=abc&utm_source=old#section"
    [("utmSource", Some "it's")] no_options
  = "https://example.com/?ref=abc&utm_source=it's#section"
  /\ Appender.appendUtmParameters (Some parser)
       (Appender.appendUtmParameters (Some parser)
          "https://example.com/?ref=abc&utm_source=old#section"
          [("utmSource", Some "it's")] no_options)
       [("utmSource", Some "it's")] no_options
     = Appender.appendUtmParameters (Some parser)
         "https://example.com/?ref=abc&utm_source=old#section"
         [("utmSource", Some "it's")] no_options.
Proof.
  cbv zeta. split; [reflexivity |].
  apply (injection_idempotent
           (parser_of
              [("https://example.com/?ref=abc&utm_source=old#section",
                http_url "example.com" "/" (Some "ref=abc&utm_source=old")
                  (Some "section"));
               ("https://example.com/?ref=abc&utm_source=it's#section",
                http_url "example.com" "/" (Some "ref=abc&utm_source=it%27s")
                  (Some "section"))])
           "https://example.com/?ref=abc&utm_source=old#section"
           [("utmSource", Some "it's")] no_options).
  - reflexivity.
  - intros r Hr _. vm_compute in Hr. injection Hr as <-.
    split; [reflexivity | split].
    + intros H. vm_compute in H.
      repeat (destruct H as [H | H]; [discriminate H |]). exact H.
    + exists (http_url "example.com" "/" (Some "ref=abc&utm_source=it%27s")
                (Some "section")).
      split; [reflexivity |]. unfold reads_back.
      repeat split; try reflexivity; discriminate.
Defined.

(** C7 (as stated) fails: the query [=] holds one pair with empty name and
    empty value, the first injection renders it as the empty text before
    the ampersand, and the second injection, reading no pair there, drops
    the ampersand. *)
Lemma injection_idempotent_counterexample :
  let parser :=
    parser_of
      [("https://example.com/?=", http_url "example.com" "/" (Some "=") None);
       ("https://example.com/?&utm_source=x",
        http_url "example.com" "/" (Some "&utm_source=x") None)] in
  let once := Appender.appendUtmParameters (Some parser) "https://example.com/?="
                [("utm_source", Some "x")] no_options in
  let twice := Appender.appendUtmParameters (Some parser) once
                 [("utm_source", Some "x")] no_options in
  once = "https://example.com/?&utm_source=x"
  /\ twice = "https://example.com/?utm_source=x"
  /\ twice <> once.
Proof. cbv zeta. split; [reflexivity | split; [reflexivity | discriminate]]. Qed.

(** * Further properties of the code *)

(** ** Keys *)

Lemma utm_key_shape (c : ascii) (r : string) :
  isSnakeCaseUtmKey ("utm" +:+ String c r) = Ascii.eqb c "_"
  /\ isCamelCaseUtmKey ("utm" +:+ String c r) = Js.is_upper c.
Proof.
  split.
  - unfold isSnakeCaseUtmKey, Js.startsWith. cbv [String.append].
    cbn [String.prefix].
    destruct (ascii_dec "u" "u") as [_ | n]; [| contradiction].
    destruct (ascii_dec "t" "t") as [_ | n]; [| contradiction].
    destruct (ascii_dec "m" "m") as [_ | n]; [| contradiction].
    destruct (ascii_dec "_" c) as [<- | n].
    + destruct r; reflexivity.
    + symmetry. apply Ascii.eqb_neq. congruence.
  - unfold isCamelCaseUtmKey.
    replace (Js.startsWith ("utm" +:+ String c r) "utm") with true
      by (symmetry; apply (startsWith_append "utm")).
    replace (String.length ("utm" +:+ String c r) <=? 3) with false
      by (symmetry; apply Nat.leb_gt; long_enough).
    reflexivity.
Qed.

Lemma not_utm_not_camel (key : string) :
  Js.startsWith key "utm" && (3 <? String.length key) = false ->
  isCamelCaseUtmKey key = false.
Proof.
  intros H. unfold isCamelCaseUtmKey.
  destruct (Js.startsWith key "utm"); [| reflexivity].
  cbn [andb] in H. apply Nat.ltb_ge in H. apply Nat.leb_le in H. rewrite H. reflexivity.
Qed.

Lemma toSnakeCase_cases (key : string) :
  isSnakeCaseUtmKey (toSnakeCase key) = isUtmKey key
  /\ isCamelCaseUtmKey (toSnakeCase key) = false.
Proof.
  destruct (table_get CAMEL_TO_SNAKE key) as [v |] eqn:E.
  - assert (Hv : toSnakeCase key = v) by (unfold toSnakeCase; rewrite E; reflexivity).
    rewrite Hv. apply table_get_In in E. cbn in E.
    repeat (destruct E as [[= <- <-] | E]; [split; reflexivity |]). destruct E.
  - destruct (Js.startsWith key "utm" && (3 <? String.length key)) eqn:E2.
    + apply andb_prop in E2 as [Hp Hl]. apply Nat.ltb_lt in Hl.
      rewrite (toSnakeCase_generic _ Hp Hl).
      pose proof (startsWith_utm _ Hp) as Hk. unfold snake_of, isUtmKey.
      destruct (Js.slice 3 key) as [| c r]; subst key.
      { cbv [String.append String.length] in Hl. lia. }
      destruct (utm_key_shape c r) as [-> ->].
      rewrite snake_suffix_cons. destruct (Js.is_upper c) eqn:Hup.
      * destruct (utm_key_shape "_"
                    (String (Js.lower_char c) (Js.toLowerCase (underscore_uppers r))))
          as [Hs Hc].
        rewrite Hs, Hc, orb_true_r. split; reflexivity.
      * destruct (utm_key_shape c (Js.toLowerCase (underscore_uppers r))) as [Hs Hc].
        rewrite Hs, Hc, orb_false_r. split; [reflexivity | exact Hup].
    + assert (Hv : toSnakeCase key = key)
        by (unfold toSnakeCase; rewrite E, E2; reflexivity).
      rewrite Hv. unfold isUtmKey. rewrite (not_utm_not_camel _ E2), orb_false_r.
      split; reflexivity.
Qed.

(** X1.  On a plain key (ASCII text that names no member inherited from
    [Object.prototype]), [toSnakeCase] gives a snake_case key exactly on
    the keys of the UTM namespace, and never gives a camelCase key. *)
Theorem toSnakeCase_result (key : string) (Hkey : plain_key key = true) :
  isSnakeCaseUtmKey (toSnakeCase key) = isUtmKey key
  /\ isCamelCaseUtmKey (toSnakeCase key) = false.
Proof. exact (toSnakeCase_cases key). Qed.

Lemma toSnakeCase_result_witness :
  toSnakeCase "utmTeamId" = "utm_team_id"
  /\ isSnakeCaseUtmKey (toSnakeCase "utmTeamId") = isUtmKey "utmTeamId"
  /\ isCamelCaseUtmKey (toSnakeCase "utmTeamId") = false.
Proof.
  split; [reflexivity |]. apply (toSnakeCase_result "utmTeamId"). reflexivity.
Defined.

Lemma snake_not_camel (key : string) :
  isSnakeCaseUtmKey key = true -> isCamelCaseUtmKey key = false.
Proof.
  intros H. pose proof (startsWith_utm_ _ H) as Hk. rewrite Hk.
  change ("utm_" +:+ Js.slice 4 key) with ("utm" +:+ String "_" (Js.slice 4 key)).
  destruct (utm_key_shape "_" (Js.slice 4 key)) as [_ ->]. reflexivity.
Qed.

(** X2.  [detectKeyFormat] answers camelCase exactly when the first key of
    the UTM namespace, in the order of the object, is a camelCase key;
    values play no part. *)
Theorem detectKeyFormat_first_key (params : UtmParameters) :
  detectKeyFormat params = camelCase
  <-> exists before key value after,
        params = before ++ (key, value) :: after
        /\ (forall k, In k (keys before) -> isUtmKey k = false)
        /\ isCamelCaseUtmKey key = true.
Proof.
  unfold detectKeyFormat. induction params as [| [k v] r IH]; cbn [keys map fst detectKeyFormat_loop].
  - split; [discriminate |]. intros (b & ? & ? & ? & H & _). destruct b; discriminate H.
  - destruct (isSnakeCaseUtmKey k) eqn:Hs; [| destruct (isCamelCaseUtmKey k) eqn:Hc].
    + split; [discriminate |]. intros (b & key & value & a & H & Hb & Hkey).
      destruct b as [| [k0 v0] b]; cbn in H; injection H as ? ? ?; subst.
      * rewrite (snake_not_camel _ Hs) in Hkey. discriminate Hkey.
      * specialize (Hb _ (or_introl eq_refl)). cbn [fst] in Hb. unfold isUtmKey in Hb.
        rewrite Hs in Hb. discriminate Hb.
    + split; [| reflexivity]. intros _. exists [], k, v, r.
      split; [reflexivity |]. split; [intros ? [] | exact Hc].
    + rewrite IH. split.
      * intros (b & key & value & a & -> & Hb & Hkey).
        exists ((k, v) :: b), key, value, a. split; [reflexivity |].
        split; [| exact Hkey]. intros k' [Heq | Hin].
        -- cbn [fst] in Heq. subst k'. unfold isUtmKey. rewrite Hs, Hc. reflexivity.
        -- apply Hb, Hin.
      * intros (b & key & value & a & H & Hb & Hkey).
        destruct b as [| [k0 v0] b]; cbn in H; injection H as ? ? ?; subst.
        -- rewrite Hc in Hkey. discriminate Hkey.
        -- exists b, key, value, a. split; [reflexivity |].
           split; [| exact Hkey]. intros k' Hin. apply Hb. right. exact Hin.
Qed.

(** X3.  On a plain key (ASCII text that names no member inherited from
    [Object.prototype]), normalising to snake_case is idempotent, and a
    key of the UTM namespace is normalised to a snake_case key;
    [toUrlKey] is the same function. *)
Theorem toUrlKey_idempotent (key : string) (Hkey : plain_key key = true) :
  toUrlKey (toUrlKey key) = toUrlKey key
  /\ normalizeKey key snake_case = toUrlKey key
  /\ isSnakeCaseUtmKey (toUrlKey key) = isUtmKey key.
Proof.
  unfold normalizeKey, toUrlKey. destruct (isSnakeCaseUtmKey key) eqn:Hs.
  - rewrite Hs. unfold isUtmKey. rewrite Hs. auto.
  - destruct (toSnakeCase_cases key) as [Hr _].
    destruct (isSnakeCaseUtmKey (toSnakeCase key)); [auto |].
    rewrite toSnakeCase_idempotent. auto.
Qed.

Lemma toUrlKey_idempotent_witness :
  toUrlKey "utmTeamId" = "utm_team_id"
  /\ toUrlKey (toUrlKey "utmTeamId") = toUrlKey "utmTeamId"
  /\ normalizeKey "utmTeamId" snake_case = toUrlKey "utmTeamId"
  /\ isSnakeCaseUtmKey (toUrlKey "utmTeamId") = isUtmKey "utmTeamId".
Proof.
  split; [reflexivity |]. apply (toUrlKey_idempotent "utmTeamId"). reflexivity.
Defined.

(** ** Converting parameter objects *)

Lemma assign_In_same {V} (o : list (string * V)) (k : string) (v : V) :
  In (k, v) (assign o k v).
Proof.
  induction o as [| [k' v'] r IH]; cbn [assign]; [left; reflexivity |].
  destruct (String.eqb_spec k' k) as [-> | _]; [left; reflexivity | right; exact IH].
Qed.

Lemma assign_In_other {V} (o : list (string * V)) (k x : string) (v w : V) :
  x <> k -> In (x, w) o -> In (x, w) (assign o k v).
Proof.
  intros Hx. induction o as [| [k' v'] r IH]; cbn [assign]; [intros [] |].
  destruct (String.eqb_spec k' k) as [-> | _]; intros [[= <- <-] | H].
  - contradiction.
  - right. exact H.
  - left. reflexivity.
  - right. apply IH, H.
Qed.

Lemma convertParams_loop_app conv (a b acc : UtmParameters) :
  convertParams_loop conv (a ++ b) acc
  = convertParams_loop conv b (convertParams_loop conv a acc).
Proof.
  revert acc. induction a as [| [k [v |]] r IH]; intros acc; cbn [app convertParams_loop];
    [reflexivity | apply IH | apply IH].
Qed.

Lemma convertParams_loop_keeps conv (l acc : UtmParameters) (x : string)
    (w : option string) :
  (forall k v, In (k, Some v) l -> conv k <> x) ->
  In (x, w) acc -> In (x, w) (convertParams_loop conv l acc).
Proof.
  revert acc. induction l as [| [k [v |]] r IH]; intros acc Hl Hin;
    cbn [convertParams_loop]; [exact Hin | |].
  - apply IH; [intros k' v' H; apply (Hl k' v'); right; exact H |].
    apply assign_In_other; [| exact Hin].
    intros ->. apply (Hl k v); [left |]; reflexivity.
  - apply IH; [intros k' v' H; apply (Hl k' v'); right; exact H | exact Hin].
Qed.

(** X4.  Converting a valid parameter object to snake_case gives a valid
    snake_case object; in either format the result has pairwise distinct
    keys and no undefined value. *)
Theorem convertParams_snake_valid (p : UtmParameters) (f : KeyFormat)
    (Hvalid : isValidUtmParameters p None = true) :
  isValidUtmParameters (convertParams p snake_case) (Some snake_case) = true
  /\ List.NoDup (keys (convertParams p f))
  /\ all_defined (convertParams p f).
Proof.
  split; [| split].
  - unfold isValidUtmParameters.
    destruct (convertParams p snake_case) as [| e q] eqn:E; [reflexivity |].
    rewrite <- E. apply forallb_forall. intros [k v] Hin. cbn [key_ok].
    destruct (convertParams_loop_spec toSnakeCase p []) as (_ & _ & Hkeys).
    destruct (Hkeys k) as [[] | (k0 & Hk0 & ->)].
    { apply (in_map fst) in Hin. exact Hin. }
    apply isUtmKey_toSnakeCase, (isValidUtmParameters_keys _ Hvalid), Hk0.
  - apply (convertParams_loop_spec (converter f) p []). apply List.NoDup_nil.
  - apply (convertParams_loop_spec (converter f) p []). intros ? ? [].
Qed.

Lemma convertParams_snake_valid_witness :
  isValidUtmParameters
    (convertParams [("utmSource", Some "a"); ("utm_team_id", Some "b")] snake_case)
    (Some snake_case) = true
  /\ List.NoDup
       (keys (convertParams [("utmSource", Some "a"); ("utm_team_id", Some "b")] camelCase))
  /\ all_defined
       (convertParams [("utmSource", Some "a"); ("utm_team_id", Some "b")] camelCase).
Proof.
  apply (convertParams_snake_valid
           [("utmSource", Some "a"); ("utm_team_id", Some "b")] camelCase).
  reflexivity.
Defined.

(** X5.  Conversion to snake_case is idempotent on every parameter
    object with plain keys (ASCII text that names no member inherited
    from [Object.prototype], and is not made of digits). *)
Theorem convertParams_snake_idempotent (p : UtmParameters) (Hkeys : plain_keys p) :
  convertParams (convertParams p snake_case) snake_case = convertParams p snake_case.
Proof. apply convertParams_via_snake. left. reflexivity. Qed.

Lemma convertParams_snake_idempotent_witness :
  convertParams [("utmSource", Some "a"); ("utmTeamId", Some "b"); ("ref", Some "c")]
    snake_case
  = [("utm_source", Some "a"); ("utm_team_id", Some "b"); ("ref", Some "c")]
  /\ convertParams
       (convertParams [("utmSource", Some "a"); ("utmTeamId", Some "b"); ("ref", Some "c")]
          snake_case) snake_case
     = convertParams [("utmSource", Some "a"); ("utmTeamId", Some "b"); ("ref", Some "c")]
         snake_case.
Proof.
  split; [reflexivity |].
  apply (convertParams_snake_idempotent
           [("utmSource", Some "a"); ("utmTeamId", Some "b"); ("ref", Some "c")]).
  intros k [<- | [<- | [<- | []]]]; split; reflexivity.
Defined.

(** X6.  When several keys of the input convert to the same key, the
    value of the last of them with a defined value is the one kept. *)
Theorem convertParams_last_wins
    (p before after : UtmParameters) (f : KeyFormat) (key value : string)
    (Hsplit : p = before ++ (key, Some value) :: after)
    (Hlast : forall k v, In (k, Some v) after -> converter f k <> converter f key) :
  In (converter f key, Some value) (convertParams p f)
  /\ forall w, In (converter f key, w) (convertParams p f) -> w = Some value.
Proof.
  assert (Hin : In (converter f key, Some value) (convertParams p f)).
  { subst p. unfold convertParams. rewrite convertParams_loop_app.
    cbn [convertParams_loop]. apply convertParams_loop_keeps; [exact Hlast |].
    apply assign_In_same. }
  split; [exact Hin |]. intros w Hw.
  apply (keys_functional (convertParams p f) (converter f key)); [| exact Hw | exact Hin].
  apply (convertParams_loop_spec (converter f) p []). apply List.NoDup_nil.
Qed.

Lemma convertParams_last_wins_witness :
  In (converter snake_case "utmSource", Some "b")
     (convertParams [("utm_source", Some "a"); ("utmSource", Some "b")] snake_case)
  /\ forall w,
       In (converter snake_case "utmSource", w)
          (convertParams [("utm_source", Some "a"); ("utmSource", Some "b")] snake_case) ->
       w = Some "b".
Proof.
  apply (convertParams_last_wins
           [("utm_source", Some "a"); ("utmSource", Some "b")]
           [("utm_source", Some "a")] [] snake_case "utmSource" "b").
  - reflexivity.
  - intros k v [].
Defined.

(** ** Capture *)

Lemma capture_fold_NoDup (allowedSet : option (list string))
    (entries : list (string * string)) (acc : UtmParameters) :
  List.NoDup (keys acc) ->
  List.NoDup (keys (fold_left (Capture.capture_step allowedSet) entries acc)).
Proof.
  revert acc. induction entries as [| [k v] r IH]; intros acc H; [exact H |].
  cbn [fold_left]. apply IH. unfold Capture.capture_step.
  destruct (isSnakeCaseUtmKey k); [| exact H].
  destruct (match allowedSet with None => true | Some a => Capture.set_has a k end);
    [apply NoDup_keys_assign, H | exact H].
Qed.

Lemma capture_fold_keeps (allowedSet : option (list string))
    (entries : list (string * string)) (acc : UtmParameters) (x : string)
    (w : option string) :
  ~ In x (map fst entries) -> In (x, w) acc ->
  In (x, w) (fold_left (Capture.capture_step allowedSet) entries acc).
Proof.
  revert acc. induction entries as [| [k v] r IH]; intros acc Hx Hin; [exact Hin |].
  cbn [fold_left]. cbn [map fst In] in Hx. apply IH; [tauto |].
  unfold Capture.capture_step.
  destruct (isSnakeCaseUtmKey k); [| exact Hin].
  destruct (match allowedSet with None => true | Some a => Capture.set_has a k end);
    [| exact Hin].
  apply assign_In_other; [| exact Hin]. intros ->. tauto.
Qed.

(** What [captureUtmParameters] returns: nothing, or the object of the
    capture loop over some list of pairs, converted on request. *)
Lemma capture_cases (URL_global : option (string -> option URL.record))
    (href url : option string) (options : CaptureOptions) :
  Capture.captureUtmParameters URL_global href url options = []
  \/ exists allowedSet entries,
       Capture.captureUtmParameters URL_global href url options
       = match default snake_case (capture_keyFormat options) with
         | camelCase => convertParams (Capture.capture_loop allowedSet entries) camelCase
         | snake_case => Capture.capture_loop allowedSet entries
         end.
Proof.
  unfold Capture.captureUtmParameters.
  destruct (negb _); [left; reflexivity |].
  destruct URL_global as [parser |]; [| left; reflexivity].
  unfold URL.new. destruct (parser _) as [r |]; [| left; reflexivity].
  right. cbn [bind try_catch]. eexists _, _. reflexivity.
Qed.

Lemma capture_snake_facts
    (URL_global : option (string -> option URL.record)) (href url : option string)
    (options : CaptureOptions) :
  default snake_case (capture_keyFormat options) = snake_case ->
  isValidUtmParameters (Capture.captureUtmParameters URL_global href url options)
    (Some snake_case) = true
  /\ List.NoDup (keys (Capture.captureUtmParameters URL_global href url options))
  /\ all_defined (Capture.captureUtmParameters URL_global href url options).
Proof.
  intros Hformat. destruct (capture_cases URL_global href url options) as [-> | (a & l & ->)].
  { split; [reflexivity |]. split; [apply List.NoDup_nil | intros ? ? []]. }
  rewrite Hformat. split; [| split].
  - unfold isValidUtmParameters.
    destruct (Capture.capture_loop a l) as [| e q] eqn:E; [reflexivity |].
    rewrite <- E. apply forallb_forall. intros [k v] Hin. cbn [key_ok].
    apply (in_map fst) in Hin. apply capture_loop_keys in Hin. tauto.
  - apply capture_fold_NoDup, List.NoDup_nil.
  - apply capture_fold_defined. intros ? ? [].
Qed.

(** X7.  Whatever the environment and the input, a capture in the
    snake_case format returns a valid snake_case parameter object with
    pairwise distinct keys and no undefined value. *)
Theorem capture_snake_valid
    (URL_global : option (string -> option URL.record)) (href url : option string)
    (options : CaptureOptions)
    (Hformat : default snake_case (capture_keyFormat options) = snake_case) :
  let result := Capture.captureUtmParameters URL_global href url options in
  isValidUtmParameters result (Some snake_case) = true
  /\ List.NoDup (keys result)
  /\ all_defined result.
Proof. exact (capture_snake_facts URL_global href url options Hformat). Qed.

Lemma capture_snake_valid_witness :
  let result :=
    Capture.captureUtmParameters
      (Some (parser_of [("https://example.com/?utm_source=a&ref=c&utm_source=b",
                         http_url "example.com" "/"
                           (Some "utm_source=a&ref=c&utm_source=b") None)]))
      None (Some "https://example.com/?utm_source=a&ref=c&utm_source=b")
      {| capture_keyFormat := None; allowedParameters := None |} in
  isValidUtmParameters result (Some snake_case) = true
  /\ List.NoDup (keys result)
  /\ all_defined result.
Proof.
  apply (capture_snake_valid
           (Some (parser_of [("https://example.com/?utm_source=a&ref=c&utm_source=b",
                              http_url "example.com" "/"
                                (Some "utm_source=a&ref=c&utm_source=b") None)]))
           None (Some "https://example.com/?utm_source=a&ref=c&utm_source=b")
           {| capture_keyFormat := None; allowedParameters := None |}).
  reflexivity.
Defined.

(** X8.  When a UTM key occurs several times in the query string, the
    capture keeps the value of its last occurrence. *)
Theorem capture_last_value_wins
    (parser : string -> option URL.record) (href url : option string)
    (options : CaptureOptions) (r : URL.record)
    (before after : list (string * string)) (key value : string)
    (Hurl : Encoding.nonempty
              (match url with Some u => u | None => default "" href end) = true)
    (Hparse : parser (match url with Some u => u | None => default "" href end)
              = Some r)
    (Hformat : default snake_case (capture_keyFormat options) = snake_case)
    (Hsplit : Encoding.parse_urlencoded (default "" (URL.query r))
              = before ++ (key, value) :: after)
    (Hlast : ~ In key (URLSearchParams.names after))
    (Hkey : isSnakeCaseUtmKey key = true)
    (Hallowed : allowed_ok (allowedParameters options) key) :
  let result := Capture.captureUtmParameters (Some parser) href url options in
  In (key, Some value) result
  /\ forall w, In (key, w) result -> w = Some value.
Proof.
  cbv zeta.
  assert (Hnodup :
            List.NoDup (keys (Capture.captureUtmParameters (Some parser) href url options)))
    by apply (capture_snake_facts (Some parser) href url options Hformat).
  assert (Hin : In (key, Some value)
                   (Capture.captureUtmParameters (Some parser) href url options)).
  { unfold Capture.captureUtmParameters. rewrite Hurl. cbn [negb].
    unfold URL.new. rewrite Hparse. cbn [bind try_catch URL.searchParams].
    rewrite Hformat. unfold URLSearchParams.entries, Capture.capture_loop.
    rewrite Hsplit, fold_left_app. cbn [fold_left].
    apply capture_fold_keeps; [exact Hlast |].
    unfold Capture.capture_step at 1. rewrite Hkey.
    replace (match match allowedParameters options with
                   | Some ((_ :: _) as allowed) => Some allowed
                   | _ => None
                   end with
             | None => true
             | Some allowed => Capture.set_has allowed key
             end) with true; [apply assign_In_same |].
    unfold allowed_ok in Hallowed.
    destruct (allowedParameters options) as [[| a l] |]; try reflexivity.
    symmetry. apply set_has_In, Hallowed. }
  split; [exact Hin |]. intros w Hw.
  exact (keys_functional _ key w (Some value) Hnodup Hw Hin).
Qed.

Lemma capture_last_value_wins_witness :
  let result :=
    Capture.captureUtmParameters
      (Some (parser_of [("https://example.com/?utm_source=a&ref=c&utm_source=b",
                         http_url "example.com" "/"
                           (Some "utm_source=a&ref=c&utm_source=b") None)]))
      None (Some "https://example.com/?utm_source=a&ref=c&utm_source=b")
      {| capture_keyFormat := None; allowedParameters := None |} in
  In ("utm_source", Some "b") result
  /\ forall w, In ("utm_source", w) result -> w = Some "b".
Proof.
  apply (capture_last_value_wins
           (parser_of [("https://example.com/?utm_source=a&ref=c&utm_source=b",
                        http_url "example.com" "/"
                          (Some "utm_source=a&ref=c&utm_source=b") None)])
           None (Some "https://example.com/?utm_source=a&ref=c&utm_source=b")
           {| capture_keyFormat := None; allowedParameters := None |}
           (http_url "example.com" "/" (Some "utm_source=a&ref=c&utm_source=b") None)
           [("utm_source", "a"); ("ref", "c")] [] "utm_source" "b").
  - reflexivity.
  - reflexivity.
  - reflexivity.
  - reflexivity.
  - intros [].
  - reflexivity.
  - exact I.
Defined.

(** ** Session storage: clearing, inspecting, and what a store leaves *)

Lemma isStorageAvailable_inv throws (st st' : Storage.sessionStorage) (b : bool) :
  Storage.isStorageAvailable throws st = (b, st') ->
  (b = false /\ st' = st)
  \/ (exists items, st = Some items /\ throws items Storage.testKey "test" = false
                    /\ b = true /\ st' = Some (after_probe items)).
Proof.
  destruct st as [items |]; unfold Storage.isStorageAvailable, Storage.setItem.
  - destruct (throws items Storage.testKey "test") eqn:E; intros [= <- <-].
    + left. auto.
    + right. exists items. auto.
  - intros [= <- <-]. left. auto.
Qed.

Lemma slot_of_probe throws (st : Storage.sessionStorage) (key : string) :
  key <> Storage.testKey ->
  slot_of (snd (Storage.isStorageAvailable throws st)) key = slot_of st key.
Proof.
  intros Hkey. destruct (Storage.isStorageAvailable throws st) as [b st'] eqn:E.
  apply isStorageAvailable_inv in E as [[_ ->] | (items & -> & _ & _ & ->)];
    [reflexivity |].
  cbn [snd slot_of]. apply after_probe_lookup, Hkey.
Qed.



Lemma hasStored_get throws JSON_parse (slot : option string)
    (st : Storage.sessionStorage) :
  fst (hasStoredUtmParameters throws JSON_parse slot st)
  = match fst (Storage.getStoredUtmParameters throws JSON_parse
                 {| storageKey := Some (default Storage.DEFAULT_STORAGE_KEY slot);
                    keyFormat := None |} st) with
    | Normal (Some p) => 0 <? length (keys p)
    | _ => false
    end.
Proof.
  unfold hasStoredUtmParameters.
  destruct (Storage.getStoredUtmParameters _ _ _ _) as [params st']. reflexivity.
Qed.


Lemma store_outcome throws (p : UtmParameters) (options : StorageOptions)
    (st : Storage.sessionStorage) :
  let slot := default Storage.DEFAULT_STORAGE_KEY (storageKey options) in
  let serialized :=
    Storage.JSON_stringify (convertParams p (default snake_case (keyFormat options))) in
  Storage.storeUtmParameters throws p options st
  = snd (Storage.isStorageAvailable throws st)
  \/ exists items,
       st = Some items /\ p <> []
       /\ throws items Storage.testKey "test" = false
       /\ throws (after_probe items) slot serialized = false
       /\ Storage.storeUtmParameters throws p options st
          = Some (<[slot := serialized]> (after_probe items)).
Proof.
  cbv zeta. unfold Storage.storeUtmParameters.
  destruct (Storage.isStorageAvailable throws st) as [b st'] eqn:E.
  apply isStorageAvailable_inv in E as [[-> ->] | (items & -> & Hp & -> & ->)].
  { left. reflexivity. }
  destruct p as [| e r]; [left; reflexivity |].
  cbn [keys map length Nat.eqb]. unfold Storage.setItem.
  destruct (throws (after_probe items) _ _) eqn:Hw; [left; reflexivity |].
  right. exists items. repeat split; try assumption. discriminate.
Qed.

(** X10.  The storage operations touch nothing but their own slot and the
    key of the availability probe: every other slot reads the same after
    a store, a read, a clear or a probe. *)
Theorem storage_frame
    throws JSON_parse (p : UtmParameters) (options : StorageOptions)
    (st : Storage.sessionStorage) (other : string)
    (Hother : other <> default Storage.DEFAULT_STORAGE_KEY (storageKey options))
    (Hprobe : other <> Storage.testKey) :
  slot_of (Storage.storeUtmParameters throws p options st) other = slot_of st other
  /\ slot_of (snd (Storage.getStoredUtmParameters throws JSON_parse options st)) other
     = slot_of st other
  /\ slot_of (clearStoredUtmParameters throws (storageKey options) st) other
     = slot_of st other
  /\ slot_of (snd (hasStoredUtmParameters throws JSON_parse (storageKey options) st)) other
     = slot_of st other
  /\ slot_of (snd (getRawStoredValue throws (storageKey options) st)) other
     = slot_of st other
  /\ slot_of (snd (isSessionStorageAvailable throws st)) other = slot_of st other.
Proof.
  assert (Hget : forall o,
             snd (Storage.getStoredUtmParameters throws JSON_parse o st)
             = snd (Storage.isStorageAvailable throws st)).
  { intros o. unfold Storage.getStoredUtmParameters.
    destruct (Storage.isStorageAvailable throws st) as [b st'] eqn:E.
    apply isStorageAvailable_inv in E as [[-> ->] | (items & -> & _ & -> & ->)];
      reflexivity. }
  split; [| split; [| split; [| split; [| split]]]].
  - destruct (store_outcome throws p options st) as [-> | (items & -> & _ & _ & _ & ->)].
    + apply slot_of_probe, Hprobe.
    + cbn [slot_of]. rewrite lookup_insert_ne by congruence.
      apply after_probe_lookup, Hprobe.
  - rewrite Hget. apply slot_of_probe, Hprobe.
  - unfold clearStoredUtmParameters.
    destruct (Storage.isStorageAvailable throws st) as [b st'] eqn:E.
    apply isStorageAvailable_inv in E as [[-> ->] | (items & -> & _ & -> & ->)];
      [reflexivity |].
    cbn [slot_of]. rewrite lookup_delete_ne by congruence.
    apply after_probe_lookup, Hprobe.
  - unfold hasStoredUtmParameters.
    pose proof (Hget {| storageKey :=
                          Some (default Storage.DEFAULT_STORAGE_KEY (storageKey options));
                        keyFormat := None |}) as H.
    destruct (Storage.getStoredUtmParameters _ _ _ _) as [params st'].
    cbn [snd] in H |- *. rewrite H. apply slot_of_probe, Hprobe.
  - unfold getRawStoredValue.
    destruct (Storage.isStorageAvailable throws st) as [b st'] eqn:E.
    apply isStorageAvailable_inv in E as [[-> ->] | (items & -> & _ & -> & ->)];
      [reflexivity |].
    cbn [snd slot_of]. apply after_probe_lookup, Hprobe.
  - apply slot_of_probe, Hprobe.
Qed.

Lemma storage_frame_witness :
  slot_of (Storage.storeUtmParameters (fun _ _ _ => false) [("utm_source", Some "a")]
             {| storageKey := None; keyFormat := None |}
             (Some (<["cart" := "3"]> ∅))) "cart"
  = slot_of (Some (<["cart" := "3"]> ∅)) "cart".
Proof.
  apply (storage_frame (fun _ _ _ => false) (fun _ => None) [("utm_source", Some "a")]
           {| storageKey := None; keyFormat := None |}
           (Some (<["cart" := "3"]> ∅)) "cart").
  - discriminate.
  - discriminate.
Defined.

(** X11.  After a store of an object with plain keys, the slot holds
    either what it held before or the serialization of the converted
    parameters, and the latter exactly when the storage is available, the
    object has a key and the write is accepted. *)
Theorem store_writes_or_keeps
    throws (p : UtmParameters) (options : StorageOptions) (items : gmap string string)
    (Hkeys : plain_keys p)
    (Hslot : default Storage.DEFAULT_STORAGE_KEY (storageKey options)
             <> Storage.testKey) :
  let slot := default Storage.DEFAULT_STORAGE_KEY (storageKey options) in
  let serialized :=
    Storage.JSON_stringify (convertParams p (default snake_case (keyFormat options))) in
  slot_of (Storage.storeUtmParameters throws p options (Some items)) slot
  = if negb (throws items Storage.testKey "test")
       && negb (length (keys p) =? 0)
       && negb (throws (after_probe items) slot serialized)
    then Some serialized
    else items !! slot.
Proof.
  cbv zeta. unfold Storage.storeUtmParameters, Storage.isStorageAvailable, Storage.setItem.
  destruct (throws items Storage.testKey "test") eqn:Hp; [reflexivity |].
  fold (after_probe items). cbn [negb andb].
  destruct (length (keys p) =? 0) eqn:Hl.
  { cbn [try_catch slot_of negb andb]. apply after_probe_lookup, Hslot. }
  cbn [negb andb].
  destruct (throws (after_probe items) _ _) eqn:Hw; cbn [bind try_catch slot_of negb].
  - apply after_probe_lookup, Hslot.
  - apply lookup_insert_eq.
Qed.

Lemma store_writes_or_keeps_witness :
  slot_of (Storage.storeUtmParameters
             (fun _ key _ => String.eqb key "utm_parameters")
             [("utm_source", Some "a")] {| storageKey := None; keyFormat := None |}
             (Some (<["utm_parameters" := "old"]> ∅))) "utm_parameters"
  = (<["utm_parameters" := "old"]> ∅ : gmap string string) !! "utm_parameters".
Proof.
  apply (store_writes_or_keeps (fun _ key _ => String.eqb key "utm_parameters")
           [("utm_source", Some "a")] {| storageKey := None; keyFormat := None |}
           (<["utm_parameters" := "old"]> ∅)).
  - intros k [<- | []]. split; reflexivity.
  - discriminate.
Defined.

Lemma isValidStoredData_json_of_eq (q : UtmParameters) :
  all_defined q ->
  Storage.isValidStoredData (json_of q) None = isValidUtmParameters q None.
Proof.
  intros Hd. unfold json_of, Storage.isValidStoredData, isValidUtmParameters.
  assert (H : forallb (fun '(key, value) => Storage.is_string value && key_ok None key)
                (json_members q)
              = forallb (fun '(key, _) => key_ok None key) q).
  { induction q as [| [k [v |]] r IH]; cbn [json_members forallb].
    - reflexivity.
    - cbn [Storage.is_string andb]. f_equal. apply IH.
      intros a b Hin. apply (Hd a b). right. exact Hin.
    - exfalso. apply (Hd k None); [left |]; reflexivity. }
  destruct q as [| [k [v |]] r]; [reflexivity | exact H |].
  exfalso. apply (Hd k None); [left |]; reflexivity.
Qed.

Lemma convertParams_defined (p : UtmParameters) (f : KeyFormat) :
  all_defined (convertParams p f).
Proof. apply (convertParams_loop_spec (converter f) p []). intros ? ? []. Qed.

(** The state after a store that goes through, and the three readers on
    it. *)
Lemma read_after_store
    throws JSON_parse (p : UtmParameters) (slot : string) (fs fr : option KeyFormat)
    (items : gmap string string) :
  let q := convertParams p (default snake_case fs) in
  let stored := <[slot := Storage.JSON_stringify q]> (after_probe items) in
  p <> [] ->
  slot <> Storage.testKey ->
  throws items Storage.testKey "test" = false ->
  throws (after_probe items) slot (Storage.JSON_stringify q) = false ->
  throws stored Storage.testKey "test" = false ->
  JSON_parse (Storage.JSON_stringify q) = Some (json_of q) ->
  Storage.storeUtmParameters throws p {| storageKey := Some slot; keyFormat := fs |}
    (Some items) = Some stored
  /\ fst (Storage.getStoredUtmParameters throws JSON_parse
            {| storageKey := Some slot; keyFormat := fr |} (Some stored))
     = Normal (if isValidUtmParameters q None
               then Some (match fr with
                          | Some f => convertParams q f
                          | None => q
                          end)
               else None)
  /\ fst (getRawStoredValue throws (Some slot) (Some stored))
     = Some (Storage.JSON_stringify q).
Proof.
  intros q stored Hne Hslot Hprobe1 Hwrite Hprobe2 Hjson.
  split; [| split].
  - unfold Storage.storeUtmParameters.
    rewrite (isStorageAvailable_ok _ _ Hprobe1).
    destruct p as [| e r]; [contradiction Hne; reflexivity |].
    cbn [keys map length Nat.eqb storageKey keyFormat default from_option id].
    unfold Storage.setItem. fold q. rewrite Hwrite. reflexivity.
  - unfold Storage.getStoredUtmParameters.
    rewrite (isStorageAvailable_ok _ _ Hprobe2).
    cbn [fst storageKey keyFormat default from_option id]. f_equal.
    rewrite (after_probe_lookup _ _ Hslot). unfold stored.
    rewrite lookup_insert_eq, Hjson. cbn [bind].
    rewrite (isValidStoredData_json_of_eq q (convertParams_defined _ _)).
    destruct (isValidUtmParameters q None); cbn [negb]; [| reflexivity].
    rewrite (as_params_json_of q (convertParams_defined _ _)).
    destruct fr; reflexivity.
  - unfold getRawStoredValue. rewrite (isStorageAvailable_ok _ _ Hprobe2).
    cbn [fst default from_option id].
    rewrite (after_probe_lookup _ _ Hslot). apply lookup_insert_eq.
Qed.

(** X12.  Reading after a store of an object with plain keys that went
    through returns the stored object, converted on request, exactly when
    every key of the stored object belongs to the UTM namespace;
    otherwise the record is there but reads as null. *)
Theorem store_then_get_any_format
    throws JSON_parse (p : UtmParameters) (slot : string) (fs fr : option KeyFormat)
    (items : gmap string string)
    (Hkeys : plain_keys p)
    (Hnonempty : p <> [])
    (Hslot : slot <> Storage.testKey)
    (Hprobe1 : throws items Storage.testKey "test" = false)
    (Hwrite : throws (after_probe items) slot
                (Storage.JSON_stringify (convertParams p (default snake_case fs)))
              = false)
    (Hprobe2 : throws (<[slot := Storage.JSON_stringify
                                   (convertParams p (default snake_case fs))]>
                         (after_probe items)) Storage.testKey "test" = false)
    (Hjson : JSON_parse (Storage.JSON_stringify (convertParams p (default snake_case fs)))
             = Some (json_of (convertParams p (default snake_case fs)))) :
  let q := convertParams p (default snake_case fs) in
  fst (Storage.getStoredUtmParameters throws JSON_parse
         {| storageKey := Some slot; keyFormat := fr |}
         (Storage.storeUtmParameters throws p
            {| storageKey := Some slot; keyFormat := fs |} (Some items)))
  = Normal (if isValidUtmParameters q None
            then Some (match fr with
                       | Some f => convertParams q f
                       | None => q
                       end)
            else None).
Proof.
  cbv zeta.
  destruct (read_after_store throws JSON_parse p slot fs fr items
              Hnonempty Hslot Hprobe1 Hwrite Hprobe2 Hjson) as (-> & H & _).
  exact H.
Qed.

Lemma store_then_get_any_format_witness :
  fst (Storage.getStoredUtmParameters (fun _ _ _ => false)
         (parse_only (Storage.JSON_stringify [("utm2024", Some "x")])
                     (JObject [("utm2024", JString "x")]))
         {| storageKey := Some "slot"; keyFormat := None |}
         (Storage.storeUtmParameters (fun _ _ _ => false) [("utm_2024", Some "x")]
            {| storageKey := Some "slot"; keyFormat := Some camelCase |} (Some ∅)))
  = Normal None.
Proof.
  apply (store_then_get_any_format (fun _ _ _ => false)
           (parse_only (Storage.JSON_stringify [("utm2024", Some "x")])
                       (JObject [("utm2024", JString "x")]))
           [("utm_2024", Some "x")] "slot" (Some camelCase) None ∅).
  - intros k [<- | []]. split; reflexivity.
  - discriminate.
  - discriminate.
  - reflexivity.
  - reflexivity.
  - reflexivity.
  - reflexivity.
Defined.

(** X13.  After a store of an object with plain keys that went through,
    [getRawStoredValue] returns the JSON text of the converted object,
    and [hasStoredUtmParameters] is true exactly when that object is
    valid and has at least one key. *)
Theorem store_then_inspect
    throws JSON_parse (p : UtmParameters) (slot : string) (fs : option KeyFormat)
    (items : gmap string string)
    (Hkeys : plain_keys p)
    (Hnonempty : p <> [])
    (Hslot : slot <> Storage.testKey)
    (Hprobe1 : throws items Storage.testKey "test" = false)
    (Hwrite : throws (after_probe items) slot
                (Storage.JSON_stringify (convertParams p (default snake_case fs)))
              = false)
    (Hprobe2 : throws (<[slot := Storage.JSON_stringify
                                   (convertParams p (default snake_case fs))]>
                         (after_probe items)) Storage.testKey "test" = false)
    (Hjson : JSON_parse (Storage.JSON_stringify (convertParams p (default snake_case fs)))
             = Some (json_of (convertParams p (default snake_case fs)))) :
  let q := convertParams p (default snake_case fs) in
  let st := Storage.storeUtmParameters throws p
              {| storageKey := Some slot; keyFormat := fs |} (Some items) in
  fst (getRawStoredValue throws (Some slot) st) = Some (Storage.JSON_stringify q)
  /\ fst (hasStoredUtmParameters throws JSON_parse (Some slot) st)
     = isValidUtmParameters q None && (0 <? length (keys q)).
Proof.
  cbv zeta.
  destruct (read_after_store throws JSON_parse p slot fs None items
              Hnonempty Hslot Hprobe1 Hwrite Hprobe2 Hjson) as (-> & Hget & Hraw).
  split; [exact Hraw |].
  rewrite hasStored_get. cbn [default from_option id]. rewrite Hget.
  destruct (isValidUtmParameters _ None); reflexivity.
Qed.

Lemma store_then_inspect_witness :
  let st := Storage.storeUtmParameters (fun _ _ _ => false) [("utm_source", None)]
              {| storageKey := Some "slot"; keyFormat := None |} (Some ∅) in
  fst (getRawStoredValue (fun _ _ _ => false) (Some "slot") st) = Some "{}"
  /\ fst (hasStoredUtmParameters (fun _ _ _ => false)
            (parse_only "{}" (JObject [])) (Some "slot") st)
     = false.
Proof.
  apply (store_then_inspect (fun _ _ _ => false) (parse_only "{}" (JObject []))
           [("utm_source", None)] "slot" None ∅).
  - intros k [<- | []]. split; reflexivity.
  - discriminate.
  - discriminate.
  - reflexivity.
  - reflexivity.
  - reflexivity.
  - reflexivity.
Defined.

(** ** Injection: which pairs the target location holds afterwards *)

(** X14.  With [preserveExisting] the target location keeps all its pairs
    in their order, and the injected pairs whose key it did not have are
    appended in the order of the parameters; this for parameters with
    plain keys and a target location whose pairs are well-formed text. *)
Theorem preserve_existing_only_appends
    (parser : string -> option URL.record) (url : string) (p : UtmParameters)
    (options : AppendOptions) (r : URL.record)
    (Hvalid : Appender.hasValidUtmEntries p = true)
    (Hparse : parser url = Some r)
    (Hwf : URL.well_formed r = true)
    (Hpreserve : default false (preserveExisting options) = true)
    (Hkeys : plain_keys p)
    (Htext : text_pairs (target_pairs (default false (toFragment options)) r) = true) :
  let result := Appender.appendUtmParameters (Some parser) url p options in
  let existing := target_pairs (default false (toFragment options)) r in
  (if default false (toFragment options) then fragment_of result else query_of result)
  = Appender.buildQueryString
      (existing
       ++ List.filter (fun e => negb (URLSearchParams.has existing (fst e)))
            (values_of (toSnakeCaseParams p))).
Proof.
  cbv zeta. rewrite (target_read _ _ _ _ _ Hvalid Hparse Hwf), Hpreserve.
  destruct (snakeParams_facts p) as [Hn Hd]. rewrite (write_absent _ _ Hd Hn).
  reflexivity.
Qed.

Lemma preserve_existing_only_appends_witness :
  let parser := parser_of [("https://example.com/?utm_source=old&ref=1",
                            http_url "example.com" "/" (Some "utm_source=old&ref=1") None)] in
  let options := {| toFragment := None; preserveExisting := Some true |} in
  let result := Appender.appendUtmParameters (Some parser)
                  "https://example.com/?utm_source=old&ref=1"
                  [("utm_source", Some "new"); ("utm_medium", Some "email")] options in
  query_of result
  = Appender.buildQueryString
      ([("utm_source", "old"); ("ref", "1")] ++ [("utm_medium", "email")]).
Proof.
  apply (preserve_existing_only_appends
           (parser_of [("https://example.com/?utm_source=old&ref=1",
                        http_url "example.com" "/" (Some "utm_source=old&ref=1") None)])
           "https://example.com/?utm_source=old&ref=1"
           [("utm_source", Some "new"); ("utm_medium", Some "email")]
           {| toFragment := None; preserveExisting := Some true |}
           (http_url "example.com" "/" (Some "utm_source=old&ref=1") None)).
  - reflexivity.
  - reflexivity.
  - reflexivity.
  - reflexivity.
  - intros k [<- | [<- | []]]; split; reflexivity.
  - reflexivity.
Defined.

(** X15.  Without [preserveExisting] the target location keeps, in their
    order, its pairs that are not named by an injected key, followed by
    the injected pairs in the order of the parameters; this for
    parameters with plain keys and a target location whose pairs are
    well-formed text. *)
Theorem replace_keeps_other_pairs
    (parser : string -> option URL.record) (url : string) (p : UtmParameters)
    (options : AppendOptions) (r : URL.record)
    (Hvalid : Appender.hasValidUtmEntries p = true)
    (Hparse : parser url = Some r)
    (Hwf : URL.well_formed r = true)
    (Hreplace : default false (preserveExisting options) = false)
    (Hkeys : plain_keys p)
    (Htext : text_pairs (target_pairs (default false (toFragment options)) r) = true) :
  let result := Appender.appendUtmParameters (Some parser) url p options in
  let existing := target_pairs (default false (toFragment options)) r in
  (if default false (toFragment options) then fragment_of result else query_of result)
  = Appender.buildQueryString
      (List.filter (fun e => negb (named_in (keys (toSnakeCaseParams p)) e)) existing
       ++ values_of (toSnakeCaseParams p)).
Proof.
  cbv zeta. rewrite (target_read _ _ _ _ _ Hvalid Hparse Hwf), Hreplace.
  destruct (snakeParams_facts p) as [Hn Hd].
  rewrite (write_all _ _ Hd Hn), fold_delete_filter. reflexivity.
Qed.

Lemma replace_keeps_other_pairs_witness :
  let parser := parser_of [("https://example.com/?utm_source=old&ref=1",
                            http_url "example.com" "/" (Some "utm_source=old&ref=1") None)] in
  let result := Appender.appendUtmParameters (Some parser)
                  "https://example.com/?utm_source=old&ref=1"
                  [("utmMedium", Some "email"); ("utm_source", Some "new")] no_options in
  query_of result
  = Appender.buildQueryString
      ([("ref", "1")] ++ [("utm_medium", "email"); ("utm_source", "new")]).
Proof.
  apply (replace_keeps_other_pairs
           (parser_of [("https://example.com/?utm_source=old&ref=1",
                        http_url "example.com" "/" (Some "utm_source=old&ref=1") None)])
           "https://example.com/?utm_source=old&ref=1"
           [("utmMedium", Some "email"); ("utm_source", Some "new")] no_options
           (http_url "example.com" "/" (Some "utm_source=old&ref=1") None)).
  - reflexivity.
  - reflexivity.
  - reflexivity.
  - reflexivity.
  - intros k [<- | [<- | []]]; split; reflexivity.
  - reflexivity.
Defined.

(** ** Removing parameters *)

(** The query and the fragment of a serialized record. *)
Lemma serialize_read (r : URL.record) :
  URL.well_formed r = true ->
  query_of (URL.serialize r) = default "" (URL.query r)
  /\ fragment_of (URL.serialize r) = default "" (URL.fragment r).
Proof.
  intros Hwf. destruct (well_formed_parts _ Hwf) as (H1 & H2 & H3 & H4 & H5 & H6).
  unfold URL.serialize.
  assert (Ha : URL.no_delimiter (URL.authority r) = true).
  { unfold URL.authority. destruct (URL.host r) as [h |].
    - rewrite !no_delimiter_app. cbn [default from_option id] in H4.
      rewrite H4, (credentials_no_delimiter _ H2 H3). reflexivity.
    - destruct (Js.startsWith (URL.pathname r) "//"); reflexivity. }
  set (base := URL.scheme r +:+ ":" +:+ URL.authority r +:+ URL.pathname r).
  replace (URL.scheme r +:+ ":" +:+ URL.authority r +:+ URL.pathname r
           +:+ URL.optional "?" (URL.query r) +:+ URL.optional "#" (URL.fragment r))
    with (base +:+ URL.optional "?" (URL.query r) +:+ URL.optional "#" (URL.fragment r))
    by (unfold base; rewrite !append_assoc; reflexivity).
  assert (Hbase : URL.no_delimiter base = true).
  { unfold base. rewrite !no_delimiter_app, H1, Ha, H5. reflexivity. }
  apply no_delimiter_inv in Hbase as [Hb1 Hb2].
  exact (read_back base (URL.query r) (URL.fragment r) Hb1 Hb2 H6).
Qed.

(** A record that differs from a well-formed one in its query and its
    fragment only. *)
Lemma well_formed_outside (r r' : URL.record) :
  URL.well_formed r = true ->
  outside_query r' = outside_query (URL.with_fragment r (URL.fragment r')) ->
  Js.includes "#" (default "" (URL.query r')) = false ->
  URL.well_formed r' = true.
Proof.
  intros Hwf Ho Hq. destruct (well_formed_parts _ Hwf) as (H1 & H2 & H3 & H4 & H5 & _).
  unfold outside_query in Ho. cbn in Ho. injection Ho as E1 E2 E3 E4 E5.
  unfold URL.well_formed. rewrite E1, E2, E3, E4, E5, H1, H2, H3, H4, H5, Hq. reflexivity.
Qed.

(** The test for a fragment that contains parameters. *)
Lemma hash_has_equals (f : option string) :
  Encoding.nonempty (hash_string f) && Js.includes "=" (hash_string f)
  = Js.includes "=" (default "" f).
Proof. destruct f as [[| c s] |]; reflexivity. Qed.

Lemma to_delete_filter (keysToRemove : option (list string)) (l : URLSearchParams.t) :
  fold_left URLSearchParams.delete
    (List.filter (to_delete keysToRemove) (URLSearchParams.names l)) l
  = List.filter (fun e => negb (to_delete keysToRemove (fst e))) l.
Proof.
  rewrite fold_delete_filter. apply List.filter_ext_in. intros e He. f_equal.
  unfold named_in. destruct (to_delete keysToRemove (fst e)) eqn:Ed.
  - apply existsb_exists. exists (fst e). split; [| apply String.eqb_refl].
    apply filter_In. split; [| exact Ed]. apply in_map, He.
  - apply not_true_is_false. intros H. apply existsb_exists in H as (x & Hx & Heq).
    apply String.eqb_eq in Heq. subst x. apply filter_In in Hx as [_ Hx]. congruence.
Qed.

(** X16.  On a URL whose pairs are well-formed text,
    [removeUtmParameters] keeps, in their order, exactly the pairs of the
    query that are not to be removed (all snake_case UTM keys, or the
    listed keys); it does the same in a fragment that contains a [=] and
    leaves any other fragment as it is. *)
Theorem remove_keeps_the_rest
    (parser : string -> option URL.record) (url : string)
    (keysToRemove : option (list string)) (r : URL.record)
    (Hparse : parser url = Some r)
    (Hwf : URL.well_formed r = true)
    (Htext : text_pairs (Encoding.parse_urlencoded (default "" (URL.query r))
                         ++ fragment_pairs r) = true) :
  let result := removeUtmParameters (Some parser) url keysToRemove in
  let kept := fun e : string * string => negb (to_delete keysToRemove (fst e)) in
  Encoding.parse_urlencoded (query_of result)
  = List.filter kept (Encoding.parse_urlencoded (default "" (URL.query r)))
  /\ (if Js.includes "=" (default "" (URL.fragment r))
      then URLSearchParams.new (fragment_of result)
           = List.filter kept (URLSearchParams.new (default "" (URL.fragment r)))
      else fragment_of result = default "" (URL.fragment r)).
Proof.
  cbv zeta. unfold removeUtmParameters, URL.new. rewrite Hparse.
  cbn [bind try_catch URL.searchParams].
  set (L := Encoding.parse_urlencoded (default "" (URL.query r))).
  set (ks := List.filter (to_delete keysToRemove) (URLSearchParams.names L)).
  set (u0 := {| URL.url := r; URL.searchParams := L |}).
  destruct (delete_fold ks u0) as (H1 & H2 & H3).
  set (u1 := fold_left URL.searchParams_delete ks u0) in *.
  cbn [URL.url URL.searchParams u0] in H1, H2, H3.
  assert (Hquery : Encoding.parse_urlencoded (default "" (URL.query (URL.url u1)))
                   = fold_left URLSearchParams.delete ks L
                   /\ Js.includes "#" (default "" (URL.query (URL.url u1))) = false).
  { destruct ks as [| k ks'] eqn:Eks.
    - unfold u1. cbn [fold_left u0 URL.url]. split; [reflexivity |].
      apply (well_formed_parts _ Hwf).
    - rewrite H3 by discriminate. rewrite default_query_of_list. split.
      + apply parse_serialize.
      + apply query_chars_no_delimiter, serialize_chars. }
  destruct Hquery as [Hq Hqh].
  assert (Ho := H2). unfold outside_query in H2. injection H2 as E1 E2 E3 E4 E5 E6.
  rewrite get_hash_string, E6, hash_has_equals, slice_hash_string.
  replace (match URL.fragment r with Some x => x | None => "" end)
    with (default "" (URL.fragment r)) by (destruct (URL.fragment r); reflexivity).
  unfold ks in Hq. rewrite to_delete_filter in Hq.
  destruct (Js.includes "=" (default "" (URL.fragment r))) eqn:Ef.
  - rewrite set_hash_rendered by apply serialize_chars.
    unfold URL.toString. cbn [URL.url].
    set (F := fold_left URLSearchParams.delete _ _).
    set (r2 := URL.with_fragment (URL.url u1) _).
    assert (Hwf2 : URL.well_formed r2 = true).
    { apply (well_formed_outside r); [exact Hwf | | exact Hqh].
      unfold outside_query, r2. cbn. rewrite E1, E2, E3, E4, E5. reflexivity. }
    destruct (serialize_read _ Hwf2) as [-> ->]. split; [exact Hq |].
    unfold r2. cbn [URL.with_fragment URL.fragment]. rewrite default_nonempty.
    rewrite new_serialized. unfold F. apply to_delete_filter.
  - unfold URL.toString.
    assert (Hwf1 : URL.well_formed (URL.url u1) = true).
    { apply (well_formed_outside r); [exact Hwf | | exact Hqh].
      unfold outside_query. cbn. rewrite E1, E2, E3, E4, E5. reflexivity. }
    destruct (serialize_read _ Hwf1) as [-> ->]. rewrite E6. split; [exact Hq | reflexivity].
Qed.

Lemma remove_keeps_the_rest_witness :
  let parser := parser_of [("https://example.com/?utm_source=x&ref=z&utm_team=t#a=1&utm_id=9",
                            http_url "example.com" "/" (Some "utm_source=x&ref=z&utm_team=t")
                              (Some "a=1&utm_id=9"))] in
  let result := removeUtmParameters (Some parser)
                  "https://example.com/?utm_source=x&ref=z&utm_team=t#a=1&utm_id=9" None in
  Encoding.parse_urlencoded (query_of result) = [("ref", "z")]
  /\ URLSearchParams.new (fragment_of result) = [("a", "1")].
Proof.
  apply (remove_keeps_the_rest
           (parser_of [("https://example.com/?utm_source=x&ref=z&utm_team=t#a=1&utm_id=9",
                        http_url "example.com" "/" (Some "utm_source=x&ref=z&utm_team=t")
                          (Some "a=1&utm_id=9"))])
           "https://example.com/?utm_source=x&ref=z&utm_team=t#a=1&utm_id=9" None
           (http_url "example.com" "/" (Some "utm_source=x&ref=z&utm_team=t")
              (Some "a=1&utm_id=9"))).
  - reflexivity.
  - reflexivity.
  - reflexivity.
Defined.

(** ** Extracting parameters *)

Lemma property_assign (o : UtmParameters) (k x v : string) :
  property (assign o k (Some v)) x
  = if String.eqb k x then Some v else property o x.
Proof.
  induction o as [| [k' v'] r IH]; cbn [assign property].
  - destruct (String.eqb k x); reflexivity.
  - destruct (String.eqb_spec k' k) as [-> | Hk]; cbn [property].
    + destruct (String.eqb k x); reflexivity.
    + rewrite IH. destruct (String.eqb_spec k' x) as [<- | _]; [| reflexivity].
      destruct (String.eqb_spec k k') as [-> | _]; [contradiction | reflexivity].
Qed.

Lemma property_extract (l : list (string * string)) (acc : UtmParameters)
    (key : string) :
  property (fold_left extract_step l acc) key
  = if isSnakeCaseUtmKey key
    then match found l key with
         | Some v => Some v
         | None => property acc key
         end
    else property acc key.
Proof.
  revert acc. induction l as [| [k v] r IH]; intros acc.
  - cbn. destruct (isSnakeCaseUtmKey key); reflexivity.
  - cbn [fold_left found]. rewrite IH. unfold extract_step.
    destruct (isSnakeCaseUtmKey key) eqn:Hkey.
    + destruct (found r key); [reflexivity |].
      destruct (String.eqb_spec k key) as [-> | Hk].
      * rewrite Hkey, property_assign, String.eqb_refl. reflexivity.
      * destruct (isSnakeCaseUtmKey k); [| reflexivity].
        rewrite property_assign. apply String.eqb_neq in Hk. rewrite Hk. reflexivity.
    + destruct (isSnakeCaseUtmKey k) eqn:Hk; [| reflexivity].
      rewrite property_assign.
      destruct (String.eqb_spec k key) as [-> | _]; [congruence | reflexivity].
Qed.

Lemma extract_parsed (parser : string -> option URL.record) (url : string)
    (r : URL.record) :
  parser url = Some r ->
  extractUtmParameters (Some parser) url
  = fold_left extract_step (fragment_pairs r)
      (fold_left extract_step (Encoding.parse_urlencoded (default "" (URL.query r))) []).
Proof.
  intros Hparse. unfold extractUtmParameters, URL.new. rewrite Hparse.
  cbn [bind try_catch URL.searchParams URLSearchParams.entries].
  rewrite get_hash_string. cbn [URL.url]. rewrite hash_has_equals, slice_hash_string.
  unfold fragment_pairs.
  replace (match URL.fragment r with Some x => x | None => "" end)
    with (default "" (URL.fragment r)) by (destruct (URL.fragment r); reflexivity).
  destruct (Js.includes "=" (default "" (URL.fragment r))); reflexivity.
Qed.

Lemma extract_lookup
    (parser : string -> option URL.record) (url : string) (r : URL.record)
    (key : string) :
  parser url = Some r ->
  property (extractUtmParameters (Some parser) url) key
  = if isSnakeCaseUtmKey key
    then match found (fragment_pairs r) key with
         | Some v => Some v
         | None => found (Encoding.parse_urlencoded (default "" (URL.query r))) key
         end
    else None.
Proof.
  intros Hparse. rewrite (extract_parsed _ _ _ Hparse), !property_extract. cbn [property].
  destruct (isSnakeCaseUtmKey key); [| reflexivity].
  destruct (found (fragment_pairs r) key); [reflexivity |].
  destruct (found _ key); reflexivity.
Qed.

(** X17.  [extractUtmParameters] reads a snake_case UTM key from the
    fragment when the fragment contains a [=] and has the key, else from
    the query; of several pairs with the key the last counts; no other
    key is ever returned. *)
Theorem extract_fragment_first
    (parser : string -> option URL.record) (url : string) (r : URL.record)
    (key : string)
    (Hparse : parser url = Some r) :
  property (extractUtmParameters (Some parser) url) key
  = if isSnakeCaseUtmKey key
    then match found (fragment_pairs r) key with
         | Some v => Some v
         | None => found (Encoding.parse_urlencoded (default "" (URL.query r))) key
         end
    else None.
Proof. exact (extract_lookup parser url r key Hparse). Qed.

Lemma extract_fragment_first_witness :
  property
    (extractUtmParameters
       (Some (parser_of [("https://example.com/?utm_source=q&utm_term=t#utm_source=f&x=2",
                          http_url "example.com" "/" (Some "utm_source=q&utm_term=t")
                            (Some "utm_source=f&x=2"))]))
       "https://example.com/?utm_source=q&utm_term=t#utm_source=f&x=2") "utm_source"
  = Some "f".
Proof.
  apply (extract_fragment_first
           (parser_of [("https://example.com/?utm_source=q&utm_term=t#utm_source=f&x=2",
                        http_url "example.com" "/" (Some "utm_source=q&utm_term=t")
                          (Some "utm_source=f&x=2"))])
           "https://example.com/?utm_source=q&utm_term=t#utm_source=f&x=2"
           (http_url "example.com" "/" (Some "utm_source=q&utm_term=t")
              (Some "utm_source=f&x=2"))
           "utm_source").
  reflexivity.
Defined.

Lemma extract_step_capture (l : list (string * string)) (acc : UtmParameters) :
  fold_left extract_step l acc = fold_left (Capture.capture_step None) l acc.
Proof.
  revert acc. induction l as [| [k v] r IH]; intros acc; [reflexivity |].
  cbn [fold_left]. rewrite IH. reflexivity.
Qed.

(** X18.  On a non-empty URL whose fragment holds no parameters,
    [extractUtmParameters] and a capture with the default options return
    the same object. *)
Theorem extract_agrees_with_capture
    (URL_global : option (string -> option URL.record)) (href : option string)
    (url : string)
    (Hurl : Encoding.nonempty url = true)
    (Hfragment : forall parser r,
        URL_global = Some parser -> parser url = Some r ->
        Js.includes "=" (default "" (URL.fragment r)) = false) :
  extractUtmParameters URL_global url
  = Capture.captureUtmParameters URL_global href (Some url)
      {| capture_keyFormat := None; allowedParameters := None |}.
Proof.
  unfold Capture.captureUtmParameters. rewrite Hurl. cbn [negb].
  destruct URL_global as [parser |]; [| reflexivity].
  destruct (parser url) as [r |] eqn:Hparse.
  - rewrite (extract_parsed _ _ _ Hparse). unfold fragment_pairs.
    rewrite (Hfragment parser r eq_refl Hparse). cbn [fold_left].
    unfold URL.new. rewrite Hparse.
    cbn [bind try_catch URL.searchParams URLSearchParams.entries default from_option id
         capture_keyFormat allowedParameters].
    apply extract_step_capture.
  - unfold extractUtmParameters, URL.new. rewrite Hparse. reflexivity.
Qed.

Lemma extract_agrees_with_capture_witness :
  extractUtmParameters
    (Some (parser_of [("https://example.com/?utm_source=a&ref=c#top",
                       http_url "example.com" "/" (Some "utm_source=a&ref=c") (Some "top"))]))
    "https://example.com/?utm_source=a&ref=c#top"
  = Capture.captureUtmParameters
      (Some (parser_of [("https://example.com/?utm_source=a&ref=c#top",
                         http_url "example.com" "/" (Some "utm_source=a&ref=c")
                           (Some "top"))]))
      None (Some "https://example.com/?utm_source=a&ref=c#top")
      {| capture_keyFormat := None; allowedParameters := None |}.
Proof.
  apply (extract_agrees_with_capture
           (Some (parser_of [("https://example.com/?utm_source=a&ref=c#top",
                              http_url "example.com" "/" (Some "utm_source=a&ref=c")
                                (Some "top"))]))
           None "https://example.com/?utm_source=a&ref=c#top").
  - reflexivity.
  - intros parser r [= <-] H. vm_compute in H. injection H as <-. reflexivity.
Defined.

(** ** Injecting, then extracting *)

Lemma found_app (a b : list (string * string)) (key : string) :
  found (a ++ b) key
  = match found b key with
    | Some v => Some v
    | None => found a key
    end.
Proof.
  induction a as [| [k v] r IH]; cbn [app found].
  - destruct (found b key); reflexivity.
  - rewrite IH. destruct (found b key); reflexivity.
Qed.

Lemma found_absent (l : list (string * string)) (key : string) :
  ~ In key (URLSearchParams.names l) -> found l key = None.
Proof.
  induction l as [| [k v] r IH]; intros H; [reflexivity |].
  cbn [URLSearchParams.names map fst In] in H. cbn [found].
  rewrite IH by tauto.
  destruct (String.eqb_spec k key) as [-> | _]; [tauto | reflexivity].
Qed.

Lemma found_last (l : list (string * string)) (key value : string) :
  List.NoDup (URLSearchParams.names l) -> In (key, value) l ->
  found l key = Some value.
Proof.
  induction l as [| [k v] r IH]; intros Hn Hin; [destruct Hin |].
  cbn [URLSearchParams.names map fst] in Hn. apply List.NoDup_cons_iff in Hn as [Hk Hn].
  cbn [found]. destruct Hin as [[= -> ->] | Hin].
  - rewrite (found_absent _ _ Hk), String.eqb_refl. reflexivity.
  - rewrite (IH Hn Hin). reflexivity.
Qed.

Lemma NoDup_values_of (sp : UtmParameters) :
  List.NoDup (keys sp) -> List.NoDup (URLSearchParams.names (values_of sp)).
Proof.
  induction sp as [| [k [v |]] r IH]; intros Hn; cbn [values_of].
  - apply List.NoDup_nil.
  - cbn [keys map fst] in Hn. apply List.NoDup_cons_iff in Hn as [Hk Hn].
    cbn [URLSearchParams.names map fst]. apply List.NoDup_cons_iff. split; [| apply IH, Hn].
    intros Hin. apply Hk, values_of_names, Hin.
  - cbn [keys map fst] in Hn. apply List.NoDup_cons_iff in Hn as [_ Hn]. apply IH, Hn.
Qed.

Lemma includes_join (c : ascii) (sep x : string) (parts : list string) :
  In x parts -> Js.includes c x = true -> Js.includes c (Encoding.join sep parts) = true.
Proof.
  intros Hin Hx. induction parts as [| y r IH]; [destruct Hin |].
  destruct r as [| z r'].
  - destruct Hin as [-> | []]. exact Hx.
  - rewrite join_cons2, !includes_app. destruct Hin as [-> | Hin].
    + rewrite Hx. reflexivity.
    + rewrite (IH Hin), !orb_true_r. reflexivity.
Qed.

Lemma buildQueryString_has_equals (l : URLSearchParams.t) (key value : string) :
  In (key, value) l -> value <> "" ->
  Js.includes "=" (Appender.buildQueryString l) = true.
Proof.
  intros Hin Hv. unfold Appender.buildQueryString, URLSearchParams.entries.
  apply (includes_join _ _ (Appender.buildQueryString_pair (key, value))).
  - apply in_map, Hin.
  - unfold Appender.buildQueryString_pair. apply String.eqb_neq in Hv. rewrite Hv.
    rewrite !includes_app. cbn. rewrite orb_true_r. reflexivity.
Qed.

(** The pairs of the target location after an injection that replaces. *)
Lemma written_target (sp : UtmParameters) (l : URLSearchParams.t) (key value : string) :
  all_defined sp -> List.NoDup (keys sp) ->
  ~ In ("", Some "") sp -> ~ In ("", "") l ->
  In (key, Some value) sp ->
  let target := fold_left (Appender.fragment_step false) sp l in
  Encoding.parse_urlencoded (Appender.buildQueryString target) = target
  /\ In (key, value) target
  /\ found target key = Some value.
Proof.
  intros Hd Hn Hsp Hl Hin target. split; [| split].
  - apply parse_buildQueryString, written_pairs; assumption.
  - unfold target. rewrite (write_all _ _ Hd Hn). apply in_or_app. right.
    apply values_of_In, Hin.
  - unfold target. rewrite (write_all _ _ Hd Hn), found_app.
    rewrite (found_last (values_of sp) key value); [reflexivity | |].
    + apply NoDup_values_of, Hn.
    + apply values_of_In, Hin.
Qed.

(** X19.  What is injected is what is extracted: after an injection that
    replaces, [extractUtmParameters] on the returned URL gives, for every
    injected snake_case key with a non-empty value, the injected value.
    The URL parser is supposed to read the returned string back into the
    components that were written, and neither the parameters nor the
    target location hold a pair whose key and value are both empty. *)
Theorem extract_after_append
    (parser : string -> option URL.record) (url : string) (p : UtmParameters)
    (options : AppendOptions) (r r1 : URL.record) (key value : string)
    (Hvalid : Appender.hasValidUtmEntries p = true)
    (Hparse : parser url = Some r)
    (Hreplace : default false (preserveExisting options) = false)
    (Hp : ~ In ("", Some "") p)
    (Hpairs : ~ In ("", "") (target_pairs (default false (toFragment options)) r))
    (Hreparse : parser (Appender.appendUtmParameters (Some parser) url p options)
                = Some r1)
    (Hsame : same_components r1
               (written (default false (toFragment options)) r (toSnakeCaseParams p)))
    (Hin : In (key, Some value) (toSnakeCaseParams p))
    (Hkey : isSnakeCaseUtmKey key = true)
    (Hvalue : value <> "") :
  property
    (extractUtmParameters (Some parser)
       (Appender.appendUtmParameters (Some parser) url p options)) key
  = Some value.
Proof.
  rewrite (extract_lookup _ _ _ key Hreparse), Hkey.
  destruct (snakeParams_facts p) as [Hn Hd].
  pose proof (snakeParams_no_empty_pair _ Hp) as Hsp.
  destruct Hsame as (_ & _ & _ & _ & _ & Hq & Hf).
  unfold target_pairs in Hpairs. unfold written in Hq, Hf.
  destruct (default false (toFragment options)).
  - cbn [URL.fragment] in Hf. cbv zeta in Hf. rewrite default_nonempty in Hf.
    destruct (written_target _ _ key value Hd Hn Hsp Hpairs Hin) as (Hread & Hmem & Hfound).
    unfold fragment_pairs. rewrite Hf.
    rewrite (buildQueryString_has_equals _ key value Hmem Hvalue).
    rewrite (new_rendered _ (buildQueryString_chars _)), Hread, Hfound. reflexivity.
  - cbn [URL.query URL.fragment] in Hq, Hf. cbv zeta in Hq. rewrite default_nonempty in Hq.
    destruct (written_target _ _ key value Hd Hn Hsp Hpairs Hin) as (Hread & Hmem & Hfound).
    rewrite Hq, Hread, Hfound.
    assert (Hfrag : found (fragment_pairs r1) key = None).
    { unfold fragment_pairs. rewrite Hf.
      destruct (Js.includes "=" (default "" (URL.fragment r))) eqn:Ef.
      - rewrite (fragment_after_query_pairs _ _ Ef).
        destruct (Js.includes "=" (URLSearchParams.toString _)); [| reflexivity].
        rewrite new_serialized. apply found_absent. rewrite names_fold_delete.
        intros [_ Habs]. apply Habs. apply (in_map fst) in Hin. exact Hin.
      - rewrite (fragment_after_query_opaque _ _ Ef), Ef. reflexivity. }
    rewrite Hfrag. reflexivity.
Qed.

Lemma extract_after_append_witness :
  let parser :=
    parser_of
      [("https://example.com/?utm_source=old#utm_source=frag&x=1",
        http_url "example.com" "/" (Some "utm_source=old") (Some "utm_source=frag&x=1"));
       ("https://example.com/?utm_source=new#x=1",
        http_url "example.com" "/" (Some "utm_source=new") (Some "x=1"))] in
  property
    (extractUtmParameters (Some parser)
       (Appender.appendUtmParameters (Some parser)
          "https://example.com/?utm_source=old#utm_source=frag&x=1"
          [("utmSource", Some "new")] no_options)) "utm_source"
  = Some "new".
Proof.
  apply (extract_after_append
           (parser_of
              [("https://example.com/?utm_source=old#utm_source=frag&x=1",
                http_url "example.com" "/" (Some "utm_source=old")
                  (Some "utm_source=frag&x=1"));
               ("https://example.com/?utm_source=new#x=1",
                http_url "example.com" "/" (Some "utm_source=new") (Some "x=1"))])
           "https://example.com/?utm_source=old#utm_source=frag&x=1"
           [("utmSource", Some "new")] no_options
           (http_url "example.com" "/" (Some "utm_source=old") (Some "utm_source=frag&x=1"))
           (http_url "example.com" "/" (Some "utm_source=new") (Some "x=1"))
           "utm_source" "new").
  - reflexivity.
  - reflexivity.
  - reflexivity.
  - intros [H | []]. discriminate H.
  - intros [H | []]. discriminate H.
  - reflexivity.
  - repeat split.
  - left. reflexivity.
  - reflexivity.
  - discriminate.
Defined.

(** ** Rendering a list of pairs and parsing it back *)

(** X20.  Parsing what [buildQueryString] rendered gives back the pairs
    in their order, except the pairs whose name and value are both empty,
    which leave no trace; the serializer of [URLSearchParams] loses
    nothing. *)
Theorem buildQueryString_read_back (l : URLSearchParams.t) :
  URLSearchParams.new (Appender.buildQueryString l)
  = List.filter (fun p => negb (empty_pair p)) l
  /\ URLSearchParams.new (URLSearchParams.toString l) = l.
Proof.
  split; [| apply new_serialized].
  rewrite (new_rendered _ (buildQueryString_chars l)).
  unfold Appender.buildQueryString, URLSearchParams.entries, Encoding.parse_urlencoded.
  destruct l as [| p r]; [reflexivity |].
  rewrite split_join.
  - remember (p :: r) as l eqn:El. clear El p r.
    induction l as [| p r IH]; [reflexivity |].
    cbn [map List.filter]. rewrite buildQueryString_pair_empty.
    destruct (negb (empty_pair p)); [| exact IH].
    cbn [map]. rewrite parse_buildQueryString_pair, IH. reflexivity.
  - discriminate.
  - apply List.Forall_forall. intros x Hx. apply in_map_iff in Hx as (q & <- & Hq).
    apply buildQueryString_pair_chars.
Qed.

(** ** Nothing to inject, nothing to parse *)

Lemma hasValid_hasUtmParameters (p : UtmParameters) :
  Appender.hasValidUtmEntries p = true -> hasUtmParameters (Some p) = true.
Proof.
  unfold Appender.hasValidUtmEntries, hasUtmParameters. intros H.
  apply existsb_exists in H as ([k [v |]] & Hin & Hv); [| discriminate Hv].
  apply existsb_exists. exists (k, Some v). split; [exact Hin |].
  apply andb_prop in Hv as [_ Hv]. exact Hv.
Qed.

(** X21.  A parameter object without a non-empty value, as
    [hasUtmParameters] tells, is never injected: [appendUtmParameters]
    returns the URL as it was given. *)
Theorem nothing_to_append
    (URL_global : option (string -> option URL.record)) (url : string)
    (p : UtmParameters) (options : AppendOptions)
    (Hnone : hasUtmParameters (Some p) = false) :
  Appender.appendUtmParameters URL_global url p options = url.
Proof.
  unfold Appender.appendUtmParameters.
  destruct (Appender.hasValidUtmEntries p) eqn:E; [| reflexivity].
  apply hasValid_hasUtmParameters in E. congruence.
Qed.

Lemma nothing_to_append_witness :
  Appender.appendUtmParameters
    (Some (parser_of [("https://example.com/", http_url "example.com" "/" None None)]))
    "https://example.com/" [("utm_source", Some ""); ("utm_medium", None)] no_options
  = "https://example.com/".
Proof.
  apply (nothing_to_append
           (Some (parser_of [("https://example.com/",
                              http_url "example.com" "/" None None)]))
           "https://example.com/" [("utm_source", Some ""); ("utm_medium", None)]
           no_options).
  reflexivity.
Defined.

(** X22.  Without the global [URL], or on a string that the URL parser
    rejects, nothing throws: capture and extraction return the empty
    object, removal and injection return the string as it was given; so
    does a capture from the current URL outside a browser. *)
Theorem unparseable_url_degrades
    (URL_global : option (string -> option URL.record)) (href : option string)
    (url : string) (p : UtmParameters) (captureOptions : CaptureOptions)
    (appendOptions : AppendOptions) (keysToRemove : option (list string))
    (Hfail : forall parser, URL_global = Some parser -> parser url = None) :
  Capture.captureUtmParameters URL_global href (Some url) captureOptions = []
  /\ extractUtmParameters URL_global url = []
  /\ removeUtmParameters URL_global url keysToRemove = url
  /\ Appender.appendUtmParameters URL_global url p appendOptions = url
  /\ captureFromCurrentUrl URL_global None captureOptions = [].
Proof.
  unfold captureFromCurrentUrl.
  unfold Capture.captureUtmParameters, extractUtmParameters, removeUtmParameters,
    Appender.appendUtmParameters, URL.new.
  destruct URL_global as [parser |].
  - rewrite (Hfail parser eq_refl). cbn [bind try_catch].
    destruct (negb (Encoding.nonempty url)), (negb (Appender.hasValidUtmEntries p));
      repeat split; reflexivity.
  - cbn [bind try_catch].
    destruct (negb (Encoding.nonempty url)), (negb (Appender.hasValidUtmEntries p));
      repeat split; reflexivity.
Qed.

Lemma unparseable_url_degrades_witness :
  Capture.captureUtmParameters (Some (parser_of [])) None (Some "not a url")
    {| capture_keyFormat := None; allowedParameters := None |} = []
  /\ extractUtmParameters (Some (parser_of [])) "not a url" = []
  /\ removeUtmParameters (Some (parser_of [])) "not a url" None = "not a url"
  /\ Appender.appendUtmParameters (Some (parser_of [])) "not a url"
       [("utm_source", Some "a")] no_options = "not a url"
  /\ captureFromCurrentUrl (Some (parser_of [])) None
       {| capture_keyFormat := None; allowedParameters := None |} = [].
Proof.
  apply (unparseable_url_degrades (Some (parser_of [])) None "not a url"
           [("utm_source", Some "a")]
           {| capture_keyFormat := None; allowedParameters := None |} no_options None).
  intros parser [= <-]. reflexivity.
Defined.

(** ** The share parameters of the hook *)

Lemma assign_all_keeps {V} (a b : list (string * V)) (k : string) (v : V) :
  ~ In k (keys b) -> In (k, v) a -> In (k, v) (assign_all a b).
Proof.
  unfold assign_all. revert a.
  induction b as [| [k' v'] r IH]; intros a Hk Hin; [exact Hin |].
  cbn [keys map fst In] in Hk. cbn [fold_left]. apply IH; [tauto |].
  unfold assign_entry. cbn [fst snd]. apply assign_In_other; [| exact Hin].
  intros ->. tauto.
Qed.

Lemma assign_all_In {V} (a b : list (string * V)) (k : string) (v : V) :
  List.NoDup (keys b) -> In (k, v) b -> In (k, v) (assign_all a b).
Proof.
  unfold assign_all. revert a.
  induction b as [| [k' v'] r IH]; intros a Hn Hin; [destruct Hin |].
  cbn [keys map fst] in Hn. apply List.NoDup_cons_iff in Hn as [Hk Hn].
  cbn [fold_left]. destruct Hin as [[= -> ->] | Hin].
  - apply (assign_all_keeps _ r k v Hk). unfold assign_entry. cbn [fst snd].
    apply assign_In_same.
  - apply IH; assumption.
Qed.

Lemma assign_all_NoDup {V} (a b : list (string * V)) :
  List.NoDup (keys a) -> List.NoDup (keys (assign_all a b)).
Proof.
  unfold assign_all. revert a. induction b as [| [k v] r IH]; intros a Hn; [exact Hn |].
  cbn [fold_left]. apply IH. apply NoDup_keys_assign, Hn.
Qed.

Lemma copy_NoDup {V} (a : list (string * V)) : List.NoDup (keys (copy a)).
Proof. apply assign_all_NoDup, List.NoDup_nil. Qed.

Lemma spread_NoDup {V} (a b : list (string * V)) : List.NoDup (keys (spread a b)).
Proof. apply assign_all_NoDup, copy_NoDup. Qed.

(** The copy of an object is the object. *)
Lemma copy_id {V} (a : list (string * V)) :
  List.NoDup (keys a) -> copy a = a.
Proof.
  intros Hn. unfold copy, assign_all.
  assert (H : forall acc, List.NoDup (keys acc ++ keys a) ->
                          fold_left assign_entry a acc = acc ++ a).
  { clear Hn. induction a as [| [k v] r IH]; intros acc Hn.
    - cbn. rewrite app_nil_r. reflexivity.
    - cbn [fold_left]. unfold assign_entry at 2. cbn [fst snd].
      cbn [keys map fst] in Hn.
      rewrite assign_fresh.
      + rewrite IH.
        * rewrite <- app_assoc. reflexivity.
        * unfold keys. rewrite map_app, <- app_assoc. exact Hn.
      + apply List.NoDup_remove_2 in Hn. intros Hin. apply Hn.
        apply in_or_app. left. exact Hin. }
  apply (H []). exact Hn.
Qed.

Lemma spread_nil_r {V} (a : list (string * V)) :
  List.NoDup (keys a) -> spread a [] = a.
Proof. intros Hn. unfold spread. cbn. apply copy_id, Hn. Qed.

Lemma spread_keeps {V} (a b : list (string * V)) (k : string) (v : V) :
  List.NoDup (keys a) -> ~ In k (keys b) -> In (k, v) a -> In (k, v) (spread a b).
Proof.
  intros Hn Hk Hin. unfold spread. rewrite (copy_id _ Hn).
  apply assign_all_keeps; assumption.
Qed.

Lemma spread_In {V} (a b : list (string * V)) (k : string) (v : V) :
  List.NoDup (keys b) -> In (k, v) b -> In (k, v) (spread a b).
Proof. apply assign_all_In. Qed.

Lemma merged_from (config : Config.ResolvedUtmConfig) (platform : option string)
    (c : UtmParameters) :
  List.NoDup (keys c) ->
  match platform with
  | Some name =>
      if Encoding.nonempty name then
        match property (Config.shareContextParams config) name with
        | Some platformParams =>
            spread match property (Config.shareContextParams config) "default" with
                   | Some d => spread c d
                   | None => c
                   end platformParams
        | None =>
            match property (Config.shareContextParams config) "default" with
            | Some d => spread c d
            | None => c
            end
        end
      else
        match property (Config.shareContextParams config) "default" with
        | Some d => spread c d
        | None => c
        end
  | None =>
      match property (Config.shareContextParams config) "default" with
      | Some d => spread c d
      | None => c
      end
  end
  = spread (spread c (default_params config)) (platform_params config platform).
Proof.
  intros Hc. unfold default_params, platform_params.
  assert (Hd : match property (Config.shareContextParams config) "default" with
               | Some d => spread c d
               | None => c
               end
               = spread c (default [] (property (Config.shareContextParams config)
                                         "default"))).
  { destruct (property (Config.shareContextParams config) "default");
      cbn [default from_option id]; [reflexivity |].
    symmetry. apply spread_nil_r, Hc. }
  rewrite Hd.
  set (m := spread c _).
  assert (Hm : List.NoDup (keys m)) by apply spread_NoDup.
  destruct platform as [name |]; [| symmetry; apply spread_nil_r, Hm].
  destruct (Encoding.nonempty name); [| symmetry; apply spread_nil_r, Hm].
  destruct (property (Config.shareContextParams config) name);
    cbn [default from_option id]; [reflexivity |].
  symmetry. apply spread_nil_r, Hm.
Qed.

Lemma mergedParams_eq (config : Config.ResolvedUtmConfig)
    (utmParameters : option UtmParameters) (platform : option string) :
  List.NoDup (keys (captured_params utmParameters)) ->
  Hook.mergedParams config utmParameters platform
  = spread (spread (captured_params utmParameters) (default_params config))
      (platform_params config platform).
Proof.
  intros Hcaptured. unfold Hook.mergedParams, captured_params in *. cbv zeta.
  destruct utmParameters as [p |]; [| apply merged_from, List.NoDup_nil].
  destruct (hasUtmParameters (Some p)); [| apply merged_from, List.NoDup_nil].
  rewrite (copy_id p Hcaptured). apply merged_from, Hcaptured.
Qed.

(** X23.  The share parameters are merged with the precedence platform,
    then default share parameters, then captured parameters: an entry of
    a source is among the merged parameters unless a source of higher
    precedence has its key.  The three sources are objects, with pairwise
    distinct keys. *)
Theorem share_params_precedence
    (config : Config.ResolvedUtmConfig) (utmParameters : option UtmParameters)
    (platform : option string) (key : string) (value : option string)
    (Hcaptured : List.NoDup (keys (captured_params utmParameters)))
    (Hdefault : List.NoDup (keys (default_params config)))
    (Hplatform : List.NoDup (keys (platform_params config platform))) :
  let merged := Hook.mergedParams config utmParameters platform in
  (In (key, value) (platform_params config platform) -> In (key, value) merged)
  /\ (In (key, value) (default_params config) ->
      ~ In key (keys (platform_params config platform)) -> In (key, value) merged)
  /\ (In (key, value) (captured_params utmParameters) ->
      ~ In key (keys (default_params config)) ->
      ~ In key (keys (platform_params config platform)) -> In (key, value) merged).
Proof.
  cbv zeta.
  rewrite (mergedParams_eq _ _ _ Hcaptured). split; [| split].
  - apply spread_In, Hplatform.
  - intros Hin Hp. apply spread_keeps; [apply spread_NoDup | exact Hp |].
    apply spread_In; assumption.
  - intros Hin Hd Hp. apply spread_keeps; [apply spread_NoDup | exact Hp |].
    apply spread_keeps; assumption.
Qed.

Lemma share_params_precedence_witness :
  let config :=
    {| Config.enabled := true; Config.keyFormat := snake_case;
       Config.storageKey := "utm_parameters"; Config.captureOnMount := true;
       Config.appendToShares := true; Config.allowedParameters := [];
       Config.defaultParams := [];
       Config.shareContextParams :=
         [("default", Some [("utm_medium", Some "share")]);
          ("linkedin", Some [("utm_medium", Some "social")])];
       Config.excludeFromShares := [] |} in
  In ("utm_medium", Some "social")
     (Hook.mergedParams config (Some [("utm_medium", Some "email")]) (Some "linkedin")).
Proof.
  refine (proj1 (share_params_precedence
           {| Config.enabled := true; Config.keyFormat := snake_case;
              Config.storageKey := "utm_parameters"; Config.captureOnMount := true;
              Config.appendToShares := true; Config.allowedParameters := [];
              Config.defaultParams := [];
              Config.shareContextParams :=
                [("default", Some [("utm_medium", Some "share")]);
                 ("linkedin", Some [("utm_medium", Some "social")])];
              Config.excludeFromShares := [] |}
           (Some [("utm_medium", Some "email")]) (Some "linkedin")
           "utm_medium" (Some "social") _ _ _) _).
  - apply List.NoDup_cons; [intros [] | apply List.NoDup_nil].
  - apply List.NoDup_cons; [intros [] | apply List.NoDup_nil].
  - apply List.NoDup_cons; [intros [] | apply List.NoDup_nil].
  - left. reflexivity.
Defined.

Lemma snakeKey_camel (key : string) :
  isCamelCaseUtmKey key = true ->
  Js.startsWith (Hook.snakeKey key) "utm__" = true /\ isSnakeCaseUtmKey key = false.
Proof.
  intros Hc. destruct (isSnakeCaseUtmKey key) eqn:Hs.
  { rewrite (snake_not_camel _ Hs) in Hc. discriminate Hc. }
  split; [| reflexivity]. unfold Hook.snakeKey. rewrite Hs.
  destruct (isCamelCaseUtmKey_inv _ Hc) as (c & r & -> & Hup).
  change (Js.slice 3 ("utm" +:+ String c r)) with (String c r).
  rewrite snake_suffix_cons, Hup. apply (startsWith_append "utm__").
Qed.

(** X24.  The exclusion filter of [appendToUrl] drops a snake_case entry
    exactly when its key is listed.  A camelCase entry is compared under a
    key that begins with [utm__], so a list of snake_case keys without a
    doubled underscore excludes no camelCase entry. *)
Theorem exclusion_by_key
    (config : Config.ResolvedUtmConfig) (utmParameters : option UtmParameters)
    (platform : option string) (key : string) (value : option string) :
  let merged := Hook.mergedParams config utmParameters platform in
  let shared := Hook.sharedParams config utmParameters platform in
  (isSnakeCaseUtmKey key = true ->
   (In (key, value) shared
    <-> In (key, value) merged /\ ~ In key (Config.excludeFromShares config)))
  /\ (isCamelCaseUtmKey key = true ->
      (forall e, In e (Config.excludeFromShares config) ->
                 isSnakeCaseUtmKey e = true /\ Js.startsWith e "utm__" = false) ->
      (In (key, value) shared <-> In (key, value) merged)).
Proof.
  cbv zeta.
  assert (Hshared :
            In (key, value) (Hook.sharedParams config utmParameters platform)
            <-> In (key, value) (Hook.mergedParams config utmParameters platform)
                /\ ~ In (Hook.snakeKey key) (Config.excludeFromShares config)
                /\ ~ In key (Config.excludeFromShares config)).
  { unfold Hook.sharedParams.
    destruct (Config.excludeFromShares config) as [| e l]; [cbn [In]; tauto |].
    rewrite filter_In, andb_true_iff, !negb_true_iff.
    rewrite <- !not_true_iff_false, !set_has_In. tauto. }
  rewrite Hshared. split.
  - intros Hs. unfold Hook.snakeKey. rewrite Hs. tauto.
  - intros Hc Hlist. destruct (snakeKey_camel _ Hc) as [Hk Hs].
    split; [tauto |]. intros Hin. split; [exact Hin |]. split; intros He.
    + apply Hlist in He as [_ He]. congruence.
    + apply Hlist in He as [He _]. congruence.
Qed.

Lemma exclusion_by_key_witness :
  let config :=
    {| Config.enabled := true; Config.keyFormat := camelCase;
       Config.storageKey := "utm_parameters"; Config.captureOnMount := true;
       Config.appendToShares := true; Config.allowedParameters := [];
       Config.defaultParams := []; Config.shareContextParams := [];
       Config.excludeFromShares := ["utm_source"] |} in
  In ("utmSource", Some "a")
     (Hook.sharedParams config (Some [("utmSource", Some "a")]) None)
  <-> In ("utmSource", Some "a")
         (Hook.mergedParams config (Some [("utmSource", Some "a")]) None).
Proof.
  apply (exclusion_by_key
           {| Config.enabled := true; Config.keyFormat := camelCase;
              Config.storageKey := "utm_parameters"; Config.captureOnMount := true;
              Config.appendToShares := true; Config.allowedParameters := [];
              Config.defaultParams := []; Config.shareContextParams := [];
              Config.excludeFromShares := ["utm_source"] |}
           (Some [("utmSource", Some "a")]) None "utmSource" (Some "a")).
  - reflexivity.
  - intros e [<- | []]. split; reflexivity.
Defined.

(** X25.  [appendToUrl] returns the URL unchanged when tracking is
    disabled or sharing is switched off; otherwise it returns what
    [appendUtmParameters] gives for the merged parameters that the
    exclusion filter lets through. *)
Theorem appendToUrl_shares
    (URL_global : option (string -> option URL.record))
    (config : Config.ResolvedUtmConfig) (utmParameters : option UtmParameters)
    (url : string) (platform : option string) :
  Hook.appendToUrl URL_global config utmParameters url platform
  = if Config.enabled config && Config.appendToShares config
    then Appender.appendUtmParameters URL_global url
           (Hook.sharedParams config utmParameters platform) no_options
    else url.
Proof.
  unfold Hook.appendToUrl.
  destruct (Config.enabled config), (Config.appendToShares config); try reflexivity.
  cbn [negb orb andb].
  destruct (hasUtmParameters (Some (Hook.sharedParams config utmParameters platform)))
    eqn:E; [reflexivity |].
  cbn [negb]. unfold Appender.appendUtmParameters.
  destruct (Appender.hasValidUtmEntries _) eqn:Ev; [| reflexivity].
  apply hasValid_hasUtmParameters in Ev. congruence.
Qed.

(** ** The validator *)

Lemma prefix_nil (s : string) : String.prefix "" s = true.
Proof. destruct s; reflexivity. Qed.

Lemma prefix_cons_eq (a b : ascii) (p s : string) :
  String.prefix (String a p) (String b s)
  = if Ascii.eqb a b then String.prefix p s else false.
Proof.
  cbn [String.prefix]. destruct (ascii_dec a b) as [-> | n].
  - rewrite Ascii.eqb_refl. reflexivity.
  - apply Ascii.eqb_neq in n. rewrite n. reflexivity.
Qed.

Lemma includes_unfold (needle s : string) :
  Validator.includes needle s
  = String.prefix needle s
    || match s with
       | EmptyString => false
       | String _ r => Validator.includes needle r
       end.
Proof. destruct s; reflexivity. Qed.

Lemma includes_prefix (needle s : string) :
  Validator.includes needle (needle +:+ s) = true.
Proof.
  rewrite includes_unfold.
  replace (String.prefix needle (needle +:+ s)) with true; [reflexivity |].
  symmetry. apply (startsWith_append needle s).
Qed.

Lemma includes_append (needle a b : string) :
  Validator.includes needle b = true -> Validator.includes needle (a +:+ b) = true.
Proof.
  intros H. induction a as [| c a IH]; [exact H |].
  rewrite append_cons, includes_unfold, IH. apply orb_true_r.
Qed.

Lemma trimEnd_cons (c : ascii) (r : string) :
  Validator.trimEnd (String c r)
  = match Validator.trimEnd r with
    | EmptyString => if Validator.is_space c then EmptyString else String c EmptyString
    | String d r' => String c (String d r')
    end.
Proof. reflexivity. Qed.

(** A needle without white space is a prefix of the trimmed string
    exactly when it is one of the string. *)
Lemma prefix_trimEnd (needle s : string) :
  Js.all_chars not_space needle = true ->
  String.prefix needle (Validator.trimEnd s) = String.prefix needle s.
Proof.
  revert s. induction needle as [| a n IH]; intros s Hn.
  { rewrite !prefix_nil. reflexivity. }
  cbn [Js.all_chars] in Hn. apply andb_prop in Hn as [Ha Hn].
  destruct s as [| b s]; [reflexivity |].
  rewrite trimEnd_cons, (prefix_cons_eq a b n s). specialize (IH s Hn).
  destruct (Validator.trimEnd s) as [| d r'].
  - destruct (Validator.is_space b) eqn:Hb.
    + destruct (Ascii.eqb_spec a b) as [-> | _]; [| reflexivity].
      unfold not_space in Ha. rewrite Hb in Ha. discriminate Ha.
    + rewrite prefix_cons_eq, IH. reflexivity.
  - rewrite prefix_cons_eq, IH. reflexivity.
Qed.

Lemma includes_trimEnd (needle s : string) :
  Js.all_chars not_space needle = true ->
  Validator.includes needle (Validator.trimEnd s) = Validator.includes needle s.
Proof.
  intros Hn. induction s as [| c r IH]; [reflexivity |].
  rewrite (includes_unfold needle (String c r)), <- (prefix_trimEnd _ (String c r) Hn).
  rewrite <- IH, includes_unfold, trimEnd_cons.
  destruct (Validator.trimEnd r) as [| d r'].
  - destruct (Validator.is_space c).
    + rewrite (includes_unfold needle ""). destruct (String.prefix needle ""); reflexivity.
    + reflexivity.
  - reflexivity.
Qed.

Lemma includes_trimStart (needle s : string) :
  Js.all_chars not_space needle = true -> needle <> "" ->
  Validator.includes needle (Validator.trimStart s) = Validator.includes needle s.
Proof.
  intros Hn Hne. destruct needle as [| a n]; [contradiction Hne; reflexivity |].
  cbn [Js.all_chars] in Hn. apply andb_prop in Hn as [Ha _].
  induction s as [| c r IH]; [reflexivity |].
  cbn [Validator.trimStart]. destruct (Validator.is_space c) eqn:Hc; [| reflexivity].
  rewrite IH, (includes_unfold _ (String c r)), prefix_cons_eq.
  destruct (Ascii.eqb_spec a c) as [-> | _]; [| reflexivity].
  unfold not_space in Ha. rewrite Hc in Ha. discriminate Ha.
Qed.

Lemma hasProtocol_trim (s : string) :
  Validator.hasProtocol (Validator.trim s) = Validator.hasProtocol s.
Proof.
  unfold Validator.hasProtocol, Validator.trim.
  rewrite includes_trimEnd by reflexivity.
  apply includes_trimStart; [reflexivity | discriminate].
Qed.

Lemma slice_suffix (n : nat) (s : string) : exists a, s = a +:+ Js.slice n s.
Proof.
  revert s. induction n as [| n IH]; intros s; [exists ""; reflexivity |].
  destruct s as [| c s]; [exists ""; reflexivity |].
  destruct (IH s) as [a Ha]. exists (String c a). cbn [Js.slice].
  rewrite append_cons, <- Ha. reflexivity.
Qed.

Lemma endsWith_inv (s suffix : string) :
  Validator.endsWith s suffix = true -> exists a, s = a +:+ suffix.
Proof.
  unfold Validator.endsWith. intros H. apply andb_prop in H as [_ H].
  apply String.eqb_eq in H.
  destruct (slice_suffix (String.length s - String.length suffix) s) as [a Ha].
  exists a. rewrite <- H. exact Ha.
Qed.

Lemma protocol_state_inv (dp : string) :
  protocol_state dp -> exists a, dp = a +:+ "://".
Proof.
  intros [| old protocol new _ Hset].
  - exists "https". reflexivity.
  - unfold Validator.setDefaultProtocol in Hset.
    destruct (Validator.endsWith protocol "://") eqn:E; [| discriminate Hset].
    injection Hset as <-. apply endsWith_inv, E.
Qed.

Lemma normalizeUrl_hasProtocol (dp url : string) :
  protocol_state dp -> Validator.hasProtocol (Validator.normalizeUrl dp url) = true.
Proof.
  intros Hstate. unfold Validator.normalizeUrl.
  destruct (Validator.hasProtocol (Validator.trim url)) eqn:E; [exact E |].
  destruct (protocol_state_inv _ Hstate) as [a ->].
  unfold Validator.hasProtocol. rewrite append_assoc.
  apply includes_append, includes_prefix.
Qed.

(** Trimming twice. *)
Lemma trimStart_head (s : string) :
  match Validator.trimStart s with
  | EmptyString => True
  | String c _ => Validator.is_space c = false
  end.
Proof.
  induction s as [| c r IH]; [exact I |].
  cbn [Validator.trimStart]. destruct (Validator.is_space c) eqn:E; [exact IH | exact E].
Qed.

Lemma trimEnd_idempotent (s : string) :
  Validator.trimEnd (Validator.trimEnd s) = Validator.trimEnd s.
Proof.
  induction s as [| c r IH]; [reflexivity |].
  rewrite trimEnd_cons. destruct (Validator.trimEnd r) as [| d r'] eqn:E.
  - destruct (Validator.is_space c) eqn:Hc; [reflexivity |].
    cbn [Validator.trimEnd]. rewrite Hc. reflexivity.
  - rewrite trimEnd_cons, IH. reflexivity.
Qed.

Lemma trimEnd_head (c : ascii) (r : string) :
  Validator.is_space c = false ->
  exists r', Validator.trimEnd (String c r) = String c r'.
Proof.
  intros Hc. rewrite trimEnd_cons. destruct (Validator.trimEnd r) as [| d r'].
  - rewrite Hc. eauto.
  - eauto.
Qed.

Lemma trim_trimmed (s : string) :
  Validator.trim (Validator.trim s) = Validator.trim s.
Proof.
  unfold Validator.trim. pose proof (trimStart_head s) as H.
  destruct (Validator.trimStart s) as [| c r]; [reflexivity |].
  destruct (trimEnd_head c r H) as [r' Hr]. rewrite Hr at 1.
  cbn [Validator.trimStart]. rewrite H, <- Hr. apply trimEnd_idempotent.
Qed.

Lemma trimEnd_app (a b : string) :
  Validator.trimEnd (a +:+ b)
  = match Validator.trimEnd b with
    | EmptyString => Validator.trimEnd a
    | String d r => a +:+ String d r
    end.
Proof.
  induction a as [| c a IH].
  - rewrite append_nil_l. destruct (Validator.trimEnd b); reflexivity.
  - rewrite append_cons, trimEnd_cons, IH.
    destruct (Validator.trimEnd b) as [| d r].
    + rewrite trimEnd_cons. reflexivity.
    + rewrite append_cons. destruct a; reflexivity.
Qed.

Lemma trim_protocol (dp t : string) :
  protocol_state dp -> Validator.trimStart dp = dp ->
  Validator.trimEnd t = t ->
  Validator.trim (dp +:+ t) = dp +:+ t.
Proof.
  intros Hstate Hstart Ht. destruct (protocol_state_inv _ Hstate) as [a Ha].
  unfold Validator.trim.
  assert (Hs : Validator.trimStart (dp +:+ t) = dp +:+ t).
  { pose proof (trimStart_head dp) as H. rewrite Hstart in H.
    destruct dp as [| c d]; [destruct a; discriminate Ha |].
    rewrite append_cons. cbn [Validator.trimStart]. rewrite H. reflexivity. }
  rewrite Hs, trimEnd_app, Ht. destruct t as [| d r]; [| reflexivity].
  rewrite append_nil_r, Ha, trimEnd_app. reflexivity.
Qed.

Lemma trimEnd_trim (s : string) :
  Validator.trimEnd (Validator.trim s) = Validator.trim s.
Proof. unfold Validator.trim. apply trimEnd_idempotent. Qed.

(** X26.  Whatever protocol [setDefaultProtocol] has installed, a
    normalised URL needs no further normalisation, and neither does the
    [normalizedUrl] that [validateAndNormalize] returns; if that protocol
    is ASCII text that does not begin with white space, [normalizeUrl] is
    idempotent. *)
Theorem normalizeUrl_settles
    (URL_global : option (string -> option URL.record))
    (hostname : URL.record -> string) (defaultProtocol url : string)
    (Hstate : protocol_state defaultProtocol) :
  Validator.needsNormalization (Validator.normalizeUrl defaultProtocol url) = false
  /\ Validator.needsNormalization
       (snd (Validator.validateAndNormalize URL_global hostname defaultProtocol url))
     = false
  /\ (Js.all_chars Js.is_ascii defaultProtocol = true ->
      Validator.trimStart defaultProtocol = defaultProtocol ->
      Validator.normalizeUrl defaultProtocol (Validator.normalizeUrl defaultProtocol url)
      = Validator.normalizeUrl defaultProtocol url).
Proof.
  pose proof (normalizeUrl_hasProtocol defaultProtocol url Hstate) as Hp.
  assert (Hneeds : Validator.needsNormalization
                     (Validator.normalizeUrl defaultProtocol url) = false).
  { unfold Validator.needsNormalization. rewrite hasProtocol_trim, Hp. reflexivity. }
  split; [exact Hneeds |]. split; [exact Hneeds |].
  intros _ Hstart.
  assert (Ht : Validator.trim (Validator.normalizeUrl defaultProtocol url)
               = Validator.normalizeUrl defaultProtocol url).
  { unfold Validator.normalizeUrl.
    destruct (Validator.hasProtocol (Validator.trim url)); [apply trim_trimmed |].
    apply trim_protocol; [exact Hstate | exact Hstart | apply trimEnd_trim]. }
  unfold Validator.normalizeUrl at 1. rewrite Ht, Hp. reflexivity.
Qed.

Lemma normalizeUrl_settles_witness :
  Validator.normalizeUrl "ftp://" "  example.com/a  " = "ftp://example.com/a"
  /\ Validator.needsNormalization (Validator.normalizeUrl "ftp://" "  example.com/a  ")
     = false
  /\ Validator.normalizeUrl "ftp://" (Validator.normalizeUrl "ftp://" "  example.com/a  ")
     = Validator.normalizeUrl "ftp://" "  example.com/a  ".
Proof.
  split; [reflexivity |].
  assert (Hstate : protocol_state "ftp://").
  { apply (protocol_set Validator.initial_defaultProtocol "ftp://" "ftp://").
    - apply protocol_initial.
    - reflexivity. }
  destruct (normalizeUrl_settles None (fun r => default "" (URL.host r))
              "ftp://" "  example.com/a  " Hstate) as (H1 & _ & H3).
  split; [exact H1 | apply H3; reflexivity].
Defined.

Lemma length_append (a b : string) :
  String.length (a +:+ b) = String.length a + String.length b.
Proof.
  induction a as [| c a IH]; [reflexivity |].
  rewrite append_cons. cbn [String.length]. rewrite IH. reflexivity.
Qed.

Lemma append_cancel_r (a b c : string) : a +:+ c = b +:+ c -> a = b.
Proof.
  revert b. induction a as [| x a IH]; intros [| y b] H.
  - reflexivity.
  - apply (f_equal String.length) in H. rewrite append_nil_l, append_cons in H.
    cbn [String.length] in H. rewrite length_append in H. lia.
  - apply (f_equal String.length) in H. rewrite append_nil_l, append_cons in H.
    cbn [String.length] in H. rewrite length_append in H. lia.
  - rewrite !append_cons in H. injection H as -> H. f_equal. apply IH, H.
Qed.

Lemma isProtocolAllowed_scheme (scheme : string) :
  Validator.isProtocolAllowed (scheme +:+ ":") = true
  <-> scheme = "http" \/ scheme = "https".
Proof.
  unfold Validator.isProtocolAllowed, Validator.ALLOWED_PROTOCOLS. cbn [existsb].
  rewrite orb_false_r, orb_true_iff, !String.eqb_eq. split.
  - intros [H | H]; [left; apply (append_cancel_r scheme "http" ":") |
                      right; apply (append_cancel_r scheme "https" ":")]; exact H.
  - intros [-> | ->]; [left | right]; reflexivity.
Qed.

Lemma remove_chars_empty (p : ascii -> bool) (s : string) :
  URL.remove_chars p s = "" <-> Js.all_chars p s = true.
Proof.
  induction s as [| c r IH]; [split; reflexivity |].
  cbn [URL.remove_chars Js.all_chars]. destruct (p c); cbn [andb].
  - exact IH.
  - split; discriminate.
Qed.

Lemma validateDomain_valid (hostname : string) :
  Validator.valid (Validator.validateDomain hostname) = true
  <-> Js.includes "." hostname = true /\ Js.all_chars is_dot hostname = false.
Proof.
  unfold Validator.validateDomain.
  destruct (negb (Encoding.nonempty hostname) || String.eqb hostname ".") eqn:E1.
  - cbn [Validator.valid]. split; [discriminate |]. intros [Hi Ha].
    apply orb_prop in E1 as [E1 | E1].
    + destruct hostname; [discriminate Hi | discriminate E1].
    + apply String.eqb_eq in E1. subst hostname. discriminate Ha.
  - destruct (Js.includes "." hostname) eqn:E2; cbn [negb Validator.valid].
    + destruct (String.eqb_spec (URL.remove_chars (fun c => Ascii.eqb c ".") hostname) "")
        as [E3 | E3]; cbn [Validator.valid].
      * apply remove_chars_empty in E3. split; [discriminate |].
        intros [_ Ha]. unfold is_dot in Ha. congruence.
      * split; [| reflexivity]. intros _. split; [reflexivity |].
        apply not_true_is_false. intros Ha. apply E3, remove_chars_empty. exact Ha.
    + split; [discriminate |]. intros [Hi _]. discriminate Hi.
Qed.

(** X27.  [validateUrl] accepts a URL exactly when it is not blank, the
    URL parser accepts it, its scheme is http or https, and its hostname
    contains a dot and a character other than a dot. *)
Theorem validateUrl_valid_iff
    (URL_global : option (string -> option URL.record))
    (hostname : URL.record -> string) (url : string) :
  Validator.valid (Validator.validateUrl URL_global hostname url) = true
  <-> Validator.trim url <> ""
      /\ exists parser r,
           URL_global = Some parser /\ parser url = Some r
           /\ (URL.scheme r = "http" \/ URL.scheme r = "https")
           /\ Js.includes "." (hostname r) = true
           /\ Js.all_chars is_dot (hostname r) = false.
Proof.
  unfold Validator.validateUrl.
  destruct (Validator.trim url) as [| c t] eqn:Et; cbn [Encoding.nonempty negb].
  { cbn [Validator.valid]. split; [discriminate | intros [H _]; contradiction H; reflexivity]. }
  destruct URL_global as [parser |]; cbn [bind try_catch Validator.valid].
  2: { split; [discriminate | intros (_ & ? & ? & H & _); discriminate H]. }
  unfold URL.new. destruct (parser url) as [r |] eqn:Hparse; cbn [bind try_catch].
  2: { cbn [Validator.valid]. split; [discriminate |].
       intros (_ & parser' & r & [= <-] & H & _). congruence. }
  unfold Validator.validateProtocol, URL.get_protocol. cbn [URL.url].
  fold (Validator.isProtocolAllowed (URL.scheme r +:+ ":")).
  destruct (Validator.isProtocolAllowed (URL.scheme r +:+ ":")) eqn:Ep;
    cbn [negb Validator.valid try_catch].
  - apply isProtocolAllowed_scheme in Ep.
    destruct (Validator.valid (Validator.validateDomain (hostname r))) eqn:Ed;
      cbn [negb try_catch Validator.valid].
    + apply validateDomain_valid in Ed as [Hi Ha]. split; [| reflexivity].
      intros _. split; [discriminate |]. exists parser, r. auto.
    + rewrite Ed. split; [discriminate |].
      intros (_ & parser' & r' & [= <-] & Hp & _ & Hi & Ha).
      assert (r' = r) by congruence. subst r'.
      assert (Validator.valid (Validator.validateDomain (hostname r)) = true)
        by (apply validateDomain_valid; auto).
      congruence.
  - split; [discriminate |].
    intros (_ & parser' & r' & [= <-] & Hp & Hs & _).
    assert (r' = r) by congruence. subst r'.
    apply isProtocolAllowed_scheme in Hs. congruence.
Qed.

(** X28.  A validation result is either valid, without error and
    message, or invalid with an error and the message of that error; an
    ASCII input is reported as [empty_url] exactly when it is blank. *)
Theorem validation_result_shape
    (URL_global : option (string -> option URL.record))
    (hostname : URL.record -> string) (url : string) :
  let result := Validator.validateUrl URL_global hostname url in
  (if Validator.valid result
   then Validator.error result = None /\ Validator.message result = None
   else exists e, Validator.error result = Some e
                  /\ Validator.message result = Some (Validator.getErrorMessage e))
  /\ (Js.all_chars Js.is_ascii url = true ->
      (Validator.trim url = "" <-> Validator.error result = Some Validator.empty_url)).
Proof.
  cbv zeta.
  enough (H : (if Validator.valid (Validator.validateUrl URL_global hostname url)
               then Validator.error (Validator.validateUrl URL_global hostname url) = None
                    /\ Validator.message (Validator.validateUrl URL_global hostname url)
                       = None
               else exists e,
                      Validator.error (Validator.validateUrl URL_global hostname url)
                      = Some e
                      /\ Validator.message (Validator.validateUrl URL_global hostname url)
                         = Some (Validator.getErrorMessage e))
              /\ (Validator.trim url = ""
                  <-> Validator.error (Validator.validateUrl URL_global hostname url)
                      = Some Validator.empty_url))
    by (destruct H as [H1 H2]; split; [exact H1 | intros _; exact H2]).
  unfold Validator.validateUrl.
  destruct (Validator.trim url) as [| c t] eqn:Et; cbn [Encoding.nonempty negb].
  { cbn. split; [eexists; split; reflexivity | tauto]. }
  assert (Hne : String c t = "" <-> False) by (split; [discriminate | tauto]).
  destruct URL_global as [parser |]; cbn [bind try_catch].
  2: { cbn. split; [eexists; split; reflexivity |]. rewrite Hne. split; [tauto | discriminate]. }
  unfold URL.new. destruct (parser url) as [r |]; cbn [bind try_catch].
  2: { cbn. split; [eexists; split; reflexivity |]. rewrite Hne. split; [tauto | discriminate]. }
  unfold Validator.validateProtocol.
  destruct (existsb _ Validator.ALLOWED_PROTOCOLS); cbn [negb Validator.valid try_catch].
  2: { cbn. split; [eexists; split; reflexivity |]. rewrite Hne. split; [tauto | discriminate]. }
  unfold Validator.validateDomain.
  destruct (negb (Encoding.nonempty (hostname (URL.url _))) || _);
    cbn [negb Validator.valid try_catch].
  { cbn. split; [eexists; split; reflexivity |]. rewrite Hne. split; [tauto | discriminate]. }
  destruct (negb (Js.includes "." _)); cbn [negb Validator.valid try_catch].
  { cbn. split; [eexists; split; reflexivity |]. rewrite Hne. split; [tauto | discriminate]. }
  destruct (String.eqb _ ""); cbn [negb Validator.valid try_catch].
  { cbn. split; [eexists; split; reflexivity |]. rewrite Hne. split; [tauto | discriminate]. }
  cbn. split; [auto |]. rewrite Hne. split; [tauto | discriminate].
Qed.

Lemma validation_result_shape_witness :
  let result := Validator.validateUrl None (fun r => default "" (URL.host r)) "   " in
  Validator.valid result = false
  /\ Validator.error result = Some Validator.empty_url.
Proof.
  split; [reflexivity |].
  destruct (validation_result_shape None (fun r => default "" (URL.host r)) "   ")
    as [_ H].
  apply (H eq_refl). reflexivity.
Defined.

(** ** Merging configurations *)

Lemma assign_same {V} (o : list (string * V)) (k : string) (v : V) :
  List.NoDup (keys o) -> In (k, v) o -> assign o k v = o.
Proof.
  induction o as [| [k' v'] r IH]; intros Hn Hin; [destruct Hin |].
  cbn [assign]. destruct (String.eqb_spec k' k) as [-> | Hk].
  - f_equal. f_equal.
    symmetry. apply (keys_functional ((k, v') :: r) k v' v Hn); [left; reflexivity | exact Hin].
  - f_equal. cbn [keys map fst] in Hn. apply List.NoDup_cons_iff in Hn as [_ Hn].
    apply IH; [exact Hn |]. destruct Hin as [[= -> _] | Hin]; [contradiction | exact Hin].
Qed.

Lemma assign_all_present {V} (x l : list (string * V)) :
  List.NoDup (keys x) -> (forall e, In e l -> In e x) -> assign_all x l = x.
Proof.
  intros Hn. unfold assign_all. induction l as [| [k v] r IH]; intros Hl; [reflexivity |].
  cbn [fold_left]. unfold assign_entry at 2. cbn [fst snd].
  rewrite assign_same; [| exact Hn | apply Hl; left; reflexivity].
  apply IH. intros e He. apply Hl. right. exact He.
Qed.

Lemma spread_absorbs {V} (a o : list (string * V)) :
  List.NoDup (keys o) -> spread (spread a o) o = spread a o.
Proof.
  intros Ho. unfold spread at 1. rewrite (copy_id _ (spread_NoDup a o)).
  apply assign_all_present; [apply spread_NoDup |].
  intros [k v] He. apply spread_In; assumption.
Qed.

Lemma mergeUtmParams_NoDup (base : UtmParameters) (override : option UtmParameters) :
  List.NoDup (keys (Config.mergeUtmParams base override)).
Proof.
  unfold Config.mergeUtmParams. destruct override; [apply spread_NoDup | apply copy_NoDup].
Qed.

Lemma mergeUtmParams_idempotent (base : UtmParameters) (override : option UtmParameters) :
  (forall o, override = Some o -> distinct_keys o) ->
  Config.mergeUtmParams (Config.mergeUtmParams base override) override
  = Config.mergeUtmParams base override.
Proof.
  intros Ho. unfold Config.mergeUtmParams. destruct override as [o |].
  - apply spread_absorbs, Ho. reflexivity.
  - apply copy_id, copy_NoDup.
Qed.

Lemma property_In {V} (o : list (string * option V)) (k : string) (v : V) :
  List.NoDup (keys o) -> In (k, Some v) o -> property o k = Some v.
Proof.
  induction o as [| [k' v'] r IH]; intros Hn Hin; [destruct Hin |].
  cbn [keys map fst] in Hn. apply List.NoDup_cons_iff in Hn as [Hk Hn].
  cbn [property]. destruct Hin as [[= -> ->] | Hin].
  - rewrite String.eqb_refl. reflexivity.
  - destruct (String.eqb_spec k' k) as [-> | _]; [| apply IH; assumption].
    exfalso. apply Hk. apply (in_map fst) in Hin. exact Hin.
Qed.

Lemma share_fold_NoDup (base : Config.ShareContextParams)
    (l acc : Config.ShareContextParams) :
  List.NoDup (keys acc) ->
  List.NoDup (keys (fold_left (Config.mergeShareContextParams_step base) l acc)).
Proof.
  revert acc. induction l as [| [k [v |]] r IH]; intros acc Hn; cbn [fold_left].
  - exact Hn.
  - apply IH. cbn [Config.mergeShareContextParams_step]. apply NoDup_keys_assign, Hn.
  - apply IH. exact Hn.
Qed.

Lemma share_fold_keeps (base : Config.ShareContextParams)
    (l acc : Config.ShareContextParams) (k : string) (x : option UtmParameters) :
  ~ In k (keys l) -> In (k, x) acc ->
  In (k, x) (fold_left (Config.mergeShareContextParams_step base) l acc).
Proof.
  revert acc. induction l as [| [k' [v |]] r IH]; intros acc Hk Hin; cbn [fold_left].
  - exact Hin.
  - cbn [keys map fst In] in Hk. apply IH; [tauto |].
    cbn [Config.mergeShareContextParams_step].
    apply assign_In_other; [| exact Hin]. intros ->. tauto.
  - cbn [keys map fst In] in Hk. apply IH; [tauto | exact Hin].
Qed.

Lemma share_fold_In (base : Config.ShareContextParams)
    (l acc : Config.ShareContextParams) (k : string) (v : UtmParameters) :
  List.NoDup (keys l) -> In (k, Some v) l ->
  In (k, Some (spread (default [] (property base k)) v))
     (fold_left (Config.mergeShareContextParams_step base) l acc).
Proof.
  revert acc. induction l as [| [k' v'] r IH]; intros acc Hn Hin; [destruct Hin |].
  cbn [keys map fst] in Hn. apply List.NoDup_cons_iff in Hn as [Hk Hn].
  cbn [fold_left]. destruct Hin as [[= -> ->] | Hin].
  - apply share_fold_keeps; [exact Hk |]. cbn [Config.mergeShareContextParams_step].
    apply assign_In_same.
  - apply IH; assumption.
Qed.

Lemma mergeShareContextParams_NoDup (base : Config.ShareContextParams)
    (override : option Config.ShareContextParams) :
  List.NoDup (keys (Config.mergeShareContextParams base override)).
Proof.
  unfold Config.mergeShareContextParams. destruct override.
  - apply share_fold_NoDup, copy_NoDup.
  - apply copy_NoDup.
Qed.

Lemma mergeShareContextParams_idempotent (base : Config.ShareContextParams)
    (override : option Config.ShareContextParams) :
  (forall o, override = Some o -> distinct_share_keys o) ->
  Config.mergeShareContextParams (Config.mergeShareContextParams base override) override
  = Config.mergeShareContextParams base override.
Proof.
  intros Ho. pose proof (mergeShareContextParams_NoDup base override) as Hn.
  destruct override as [o |]; [| apply copy_id, Hn].
  destruct (Ho o eq_refl) as [Hko Hvo].
  set (R := Config.mergeShareContextParams base (Some o)) in *.
  unfold Config.mergeShareContextParams at 1. rewrite (copy_id _ Hn).
  assert (H : forall l, (forall e, In e l -> In e o) ->
                        fold_left (Config.mergeShareContextParams_step R) l R = R).
  { induction l as [| [k [v |]] r IH]; intros Hl; [reflexivity | |]; cbn [fold_left].
    - cbn [Config.mergeShareContextParams_step].
      assert (Hin : In (k, Some (spread (default [] (property base k)) v)) R).
      { unfold R, Config.mergeShareContextParams.
        apply share_fold_In; [exact Hko | apply Hl; left; reflexivity]. }
      rewrite (property_In _ _ _ Hn Hin). cbn [default from_option id].
      rewrite spread_absorbs by (apply (Hvo k v), Hl; left; reflexivity).
      rewrite (assign_same _ _ _ Hn Hin). apply IH.
      intros e He. apply Hl. right. exact He.
    - cbn [Config.mergeShareContextParams_step]. apply IH.
      intros e He. apply Hl. right. exact He. }
  apply H. auto.
Qed.

(** X29.  Merging the same override into a configuration twice gives
    what merging it once gives, for an override whose objects have
    pairwise distinct keys, as the objects of JavaScript have. *)
Theorem mergeConfig_idempotent
    (base : Config.ResolvedUtmConfig) (override : Config.Partial.UtmConfig)
    (Hparams : forall o,
        Config.Partial.defaultParams override = Some o -> distinct_keys o)
    (Hshare : forall o,
        Config.Partial.shareContextParams override = Some o -> distinct_share_keys o) :
  Config.mergeConfig (Config.mergeConfig base override) override
  = Config.mergeConfig base override.
Proof.
  unfold Config.mergeConfig.
  cbn [Config.enabled Config.keyFormat Config.storageKey Config.captureOnMount
       Config.appendToShares Config.allowedParameters Config.defaultParams
       Config.shareContextParams Config.excludeFromShares].
  rewrite (mergeUtmParams_idempotent _ _ Hparams).
  rewrite (mergeShareContextParams_idempotent _ _ Hshare).
  f_equal.
  - destruct (Config.Partial.enabled override); reflexivity.
  - destruct (Config.Partial.keyFormat override); reflexivity.
  - destruct (Config.Partial.storageKey override); reflexivity.
  - destruct (Config.Partial.captureOnMount override); reflexivity.
  - destruct (Config.Partial.appendToShares override); reflexivity.
  - destruct (Config.Partial.allowedParameters override); reflexivity.
  - destruct (Config.Partial.excludeFromShares override); reflexivity.
Qed.

Lemma mergeConfig_idempotent_witness :
  let override :=
    {| Config.Partial.enabled := Some false; Config.Partial.keyFormat := None;
       Config.Partial.storageKey := None; Config.Partial.captureOnMount := None;
       Config.Partial.appendToShares := None; Config.Partial.allowedParameters := None;
       Config.Partial.defaultParams := Some [("utm_source", Some "site")];
       Config.Partial.shareContextParams :=
         Some [("linkedin", Some [("utm_medium", Some "social")])];
       Config.Partial.excludeFromShares := None |} in
  Config.mergeConfig (Config.mergeConfig Config.getDefaultConfig override) override
  = Config.mergeConfig Config.getDefaultConfig override.
Proof.
  apply (mergeConfig_idempotent Config.getDefaultConfig
           {| Config.Partial.enabled := Some false; Config.Partial.keyFormat := None;
              Config.Partial.storageKey := None; Config.Partial.captureOnMount := None;
              Config.Partial.appendToShares := None;
              Config.Partial.allowedParameters := None;
              Config.Partial.defaultParams := Some [("utm_source", Some "site")];
              Config.Partial.shareContextParams :=
                Some [("linkedin", Some [("utm_medium", Some "social")])];
              Config.Partial.excludeFromShares := None |}).
  - intros o [= <-]. apply List.NoDup_cons; [intros [] | apply List.NoDup_nil].
  - intros o [= <-]. split.
    + apply List.NoDup_cons; [intros [] | apply List.NoDup_nil].
    + intros name p [[= <- <-] | []].
      apply List.NoDup_cons; [intros [] | apply List.NoDup_nil].
Defined.

(** X30.  [createConfig] is [mergeConfig] on the default configuration;
    an override without members changes nothing, and without an argument
    [createConfig] returns the defaults. *)
Theorem createConfig_merges_defaults (userConfig : Config.Partial.UtmConfig)
    (base : Config.ResolvedUtmConfig)
    (Hparams : distinct_keys (Config.defaultParams base))
    (Hshare : distinct_keys (Config.shareContextParams base)) :
  Config.createConfig (Some userConfig)
  = Config.mergeConfig Config.getDefaultConfig userConfig
  /\ Config.mergeConfig base no_override = base
  /\ Config.createConfig (Some no_override) = Config.createConfig None.
Proof.
  split; [reflexivity |]. split; [| reflexivity].
  unfold Config.mergeConfig, no_override.
  cbn [Config.Partial.enabled Config.Partial.keyFormat Config.Partial.storageKey
       Config.Partial.captureOnMount Config.Partial.appendToShares
       Config.Partial.allowedParameters Config.Partial.defaultParams
       Config.Partial.shareContextParams Config.Partial.excludeFromShares
       default from_option id Config.mergeUtmParams Config.mergeShareContextParams].
  rewrite (copy_id _ Hparams), (copy_id _ Hshare). destruct base; reflexivity.
Qed.

Lemma createConfig_merges_defaults_witness :
  Config.createConfig (Some no_override)
  = Config.mergeConfig Config.getDefaultConfig no_override
  /\ Config.mergeConfig Config.getDefaultConfig no_override = Config.getDefaultConfig
  /\ Config.createConfig (Some no_override) = Config.createConfig None.
Proof.
  apply (createConfig_merges_defaults no_override Config.getDefaultConfig).
  - apply List.NoDup_nil.
  - apply List.NoDup_nil.
Defined.
